(** * GATRA A2A gateway: CII trust policy engine and JSON-RPC task engine

    A shallow embedding of
    - the CII-aware trust policy engine (canonical TypeScript source
      [lib/cii-trust-policy.ts] and its runtime edge copy
      [api/_cii-trust-policy.js]), and
    - the A2A JSON-RPC handler ([api/a2a.js]): task store, [tasks/get],
      [tasks/cancel], [message/send] and skill routing,
    together with the properties the specification states about them. *)

From Stdlib Require Import Ascii QArith Qabs Qround Lqa DecimalString.
From stdpp Require Import gmap strings list.

Local Open Scope Z_scope.

(* ===================================================================== *)
(** * JavaScript values used by the code *)
(* ===================================================================== *)

(** ** Numbers

    A JavaScript [number] is an IEEE-754 double.  Every finite double is a
    rational, and [>] on doubles compares those rationals, so a finite
    number carries its exact value in [Q]; the three non-finite values are
    kept apart.  ([Q] has no negative zero; the code never tells the zeros
    apart, except that [toFixed] prints a minus sign for values below
    zero only.) *)

Inductive number : Type :=
  | JNaN
  | JInf (negative : bool)
  | JNum (q : Q).

Definition Qlt_bool (a b : Q) : bool := negb (Qle_bool b a).

(** The relational operator [a > b] of the language: anything compared
    with NaN is false. *)
Definition js_gt (a b : number) : bool :=
  match a, b with
  | JNaN, _ | _, JNaN => false
  | JNum p, JNum q => Qlt_bool q p
  | JInf na, JInf nb => negb na && nb
  | JInf na, JNum _ => negb na
  | JNum _, JInf nb => nb
  end.

(** The order of the extended reals, as a proposition; NaN is related to
    nothing. *)
Definition num_lt (a b : number) : Prop :=
  match a, b with
  | JNum p, JNum q => (p < q)%Q
  | JInf true, JNum _ | JNum _, JInf false | JInf true, JInf false => True
  | _, _ => False
  end.

Definition num_le (a b : number) : Prop :=
  match a, b with
  | JNum p, JNum q => (p <= q)%Q
  | JInf true, JNum _ | JNum _, JInf false => True
  | JInf na, JInf nb => na = true \/ nb = false
  | _, _ => False
  end.

(** A JSON-RPC request id: a string, a number or [null]. *)
Inductive RpcId : Type :=
  | IdString (s : string)
  | IdNumber (n : number)
  | IdNull.

(** ** Strings

    A string is a sequence of code units, and a character of the model is
    a code unit below 256 (the 7-bit characters and Latin-1).  On such
    strings [length], [includes], [endsWith], [split], [join], [trim] and
    the character classes of the patterns are the ones of the language.
    The case mappings touch the letters a-z / A-Z only: they are the
    language's on 7-bit text. *)

Definition upper_ascii (a : ascii) : ascii :=
  let n := nat_of_ascii a in
  if ((97 <=? n) && (n <=? 122))%nat then ascii_of_nat (n - 32) else a.

Definition lower_ascii (a : ascii) : ascii :=
  let n := nat_of_ascii a in
  if ((65 <=? n) && (n <=? 90))%nat then ascii_of_nat (n + 32) else a.

Fixpoint toUpperCase (s : string) : string :=
  match s with
  | EmptyString => EmptyString
  | String a r => String (upper_ascii a) (toUpperCase r)
  end.

Fixpoint toLowerCase (s : string) : string :=
  match s with
  | EmptyString => EmptyString
  | String a r => String (lower_ascii a) (toLowerCase r)
  end.

(** [s.endsWith(suffix)] *)
Definition endsWith (s suffix : string) : bool :=
  let n := String.length s in
  let m := String.length suffix in
  (m <=? n)%nat && String.eqb (String.substring (n - m) m s) suffix.

(** [s.includes(t)]: [t] occurs in [s] at some position. *)
Fixpoint includes (s t : string) : bool :=
  String.prefix t s ||
  match s with
  | EmptyString => false
  | String _ r => includes r t
  end.

(** ** [Number.prototype.toFixed(1)]

    ECMA-262, 21.1.3.3 with one fraction digit.  Non-finite values print
    by name.  For a finite value the sign is split off; below 10^21 the
    digits are those of the integer [n] nearest to ten times the value
    (the larger one on a tie), with the point before the last digit.  From
    10^21 on the builtin hands over to [Number::toString]. *)

Definition digits (n : Z) : string :=
  NilZero.string_of_uint (N.to_uint (Z.to_N n)).

Definition nearest_tenths (x : Q) : Z := Qfloor (x * 10 + (1 # 2))%Q.

Definition fixed1_digits (n : Z) : string :=
  digits (n / 10) +:+ "." +:+ digits (n mod 10).

(* ===================================================================== *)
(** * CII trust policy engine (lib/cii-trust-policy.ts) *)
(* ===================================================================== *)

(** ** Trust tiers and types *)

Inductive TrustTierValue : Type :=
  | STANDARD   (* CII 0-34   - normal processing *)
  | ELEVATED   (* CII 35-60  - heightened scrutiny *)
  | CRITICAL.  (* CII >60    - near-rejection; allowlist required *)

Inductive AuditLevel : Type := standard | enhanced | forensic.

Record TrustPolicy : Type := {
  tier : TrustTierValue;
  ciiScore : number;
  country : string;
  requireJWS : bool;
  requireAdminAllowlist : bool;
  deepInjectionScan : bool;
  maxRequestsPerHour : Z;
  errorCode : option Z;
  errorMessage : option string;
  auditLevel : AuditLevel;
}.

Inductive ResolutionSource : Type :=
  | vercel_geo | cf_geo | tld | self_reported | unknown.

Record CountryResolution : Type := {
  countryCode : string;
  source : ResolutionSource;
}.

Record CiiPolicyDecision : Type := {
  allowed : bool;
  policy : TrustPolicy;
  decisionCountryCode : string;
  countrySource : ResolutionSource;
  isInAllowlist : bool;
  enforcedAt : string;
}.

Record PolicyRequest : Type := {
  headers : gmap string string;
  agentCardUrl : option string;
}.

#[global] Instance TrustTierValue_eq_dec : EqDecision TrustTierValue.
Proof. solve_decision. Defined.

#[global] Instance ResolutionSource_eq_dec : EqDecision ResolutionSource.
Proof. solve_decision. Defined.

(** ** CII score database (ACLED-derived, Feb 2026)

    A decimal literal of the source is written as the rational it denotes.
    The double the runtime holds for it differs by less than 2^-46, too
    little to change a comparison with 34 or 60 or the tenth it rounds
    to. *)

Definition COUNTRY_CII_OVERRIDES : gmap string number :=
  list_to_map [
    (* Southeast Asia *)
    ("MM", JNum 72.8); ("PH", JNum 38.2); ("ID", JNum 22.1);
    ("TH", JNum 31.4); ("KH", JNum 44.7); ("LA", JNum 35.9);
    ("VN", JNum 28.6); ("MY", JNum 19.3); ("SG", JNum 8.1);
    ("BN", JNum 12.0); ("TL", JNum 41.2);
    (* South Asia *)
    ("BD", JNum 48.3); ("PK", JNum 61.7); ("AF", JNum 89.4);
    ("IN", JNum 29.1);
    (* East Asia *)
    ("KP", JNum 78.2); ("CN", JNum 24.3); ("TW", JNum 15.6);
    (* Middle East *)
    ("YE", JNum 91.2); ("SY", JNum 88.1); ("IQ", JNum 52.4);
    (* Africa (key cases) *)
    ("SO", JNum 83.6); ("SS", JNum 79.3); ("SD", JNum 71.8);
    (* Stable democracies *)
    ("US", JNum 12.4); ("JP", JNum 5.2); ("KR", JNum 11.8);
    ("AU", JNum 6.1); ("GB", JNum 8.7); ("DE", JNum 7.3);
    ("FR", JNum 9.1); ("NL", JNum 5.8); ("CA", JNum 7.0);
    ("NZ", JNum 4.9)
  ].

(** ** CII score -> trust tier *)

Definition ciiScoreToTier (score : number) : TrustTierValue :=
  if js_gt score (JNum 60) then CRITICAL
  else if js_gt score (JNum 34) then ELEVATED
  else STANDARD.

(** ** TLD -> country mapping, in the order the object literal lists it *)

Definition TLD_TO_COUNTRY : list (string * string) := [
  (".mm", "MM"); (".ph", "PH"); (".id", "ID"); (".th", "TH"); (".kh", "KH");
  (".la", "LA"); (".vn", "VN"); (".my", "MY"); (".sg", "SG"); (".bn", "BN");
  (".tl", "TL"); (".bd", "BD"); (".pk", "PK"); (".af", "AF"); (".in", "IN");
  (".np", "NP"); (".lk", "LK"); (".kp", "KP"); (".cn", "CN"); (".tw", "TW");
  (".jp", "JP"); (".kr", "KR"); (".ru", "RU"); (".ua", "UA"); (".ir", "IR");
  (".iq", "IQ"); (".sy", "SY"); (".ye", "YE"); (".so", "SO"); (".ss", "SS");
  (".sd", "SD"); (".ly", "LY"); (".ml", "ML"); (".cf", "CF"); (".cd", "CD")
].

(** The double-quote character of the CRITICAL message template. *)
Definition dquote : string := String (ascii_of_nat 34) EmptyString.

(** A header value passes the resolver's test
    [v && typeof v === 'string' && v.length === 2]. *)
Definition two_chars (v : option string) : option string :=
  match v with
  | Some s => if (String.length s =? 2)%nat then Some s else None
  | None => None
  end.

(** The extra test [cfCountry !== 'XX'] on the CloudFlare header. *)
Definition not_sentinel (v : option string) : option string :=
  match v with
  | Some s => if String.eqb s "XX" then None else Some s
  | None => None
  end.

(** [if (req.agentCardUrl)]: a missing or empty URL is skipped. *)
Definition truthy_string (v : option string) : option string :=
  match v with
  | Some s => if String.eqb s "" then None else Some s
  | None => None
  end.

Section TrustPolicyEngine.

(** Two builtins of the host are left abstract.
    [Number_toString] is [Number::toString], which [toFixed] falls back
    to for finite values from 10^21 on.  [URL_hostname u] is
    [new URL(u).hostname]; [None] stands for the [TypeError] the
    constructor throws on a malformed URL. *)
Variable Number_toString : Q -> string.
Variable URL_hostname : string -> option string.

Definition toFixed1 (x : number) : string :=
  match x with
  | JNaN => "NaN"
  | JInf false => "Infinity"
  | JInf true => "-Infinity"
  | JNum q =>
      let s := if Qlt_bool q 0 then "-" else "" in
      let a := Qabs q in
      if Qle_bool (10 ^ 21) a then s +:+ Number_toString a
      else s +:+ fixed1_digits (nearest_tenths a)
  end.

(** ** Trust policy builder *)

Definition criticalMessage (country : string) (ciiScore : number) : string :=
  "Agent request rejected: origin country " +:+ dquote +:+ country +:+ dquote
    +:+ " has critical instability "
    +:+ "(CII " +:+ toFixed1 ciiScore
    +:+ "). Requests from this region require explicit "
    +:+ "GATRA administrator approval. Reference: GATRA-POL-CII-CRITICAL".

Definition buildTrustPolicy (country : string) (ciiScore : number) : TrustPolicy :=
  let tier := ciiScoreToTier ciiScore in
  match tier with
  | STANDARD =>
      {| tier := tier; ciiScore := ciiScore; country := country;
         requireJWS := false;
         requireAdminAllowlist := false;
         deepInjectionScan := false;
         maxRequestsPerHour := 100;
         errorCode := None;
         errorMessage := None;
         auditLevel := standard |}
  | ELEVATED =>
      {| tier := tier; ciiScore := ciiScore; country := country;
         requireJWS := true;
         requireAdminAllowlist := false;
         deepInjectionScan := true;
         maxRequestsPerHour := 30;
         errorCode := None;
         errorMessage := None;
         auditLevel := enhanced |}
  | CRITICAL =>
      {| tier := tier; ciiScore := ciiScore; country := country;
         requireJWS := true;
         requireAdminAllowlist := true;
         deepInjectionScan := true;
         maxRequestsPerHour := 10;
         errorCode := Some (-32050);
         errorMessage := Some (criticalMessage country ciiScore);
         auditLevel := forensic |}
  end.

(** ** Country resolution *)

(** The [try]/[catch] around [new URL]: a throw leaves the loop unrun and
    the function returns [null]. *)
Definition extractTldCountry (url : string) : option string :=
  match URL_hostname url with
  | None => None
  | Some host =>
      let hostname := toLowerCase host in
      snd <$> List.find (fun e => endsWith hostname (fst e)) TLD_TO_COUNTRY
  end.

(** Priority: Vercel geo -> CF geo -> TLD -> self-reported -> unknown *)
Definition resolveAgentCountry (req : PolicyRequest) : CountryResolution :=
  let h := headers req in
  (* 1. Vercel edge geo header *)
  match two_chars (h !! "x-vercel-ip-country") with
  | Some vercelCountry =>
      {| countryCode := toUpperCase vercelCountry; source := vercel_geo |}
  | None =>
  (* 2. CloudFlare geo header *)
  match not_sentinel (two_chars (h !! "cf-ipcountry")) with
  | Some cfCountry =>
      {| countryCode := toUpperCase cfCountry; source := cf_geo |}
  | None =>
  (* 3. Agent card provider URL TLD *)
  match truthy_string (truthy_string (agentCardUrl req) ≫= extractTldCountry) with
  | Some code => {| countryCode := code; source := tld |}
  | None =>
  (* 4. Self-reported header *)
  match two_chars (h !! "x-agent-country") with
  | Some selfReported =>
      {| countryCode := toUpperCase selfReported; source := self_reported |}
  | None => {| countryCode := "XX"; source := unknown |}
  end end end end.

(** ** CII score lookup.  The module-level table is mutable
    ([updateCiiScore]), so it is passed as the current state. *)

Definition getCiiScore (scores : gmap string number) (countryCode : string) : number :=
  default (JNum 0.0) (scores !! toUpperCase countryCode).

Definition updateCiiScore (scores : gmap string number)
    (countryCode : string) (score : number) : gmap string number :=
  <[toUpperCase countryCode := score]> scores.

(** ** Main policy evaluation.  [now] is [new Date().toISOString()]. *)

Definition evaluateCiiTrustPolicy (scores : gmap string number) (now : string)
    (req : PolicyRequest) (allowlist : gset string) (agentId : string)
    : CiiPolicyDecision :=
  let r := resolveAgentCountry req in
  let ciiScore := getCiiScore scores (countryCode r) in
  let policy := buildTrustPolicy (countryCode r) ciiScore in
  let isInAllowlist :=
    bool_decide (agentId ∈ allowlist) || bool_decide ("*" ∈ allowlist) in
  let allowed :=
    if bool_decide (tier policy = CRITICAL) && negb isInAllowlist
    then false else true in
  {| allowed := allowed;
     policy := policy;
     decisionCountryCode := countryCode r;
     countrySource := source r;
     isInAllowlist := isInAllowlist;
     enforcedAt := now |}.

(** ** The resolver as the specification words it

    Four candidate signals are read off the request independently and
    the first one present wins; with none present the answer is
    [{XX, unknown}]. *)

Definition spec_primary_geo (req : PolicyRequest) : option CountryResolution :=
  match headers req !! "x-vercel-ip-country" with
  | Some v =>
      if decide (String.length v = 2%nat)
      then Some {| countryCode := toUpperCase v; source := vercel_geo |}
      else None
  | None => None
  end.

Definition spec_secondary_geo (req : PolicyRequest) : option CountryResolution :=
  match headers req !! "cf-ipcountry" with
  | Some v =>
      if decide (String.length v = 2%nat /\ v <> "XX")
      then Some {| countryCode := toUpperCase v; source := cf_geo |}
      else None
  | None => None
  end.

Definition spec_url_tld (req : PolicyRequest) : option CountryResolution :=
  match agentCardUrl req with
  | Some u =>
      if decide (u = "") then None else
      match URL_hostname u with
      | Some host =>
          match List.find (fun e => endsWith (toLowerCase host) (fst e))
                          TLD_TO_COUNTRY with
          | Some e => Some {| countryCode := snd e; source := tld |}
          | None => None
          end
      | None => None
      end
  | None => None
  end.

Definition spec_self_reported (req : PolicyRequest) : option CountryResolution :=
  match headers req !! "x-agent-country" with
  | Some v =>
      if decide (String.length v = 2%nat)
      then Some {| countryCode := toUpperCase v; source := self_reported |}
      else None
  | None => None
  end.

Fixpoint first_match {A : Type} (candidates : list (option A)) (otherwise : A) : A :=
  match candidates with
  | [] => otherwise
  | Some a :: _ => a
  | None :: rest => first_match rest otherwise
  end.

Definition spec_resolveAgentCountry (req : PolicyRequest) : CountryResolution :=
  first_match
    [spec_primary_geo req; spec_secondary_geo req;
     spec_url_tld req; spec_self_reported req]
    {| countryCode := "XX"; source := unknown |}.

End TrustPolicyEngine.

(** ** JSON-RPC rejection response builder *)

Record CiiRejectionData : Type := {
  data_ciiScore : number;
  data_tier : TrustTierValue;
  data_country : string;
  data_countrySource : ResolutionSource;
  data_policy : string;
  data_remediation : string;
  data_referenceDoc : string;
}.

Record CiiRejectionError : Type := {
  error_code : Z;
  error_message : string;
  error_data : CiiRejectionData;
}.

Record CiiRejectionResponse : Type := {
  rejection_jsonrpc : string;
  rejection_id : RpcId;
  rejection_error : CiiRejectionError;
}.

Definition buildCiiRejectionResponse (requestId : RpcId)
    (decision : CiiPolicyDecision) : CiiRejectionResponse :=
  {| rejection_jsonrpc := "2.0";
     rejection_id := requestId;
     rejection_error :=
       {| error_code := default (-32050) (errorCode (policy decision));
          error_message :=
            default "Request rejected by CII trust policy"
                    (errorMessage (policy decision));
          error_data :=
            {| data_ciiScore := ciiScore (policy decision);
               data_tier := tier (policy decision);
               data_country := decisionCountryCode decision;
               data_countrySource := countrySource decision;
               data_policy := "GATRA-POL-CII-CRITICAL";
               data_remediation :=
                 "Contact GATRA administrator to request allowlist approval";
               data_referenceDoc :=
                 "https://worldmonitor-gatra.vercel.app/.well-known/agent.json" |} |} |}.

(** ** The runtime edge copy (api/_cii-trust-policy.js)

    Plain JavaScript kept next to the canonical source.  Its resolver takes
    the agent-card URL as a second argument and reads a header with
    [req.headers.get?.(name) || req.headers?.[name]]; the rest of the
    function is the text of the canonical one, except for the source label
    of the CloudFlare branch. *)

Module EdgeCopy.
Section Resolver.

Variable URL_hostname : string -> option string.

Definition header (hs : gmap string string) (name : string) : option string :=
  match truthy_string (hs !! name) with
  | Some v => Some v
  | None => hs !! name
  end.

Definition resolveAgentCountry (req_headers : gmap string string)
    (agentCardUrl : option string) : CountryResolution :=
  (* 1. Vercel edge geo header *)
  match two_chars (header req_headers "x-vercel-ip-country") with
  | Some vercelCountry =>
      {| countryCode := toUpperCase vercelCountry; source := vercel_geo |}
  | None =>
  (* 2. CloudFlare geo header *)
  match not_sentinel (two_chars (header req_headers "cf-ipcountry")) with
  | Some cfCountry =>
      {| countryCode := toUpperCase cfCountry; source := vercel_geo |}
  | None =>
  (* 3. Agent card provider URL TLD *)
  match truthy_string
          (truthy_string agentCardUrl ≫= extractTldCountry URL_hostname) with
  | Some code => {| countryCode := code; source := tld |}
  | None =>
  (* 4. Self-reported header *)
  match two_chars (header req_headers "x-agent-country") with
  | Some selfReported =>
      {| countryCode := toUpperCase selfReported; source := self_reported |}
  | None => {| countryCode := "XX"; source := unknown |}
  end end end end.

End Resolver.
End EdgeCopy.

(* ===================================================================== *)
(** * A2A JSON-RPC handler (api/a2a.js) *)
(* ===================================================================== *)

(** ** Regular expressions

    The router only asks whether a pattern occurs somewhere in a text
    ([RegExp.prototype.test] without the sticky or global flag), so a
    pattern is interpreted as the set of positions it can reach from a
    starting position; greediness does not matter for that question.  A
    position is the character just consumed (needed by [\b]) and the rest
    of the text.  The constructors are the ones the patterns of the file
    use: literals, classes, [\b], sequence, alternation, bounded
    repetition [r{lo,hi}], and [c*] for a class [c]. *)

Inductive regex : Type :=
  | Eps
  | Chr (c : ascii)
  | Cls (p : ascii -> bool)
  | WordBoundary
  | Seq (r1 r2 : regex)
  | Alt (r1 r2 : regex)
  | Rep (r : regex) (lo hi : nat)
  | StarCls (p : ascii -> bool).

Definition pos : Type := option ascii * string.

Definition in_range (lo hi : nat) (a : ascii) : bool :=
  let n := nat_of_ascii a in ((lo <=? n) && (n <=? hi))%nat.

(** [\d] *)
Definition is_digit (a : ascii) : bool := in_range 48 57 a.

(** [\w]: letters, digits and the underscore. *)
Definition is_word (a : ascii) : bool :=
  in_range 97 122 a || in_range 65 90 a || in_range 48 57 a
  || Ascii.eqb a "_".

(** [.] without the [s] flag: anything but a line terminator. *)
Definition is_dot (a : ascii) : bool :=
  negb (Ascii.eqb a "010" || Ascii.eqb a "013").

(** [[a-f0-9]] *)
Definition is_hex_lower (a : ascii) : bool := in_range 97 102 a || in_range 48 57 a.

Definition is_word_at (o : option ascii) : bool :=
  match o with Some a => is_word a | None => false end.

Definition next_char (s : string) : option ascii :=
  match s with String a _ => Some a | EmptyString => None end.

(** With the [i] flag characters are compared up to letter case. *)
Definition chr_eq (ci : bool) (a c : ascii) : bool :=
  if ci then Ascii.eqb (lower_ascii a) (lower_ascii c) else Ascii.eqb a c.

Definition cls_has (ci : bool) (p : ascii -> bool) (a : ascii) : bool :=
  if ci then p a || p (lower_ascii a) || p (upper_ascii a) else p a.

Fixpoint iter_exact (f : pos -> list pos) (n : nat) (xs : list pos) : list pos :=
  match n with
  | O => xs
  | S k => iter_exact f k (flat_map f xs)
  end.

Fixpoint iter_upto (f : pos -> list pos) (n : nat) (xs : list pos) : list pos :=
  match n with
  | O => xs
  | S k => xs ++ iter_upto f k (flat_map f xs)
  end.

Fixpoint star_cls (ci : bool) (p : ascii -> bool) (prev : option ascii) (s : string)
    : list pos :=
  (prev, s) ::
  match s with
  | String a r => if cls_has ci p a then star_cls ci p (Some a) r else []
  | EmptyString => []
  end.

(** The positions reachable from [x] by matching [r]. *)
Fixpoint step (ci : bool) (r : regex) (x : pos) : list pos :=
  match r with
  | Eps => [x]
  | Chr c =>
      match snd x with
      | String a s => if chr_eq ci a c then [(Some a, s)] else []
      | EmptyString => []
      end
  | Cls p =>
      match snd x with
      | String a s => if cls_has ci p a then [(Some a, s)] else []
      | EmptyString => []
      end
  | WordBoundary =>
      if xorb (is_word_at (fst x)) (is_word_at (next_char (snd x)))
      then [x] else []
  | Seq r1 r2 => flat_map (step ci r2) (step ci r1 x)
  | Alt r1 r2 => step ci r1 x ++ step ci r2 x
  | Rep r lo hi => iter_upto (step ci r) (hi - lo) (iter_exact (step ci r) lo [x])
  | StarCls p => star_cls ci p (fst x) (snd x)
  end.

Definition matches_at (ci : bool) (r : regex) (x : pos) : bool :=
  match step ci r x with [] => false | _ :: _ => true end.

Fixpoint test_from (ci : bool) (r : regex) (prev : option ascii) (s : string) : bool :=
  matches_at ci r (prev, s) ||
  match s with
  | String a s' => test_from ci r (Some a) s'
  | EmptyString => false
  end.

(** [/r/.test(s)] and [/r/i.test(s)] *)
Definition test (ci : bool) (r : regex) (s : string) : bool := test_from ci r None s.

Fixpoint lit (s : string) : regex :=
  match s with
  | EmptyString => Eps
  | String a EmptyString => Chr a
  | String a r => Seq (Chr a) (lit r)
  end.

Fixpoint seqs (rs : list regex) : regex :=
  match rs with
  | [] => Eps
  | [r] => r
  | r :: rest => Seq r (seqs rest)
  end.

Fixpoint alts (rs : list regex) : regex :=
  match rs with
  | [] => Cls (fun _ => false)
  | [r] => r
  | r :: rest => Alt r (alts rest)
  end.

Definition dot_opt : regex := Rep (Cls is_dot) 0 1.   (* .? *)
Definition dot_star : regex := StarCls is_dot.        (* .* *)

(** ** The patterns of [routeToAgent] *)

(** [/\b\d{1,3}\.\d{1,3}\.\d{1,3}\.\d{1,3}\b/] *)
Definition re_ipv4 : regex :=
  seqs [WordBoundary;
        Rep (Cls is_digit) 1 3; Chr "."; Rep (Cls is_digit) 1 3; Chr ".";
        Rep (Cls is_digit) 1 3; Chr "."; Rep (Cls is_digit) 1 3;
        WordBoundary].

(** [/\b[a-f0-9]{32,64}\b/i] *)
Definition re_hash : regex :=
  seqs [WordBoundary; Rep (Cls is_hex_lower) 32 64; WordBoundary].

(** [/ioc|indicator|lookup|hash|malware|virustotal|threatfox|abuseipdb/i] *)
Definition re_ioc_words : regex :=
  alts [lit "ioc"; lit "indicator"; lit "lookup"; lit "hash"; lit "malware";
        lit "virustotal"; lit "threatfox"; lit "abuseipdb"].

(** [/triage|alert|incident.*analy|prioriti|mitre|att&ck|kill.?chain|threat.*intel/i] *)
Definition re_triage : regex :=
  alts [lit "triage"; lit "alert";
        seqs [lit "incident"; dot_star; lit "analy"];
        lit "prioriti"; lit "mitre"; lit "att&ck";
        seqs [lit "kill"; dot_opt; lit "chain"];
        seqs [lit "threat"; dot_star; lit "intel"]].

(** [/contain|isolat|block|quarantin|respond|playbook|soar|remediat|eradicat/i] *)
Definition re_containment : regex :=
  alts [lit "contain"; lit "isolat"; lit "block"; lit "quarantin";
        lit "respond"; lit "playbook"; lit "soar"; lit "remediat";
        lit "eradicat"].

(** [/report|dashboard|summary|metric|cii|compliance|executive|trend/i] *)
Definition re_reporting : regex :=
  alts [lit "report"; lit "dashboard"; lit "summary"; lit "metric";
        lit "cii"; lit "compliance"; lit "executive"; lit "trend"].

(** [/learn|assess|maturity|zero.?trust|post.?incident|knowledge|model.*updat|feedback/i] *)
Definition re_learning : regex :=
  alts [lit "learn"; lit "assess"; lit "maturity";
        seqs [lit "zero"; dot_opt; lit "trust"];
        seqs [lit "post"; dot_opt; lit "incident"];
        lit "knowledge";
        seqs [lit "model"; dot_star; lit "updat"];
        lit "feedback"].

(** ** Skill map

    [SKILL_MAP] is an object literal, so [SKILL_MAP[key]] also finds the
    members it inherits from [Object.prototype]; these are functions (or,
    for [__proto__], the prototype object) and so are truthy. *)

Inductive SkillEntry : Type :=
  | Agent (agentId name : string)
  | Inherited (member : string).

Definition SKILL_MAP_own : list (string * SkillEntry) := [
  ("anomaly-detection", Agent "ADA" "Anomaly Detection Agent");
  ("triage-analysis", Agent "TAA" "Triage & Analysis Agent");
  ("containment-response", Agent "CRA" "Containment & Response Agent");
  ("continuous-learning", Agent "CLA" "Continuous Learning Agent");
  ("reporting-visualization", Agent "RVA" "Reporting & Visualization Agent");
  ("ioc-lookup", Agent "IOC" "IOC Scanner")
].

Definition Object_prototype_members : list string := [
  "constructor"; "hasOwnProperty"; "isPrototypeOf"; "propertyIsEnumerable";
  "toLocaleString"; "toString"; "valueOf"; "__proto__";
  "__defineGetter__"; "__defineSetter__"; "__lookupGetter__"; "__lookupSetter__"
].

Definition assoc {A : Type} (k : string) (l : list (string * A)) : option A :=
  snd <$> List.find (fun e => String.eqb (fst e) k) l.

(** [SKILL_MAP[key]] *)
Definition SKILL_MAP (key : string) : option SkillEntry :=
  match assoc key SKILL_MAP_own with
  | Some e => Some e
  | None =>
      if existsb (String.eqb key) Object_prototype_members
      then Some (Inherited key) else None
  end.

Record Metadata : Type := { skillId : option string }.

Record Route : Type := { route_skillId : string; route_agent : SkillEntry }.

(** An own entry of the map, as the literal lookups [SKILL_MAP['ioc-lookup']]
    of the router read it. *)
Definition skill (key : string) : SkillEntry :=
  default (Inherited key) (assoc key SKILL_MAP_own).

(** [metadata?.skillId && SKILL_MAP[metadata.skillId]] *)
Definition explicit_skill (metadata : option Metadata) : option Route :=
  match truthy_string (metadata ≫= skillId) with
  | Some sid =>
      match SKILL_MAP sid with
      | Some e => Some {| route_skillId := sid; route_agent := e |}
      | None => None
      end
  | None => None
  end.

Definition routeToAgent (text : string) (metadata : option Metadata) : Route :=
  (* Check explicit skill in metadata *)
  match explicit_skill metadata with
  | Some r => r
  | None =>
  let lower := toLowerCase text in
  (* IOC patterns - IP, hash, domain lookups *)
  if test false re_ipv4 text || test true re_hash text || test true re_ioc_words lower
  then {| route_skillId := "ioc-lookup"; route_agent := skill "ioc-lookup" |}
  (* Triage / analysis patterns *)
  else if test true re_triage lower
  then {| route_skillId := "triage-analysis"; route_agent := skill "triage-analysis" |}
  (* Containment / response patterns *)
  else if test true re_containment lower
  then {| route_skillId := "containment-response";
          route_agent := skill "containment-response" |}
  (* Reporting / visualization patterns *)
  else if test true re_reporting lower
  then {| route_skillId := "reporting-visualization";
          route_agent := skill "reporting-visualization" |}
  (* Learning / assessment patterns *)
  else if test true re_learning lower
  then {| route_skillId := "continuous-learning";
          route_agent := skill "continuous-learning" |}
  (* Default: anomaly detection *)
  else {| route_skillId := "anomaly-detection"; route_agent := skill "anomaly-detection" |}
  end.

(** ** JSON-RPC error codes *)

Definition ERR_PARSE : Z := -32700.
Definition ERR_INVALID_REQ : Z := -32600.
Definition ERR_METHOD_NOT_FOUND : Z := -32601.
Definition ERR_INVALID_PARAMS : Z := -32602.
Definition ERR_INTERNAL : Z := -32603.
Definition ERR_TASK_NOT_FOUND : Z := -32001.
Definition ERR_TASK_NOT_CANCELABLE : Z := -32002.
Definition ERR_UNSUPPORTED_OP : Z := -32004.

(** ** Wire data

    The fields of the request carry the JSON types the A2A protocol gives
    them; [None] stands for a missing (or [null]) member.  The elements of
    [message.parts] are the exception: the handler reads [kind] and [text]
    off whatever the array holds, so they are modelled as far as these
    reads can tell them apart. *)

(** The [text] member of a part: a string, [null], or another value.  Of
    another value the handler only uses its conversion to a string, which
    [join] performs; [printed] is the result, [None] when the conversion
    throws (an object whose [toString] and [valueOf] are not callable). *)
Inductive TextValue : Type :=
  | TextString (s : string)
  | TextNull
  | TextOther (printed : option string).

(** An element of [message.parts] other than [null].  [part_kind] is the
    [kind] member when it is a string.  An element that is not an object
    (a number, a string, a boolean) or is an array has neither member. *)
Record Part : Type := {
  part_kind : option string;
  part_text : option TextValue;       (* [None]: [undefined] *)
}.

Record Message : Type := {
  (* [None]: missing or not an array; an element [None] is [null] *)
  msg_parts : option (list (option Part));
  msg_role : option string;
  msg_taskId : option string;
  msg_contextId : option string;
  msg_messageId : option string;
}.

Record Configuration : Type := { cfg_historyLength : option number }.

(** The [params] member; every method reads the members it needs. *)
Record Params : Type := {
  params_message : option Message;
  params_configuration : option Configuration;
  params_metadata : option Metadata;
  params_id : option string;
  params_historyLength : option number;
}.

Record Body : Type := {
  jsonrpc : option string;
  method : option string;
  params : option Params;
  body_id : option RpcId;             (* [None]: [undefined] *)
}.

(** ** Task objects *)

Record MessageObj : Type := {
  messageId : string;
  role : string;
  parts : list (option Part);
  message_kind : string;
}.

Record Artifact : Type := {
  artifactId : string;
  artifact_name : string;
  artifact_parts : list Part;
}.

Record Status : Type := {
  state : string;
  timestamp : string;
  status_message : MessageObj;
}.

Record TaskMetadata : Type := {
  gatraAgent : string;
  gatraSkill : string;
  processedAt : string;
}.

(** A property of an object: deleted (or never set), holding [undefined],
    or holding a value. *)
Inductive property (A : Type) : Type :=
  | Absent
  | Undefined
  | Present (a : A).
Arguments Absent {A}.
Arguments Undefined {A}.
Arguments Present {A} a.

Record Task : Type := {
  task_id : string;
  contextId : string;
  task_kind : string;
  status : Status;
  artifacts : list Artifact;
  history : property (list MessageObj);
  task_metadata : TaskMetadata;
}.

Inductive Response : Type :=
  | jsonRpcSuccess (id : RpcId) (result : Task)
  | jsonRpcError (id : RpcId) (code : Z) (message : string)
  | HttpStatus (status : Z)
  | Thrown (error : string).

(** ** The task store

    [tasks] is a [Map] from task id to task object.  A [Map] iterates in
    insertion order and [set] on a present key keeps the key's place, so it
    is an association list with distinct keys.  Task objects live in a heap
    and the map holds references to them: [tasks.get] hands out the stored
    object itself, and a write through that reference is a write to the
    stored task.  (The [status] record is kept inline in the task object;
    the only write to it, in [handleTasksCancel], goes through the stored
    task.) *)

Abbreviation loc := nat (only parsing).

Definition TaskMap : Type := list (string * loc).

Definition map_get (k : string) (m : TaskMap) : option loc := assoc k m.

Fixpoint map_set (k : string) (v : loc) (m : TaskMap) : TaskMap :=
  match m with
  | [] => [(k, v)]
  | e :: rest =>
      if String.eqb (fst e) k then (k, v) :: rest else e :: map_set k v rest
  end.

Definition map_delete (k : string) (m : TaskMap) : TaskMap :=
  List.filter (fun e => negb (String.eqb (fst e) k)) m.

(** [m.keys().next().value] *)
Definition map_first_key (m : TaskMap) : option string := fst <$> head m.

Definition map_size (m : TaskMap) : nat := length m.

(** The pruning step of [handleMessageSend]:
    [if (tasks.size > 50) tasks.delete(tasks.keys().next().value)]. *)
Definition prune (m : TaskMap) : TaskMap :=
  if (50 <? map_size m)%nat then
    match map_first_key m with
    | Some oldest => map_delete oldest m
    | None => m
    end
  else m.

Record Store : Type := {
  tasks : TaskMap;
  heap : list Task;
}.

Definition empty_store : Store := {| tasks := []; heap := [] |}.

(** [new T] / an object literal: the object is placed at a fresh location. *)
Definition alloc (h : list Task) (t : Task) : list Task * loc := (h ++ [t], length h).

(** The stored task object under an id. *)
Definition stored (st : Store) (taskId : string) : option Task :=
  map_get taskId (tasks st) ≫= fun l => heap st !! l.

(** ** What a request draws from its environment: the clock and the
    results of the [uid()] calls, one per call site. *)

Record Oracle : Type := {
  now : string;
  uid_contextId : string;
  uid_taskId : string;
  uid_statusMessageId : string;
  uid_artifactId : string;
  uid_historyUserId : string;
  uid_historyAgentId : string;
}.

(** ** Text helpers of [handleMessageSend] *)

(** The white space and line terminators [trim] strips, among the code
    units below 256: tab, line feed, vertical tab, form feed, carriage
    return, space and the no-break space U+00A0.  (The others, U+1680,
    U+2000 to U+200A, U+2028, U+2029, U+202F, U+205F, U+3000 and U+FEFF,
    lie above 255.) *)
Definition is_space (a : ascii) : bool :=
  in_range 9 13 a || Ascii.eqb a " " || (nat_of_ascii a =? 160)%nat.

Fixpoint trim_start (s : string) : string :=
  match s with
  | String a r => if is_space a then trim_start r else s
  | EmptyString => EmptyString
  end.

Fixpoint trim_end (s : string) : string :=
  match s with
  | String a r =>
      match trim_end r with
      | EmptyString => if is_space a then EmptyString else String a EmptyString
      | r' => String a r'
      end
  | EmptyString => EmptyString
  end.

Definition trim (s : string) : string := trim_end (trim_start s).

(** [xs.join(sep)]; an [undefined] element prints as the empty string. *)
Fixpoint join (sep : string) (xs : list (option string)) : string :=
  match xs with
  | [] => ""
  | [x] => default "" x
  | x :: rest => default "" x +:+ sep +:+ join sep rest
  end.

(** [p.kind === 'text' || typeof p.text === 'string'] *)
Definition is_text_part (p : Part) : bool :=
  match part_kind p with Some k => String.eqb k "text" | None => false end
  || match part_text p with Some (TextString _) => true | _ => false end.

(** [parts.filter(p => ...)]: the callback reads [p.kind], which throws a
    TypeError on a [null] element; [None] is that throw. *)
Fixpoint filter_text_parts (message_parts : list (option Part))
    : option (list Part) :=
  match message_parts with
  | [] => Some []
  | None :: _ => None
  | Some p :: rest =>
      match filter_text_parts rest with
      | None => None
      | Some ps => Some (if is_text_part p then p :: ps else ps)
      end
  end.

(** The conversion [join] applies to an element: [undefined] and [null]
    print as the empty string; [None] is a throw. *)
Definition print_text (v : option TextValue) : option (option string) :=
  match v with
  | None | Some TextNull => Some None
  | Some (TextString s) => Some (Some s)
  | Some (TextOther (Some s)) => Some (Some s)
  | Some (TextOther None) => None
  end.

Fixpoint print_texts (vs : list (option TextValue)) : option (list (option string)) :=
  match vs with
  | [] => Some []
  | v :: rest =>
      match print_text v, print_texts rest with
      | Some x, Some xs => Some (x :: xs)
      | _, _ => None
      end
  end.

(** [parts.filter(...).map(p => p.text).join(' ').trim()]; [None] when
    the filter or the join throws. *)
Definition message_text (message_parts : list (option Part)) : option string :=
  match filter_text_parts message_parts with
  | None => None
  | Some text_parts =>
      match print_texts (map part_text text_parts) with
      | None => None
      | Some textParts => Some (trim (join " " textParts))
      end
  end.

Definition terminalStates : list string :=
  ["completed"; "failed"; "canceled"; "rejected"].

Definition agentId_of (e : SkillEntry) : option string :=
  match e with Agent a _ => Some a | Inherited _ => None end.

(** [delete t.history] on a task object *)
Definition delete_history (t : Task) : Task :=
  {| task_id := task_id t; contextId := contextId t; task_kind := task_kind t;
     status := status t; artifacts := artifacts t; history := Absent;
     task_metadata := task_metadata t |}.

(** [t.status.state = 'canceled'; t.status.timestamp = time] on a task
    object *)
Definition write_canceled (time : string) (t : Task) : Task :=
  {| task_id := task_id t; contextId := contextId t; task_kind := task_kind t;
     status := {| state := "canceled"; timestamp := time;
                  status_message := status_message (status t) |};
     artifacts := artifacts t; history := history t;
     task_metadata := task_metadata t |}.

(** The terminal states as the specification lists them. *)
Definition is_terminal (s : string) : Prop :=
  s = "completed" \/ s = "canceled" \/ s = "failed" \/ s = "rejected".

(** [params.historyLength === 0], in the specification's words: the
    request asks for the history to be suppressed. *)
Definition suppresses_history (p : Params) : Prop :=
  exists q, params_historyLength p = Some (JNum q) /\ (q == 0)%Q.

(** The two facts every request preserves: the capacity bound and the
    distinctness of the keys of the map. *)
Definition store_ok (st : Store) : Prop :=
  (map_size (tasks st) <= 50)%nat /\ NoDup (map fst (tasks st)).

(** Every key of the map refers to a task object in a terminal state. *)
Definition all_terminal (st : Store) : Prop :=
  forall k l, map_get k (tasks st) = Some l ->
    exists t, heap st !! l = Some t /\ is_terminal (state (status t)).

Section Handler.

(** [generateAgentResponse(agentId, userText, skillId)] only builds the
    reply text; it is left abstract.  Its first argument is [None] when
    [agent.agentId] is [undefined]. *)
Variable generateAgentResponse : option string -> string -> string -> string.

(** ** message/send *)

Definition handleMessageSend (st : Store) (o : Oracle) (id : RpcId)
    (params : option Params) : Store * Response :=
  match params ≫= params_message with
  | None =>
      (st, jsonRpcError id ERR_INVALID_PARAMS
             "Missing required field: params.message")
  | Some message =>
  (* Validate message structure *)
  match msg_parts message with
  | None | Some [] =>
      (st, jsonRpcError id ERR_INVALID_PARAMS
             "Message must contain at least one part")
  | Some message_parts =>
  if match truthy_string (msg_role message) with
     | Some r => negb (String.eqb r "user")
     | None => false
     end
  then
    (st, jsonRpcError id ERR_INVALID_PARAMS
           ("Message role must be " +:+ dquote +:+ "user" +:+ dquote))
  else
  (* Extract text content from parts *)
  match message_text message_parts with
  | None => (st, Thrown "TypeError")
  | Some userText =>
  if String.eqb userText "" then
    (st, jsonRpcError id ERR_INVALID_PARAMS
           "No text content found in message parts")
  else
  (* Determine which skill/agent to route to *)
  let route := routeToAgent userText (params ≫= params_metadata) in
  let skillId := route_skillId route in
  let agent := route_agent route in
  (* Check if this is a follow-up on an existing task *)
  let existingTaskId := truthy_string (msg_taskId message) in
  let contextId := default (uid_contextId o) (truthy_string (msg_contextId message)) in
  (* Generate task *)
  let taskId := default (uid_taskId o) existingTaskId in
  (* Generate agent response *)
  let responseText := generateAgentResponse (agentId_of agent) userText skillId in
  (* Build task result; [agent.agentId.toLowerCase()] throws on [undefined] *)
  match agentId_of agent with
  | None => (st, Thrown "TypeError")
  | Some agentId =>
  let task := {|
    task_id := taskId;
    contextId := contextId;
    task_kind := "task";
    status := {|
      state := "completed";
      timestamp := now o;
      status_message := {|
        messageId := uid_statusMessageId o;
        role := "agent";
        parts := [Some {| part_kind := Some "text";
                          part_text := Some (TextString responseText) |}];
        message_kind := "message" |} |};
    artifacts := [
      {| artifactId := uid_artifactId o;
         artifact_name := toLowerCase agentId +:+ "-analysis";
         artifact_parts :=
           [{| part_kind := Some "text";
               part_text := Some (TextString responseText) |}] |} ];
    history :=
      if js_gt (default JNaN ((params ≫= params_configuration) ≫= cfg_historyLength))
               (JNum 0)
      then Present [
        {| messageId :=
             default (uid_historyUserId o) (truthy_string (msg_messageId message));
           role := "user";
           parts := message_parts;
           message_kind := "message" |};
        {| messageId := uid_historyAgentId o;
           role := "agent";
           parts := [Some {| part_kind := Some "text";
                          part_text := Some (TextString responseText) |}];
           message_kind := "message" |} ]
      else Undefined;
    task_metadata := {|
      gatraAgent := agentId;
      gatraSkill := skillId;
      processedAt := now o |} |} in
  (* Store task *)
  let '(heap1, l) := alloc (heap st) task in
  let tasks1 := map_set taskId l (tasks st) in
  (* Prune old tasks (keep last 50) *)
  let tasks2 := prune tasks1 in
  ({| tasks := tasks2; heap := heap1 |}, jsonRpcSuccess id task)
  end end end end.

(** ** tasks/get *)

Definition handleTasksGet (st : Store) (id : RpcId) (params : option Params)
    : Store * Response :=
  match truthy_string (params ≫= params_id) with
  | None =>
      (st, jsonRpcError id ERR_INVALID_PARAMS "Missing required field: params.id")
  | Some taskId =>
  match map_get taskId (tasks st) with
  | None =>
      (st, jsonRpcError id ERR_TASK_NOT_FOUND
             ("Task " +:+ dquote +:+ taskId +:+ dquote +:+ " not found"))
  | Some l =>
  match heap st !! l with
  | None => (st, Thrown "TypeError")
  | Some task =>
      (* Optionally trim history: [const result = { ...task }] *)
      let '(heap1, result) := alloc (heap st) task in
      let heap2 :=
        match params ≫= params_historyLength with
        | Some (JNum q) =>
            if Qeq_bool q 0
            then alter delete_history result heap1
            else heap1
        | _ => heap1
        end in
      match heap2 !! result with
      | Some r => ({| tasks := tasks st; heap := heap2 |}, jsonRpcSuccess id r)
      | None => ({| tasks := tasks st; heap := heap2 |}, Thrown "TypeError")
      end
  end end end.

(** ** tasks/cancel *)

Definition handleTasksCancel (st : Store) (o : Oracle) (id : RpcId)
    (params : option Params) : Store * Response :=
  match truthy_string (params ≫= params_id) with
  | None =>
      (st, jsonRpcError id ERR_INVALID_PARAMS "Missing required field: params.id")
  | Some taskId =>
  match map_get taskId (tasks st) with
  | None =>
      (st, jsonRpcError id ERR_TASK_NOT_FOUND
             ("Task " +:+ dquote +:+ taskId +:+ dquote +:+ " not found"))
  | Some l =>
  match heap st !! l with
  | None => (st, Thrown "TypeError")
  | Some task =>
      if existsb (String.eqb (state (status task))) terminalStates then
        (st, jsonRpcError id ERR_TASK_NOT_CANCELABLE
               ("Task " +:+ dquote +:+ taskId +:+ dquote
                  +:+ " is in terminal state " +:+ dquote
                  +:+ state (status task) +:+ dquote
                  +:+ " and cannot be canceled"))
      else
        (* the write goes to the stored object; the response is built
           from that object afterwards *)
        let heap1 := alter (write_canceled (now o)) l (heap st) in
        match heap1 !! l with
        | Some task' =>
            ({| tasks := tasks st; heap := heap1 |}, jsonRpcSuccess id task')
        | None => ({| tasks := tasks st; heap := heap1 |}, Thrown "TypeError")
        end
  end end end.

(** ** Main handler, after the body has been read.  [body = None] is a
    body that is not JSON. *)

Definition handler (st : Store) (o : Oracle) (http_method : string)
    (body : option Body) : Store * Response :=
  (* CORS preflight *)
  if String.eqb http_method "OPTIONS" then (st, HttpStatus 204)
  (* Only POST allowed for JSON-RPC *)
  else if negb (String.eqb http_method "POST") then (st, HttpStatus 405)
  else
  match body with
  | None => (st, jsonRpcError IdNull ERR_PARSE "Parse error: invalid JSON")
  | Some b =>
  (* Validate JSON-RPC 2.0 envelope *)
  let invalid :=
    (st, jsonRpcError (default IdNull (body_id b)) ERR_INVALID_REQ
           "Invalid JSON-RPC 2.0 request") in
  match jsonrpc b, truthy_string (method b), body_id b with
  | Some version, Some m, Some id =>
      if negb (String.eqb version "2.0") then invalid
      (* Route to method handler *)
      else if String.eqb m "message/send" then handleMessageSend st o id (params b)
      else if String.eqb m "tasks/get" then handleTasksGet st id (params b)
      else if String.eqb m "tasks/cancel" then handleTasksCancel st o id (params b)
      else if String.eqb m "message/stream" then
        (st, jsonRpcError id ERR_UNSUPPORTED_OP
               "Streaming is not supported. Use message/send with blocking mode.")
      else if String.eqb m "tasks/resubscribe" then
        (st, jsonRpcError id ERR_UNSUPPORTED_OP
               "Streaming resubscription is not supported.")
      else if existsb (String.eqb m)
                ["tasks/pushNotificationConfig/set";
                 "tasks/pushNotificationConfig/get";
                 "tasks/pushNotificationConfig/list";
                 "tasks/pushNotificationConfig/delete"] then
        (st, jsonRpcError id ERR_UNSUPPORTED_OP
               "Push notifications are not supported by this agent.")
      else
        (st, jsonRpcError id ERR_METHOD_NOT_FOUND
               ("Method " +:+ dquote +:+ m +:+ dquote +:+ " not found"))
  | _, _, _ => invalid
  end
  end.

(** The stores the running instance can be in: the empty one at start,
    and whatever a request leaves behind. *)
Inductive reachable : Store -> Prop :=
  | reachable_start : reachable empty_store
  | reachable_request (st : Store) (o : Oracle) (http_method : string)
      (body : option Body) :
      reachable st -> reachable (fst (handler st o http_method body)).

End Handler.

(** ** The specification's words on routing *)

(** A recognized skill id, in the specification's words: the id of one of
    the skills the agent offers. *)
Definition recognized_skill (sid : string) : Prop :=
  In sid (map fst SKILL_MAP_own).

(** An IPv4-shaped token: four groups of one to three digits separated by
    dots, standing on its own, that is, neither preceded nor followed by a
    letter, digit or underscore. *)

Fixpoint all_digits (s : string) : bool :=
  match s with
  | EmptyString => true
  | String a r => is_digit a && all_digits r
  end.

Definition digit_group (s : string) : Prop :=
  (1 <= String.length s <= 3)%nat /\ all_digits s = true.

Fixpoint last_char (prev : option ascii) (s : string) : option ascii :=
  match s with
  | EmptyString => prev
  | String a r => last_char (Some a) r
  end.

Definition contains_ipv4_token (text : string) : Prop :=
  exists pre a b c d post,
    text = pre +:+ a +:+ "." +:+ b +:+ "." +:+ c +:+ "." +:+ d +:+ post /\
    digit_group a /\ digit_group b /\ digit_group c /\ digit_group d /\
    is_word_at (last_char None pre) = false /\
    is_word_at (next_char post) = false.

(* ===================================================================== *)
(** * Sample data *)
(* ===================================================================== *)

Module Sample.

Definition Number_toString (q : Q) : string := "1e+21".

Definition URL_hostname (u : string) : option string :=
  if String.eqb u "https://crowdstrike.com.mm/agent"
  then Some "crowdstrike.com.mm" else None.

Definition generateAgentResponse (agentId : option string)
    (userText skillId : string) : string :=
  "[" +:+ default "undefined" agentId +:+ "] Analysis complete".

(** A request from Myanmar that claims to come from Singapore. *)
Definition request_mm : PolicyRequest :=
  {| headers := {[ "x-vercel-ip-country" := "MM"; "x-agent-country" := "SG" ]};
     agentCardUrl := Some "not a url" |}.

Definition request_unknown : PolicyRequest :=
  {| headers := ∅; agentCardUrl := None |}.

Definition oracle : Oracle :=
  {| now := "2026-02-27T00:00:00.000Z";
     uid_contextId := "ctx-1";
     uid_taskId := "task-new";
     uid_statusMessageId := "msg-1";
     uid_artifactId := "art-1";
     uid_historyUserId := "msg-2";
     uid_historyAgentId := "msg-3" |}.

Definition task (taskId state : string) : Task :=
  {| task_id := taskId;
     contextId := "ctx-0";
     task_kind := "task";
     status := {| state := state;
                  timestamp := "2026-02-26T00:00:00.000Z";
                  status_message :=
                    {| messageId := "m"; role := "agent"; parts := [];
                       message_kind := "message" |} |};
     artifacts := [];
     history := Present [];
     task_metadata :=
       {| gatraAgent := "ADA"; gatraSkill := "anomaly-detection";
          processedAt := "2026-02-26T00:00:00.000Z" |} |}.

(** A store with one task in progress and one completed. *)
Definition store2 : Store :=
  {| tasks := [("a", 0%nat); ("b", 1%nat)];
     heap := [task "a" "working"; task "b" "completed"] |}.

Definition key (i : nat) : string := "t" +:+ digits (Z.of_nat i).

(** A full store: fifty completed tasks t0 ... t49, inserted in that
    order. *)
Definition store50 : Store :=
  {| tasks := map (fun i => (key i, i)) (seq 0 50);
     heap := map (fun i => task (key i) "completed") (seq 0 50) |}.

Definition params_for (taskId : string) (historyLength : option number) : Params :=
  {| params_message := None; params_configuration := None;
     params_metadata := None; params_id := Some taskId;
     params_historyLength := historyLength |}.

Definition send_params (text : string) : Params :=
  {| params_message :=
       Some {| msg_parts := Some [Some {| part_kind := Some "text";
                                           part_text := Some (TextString text) |}];
               msg_role := Some "user"; msg_taskId := None;
               msg_contextId := None; msg_messageId := None |};
     params_configuration := None; params_metadata := None;
     params_id := None; params_historyLength := None |}.

(** A [message/send] for [text] that names the skill [sid]. *)
Definition send_skill (text sid : string) : Params :=
  {| params_message :=
       Some {| msg_parts := Some [Some {| part_kind := Some "text";
                                           part_text := Some (TextString text) |}];
               msg_role := Some "user"; msg_taskId := None;
               msg_contextId := None; msg_messageId := None |};
     params_configuration := None;
     params_metadata := Some {| skillId := Some sid |};
     params_id := None; params_historyLength := None |}.

End Sample.

(* ===================================================================== *)
(** * Further parts of the two files *)
(* ===================================================================== *)

(** ** Rate limit tiers (lib/cii-trust-policy.ts) *)

Record RateLimits : Type := { maxPerMinute : Z; maxBurst : Z }.

Definition getTierRateLimits (tier : TrustTierValue) : RateLimits :=
  match tier with
  | CRITICAL => {| maxPerMinute := 1; maxBurst := 2 |}
  | ELEVATED => {| maxPerMinute := 3; maxBurst := 5 |}
  | STANDARD => {| maxPerMinute := 60; maxBurst := 10 |}
  end.

(** The tiers in ascending order of risk. *)
Definition tier_rank (t : TrustTierValue) : nat :=
  match t with STANDARD => 0 | ELEVATED => 1 | CRITICAL => 2 end.

(** A string of 7-bit characters; on these the case mappings of the
    language are the ones of the model. *)
Fixpoint is_ascii_string (s : string) : bool :=
  match s with
  | EmptyString => true
  | String a r => (nat_of_ascii a <? 128)%nat && is_ascii_string r
  end.

(** [req] with the header [name] set to [v], or removed. *)
Definition with_header (name v : string) (req : PolicyRequest) : PolicyRequest :=
  {| headers := <[name := v]> (headers req); agentCardUrl := agentCardUrl req |}.

Definition without_header (name : string) (req : PolicyRequest) : PolicyRequest :=
  {| headers := delete name (headers req); agentCardUrl := agentCardUrl req |}.

Definition with_agentCardUrl (u : option string) (req : PolicyRequest) : PolicyRequest :=
  {| headers := headers req; agentCardUrl := u |}.

(** ** The rest of the runtime edge copy (api/_cii-trust-policy.js) *)

(** A parsed JSON value, as far as the override loop looks at it:
    [typeof v === 'number'] or not. *)
Inductive JsonValue : Type :=
  | JsonNumber (n : number)
  | JsonOther.

(** [s.split(',')] *)
Fixpoint split_comma (s : string) : list string :=
  match s with
  | EmptyString => [EmptyString]
  | String c r =>
      if Ascii.eqb c ","
      then EmptyString :: split_comma r
      else match split_comma r with
           | seg :: rest => String c seg :: rest
           | [] => [String c EmptyString]
           end
  end.

Fixpoint has_comma (s : string) : bool :=
  match s with
  | EmptyString => false
  | String c r => Ascii.eqb c "," || has_comma r
  end.

Module EdgePolicy.
Section Policy.

Variable Number_toString : Q -> string.
Variable URL_hostname : string -> option string.

(** [Object.entries(JSON.parse(text))]; [None] when either throws (text
    that is not JSON, or JSON [null]). *)
Variable JSON_entries : string -> option (list (string * JsonValue)).

(** Apply env var overrides at module load:
    [for (const [k, v] of entries) if (typeof v === 'number')
       COUNTRY_CII_SCORES[k.toUpperCase()] = v], inside [try]/[catch]. *)
Definition applyOverride (scores : gmap string number) (e : string * JsonValue)
    : gmap string number :=
  match snd e with
  | JsonNumber v => <[toUpperCase (fst e) := v]> scores
  | JsonOther => scores
  end.

Definition loadScoreOverrides (scores : gmap string number)
    (CII_REGION_SCORES : option string) : gmap string number :=
  match truthy_string CII_REGION_SCORES with
  | Some overrides =>
      match JSON_entries overrides with
      | Some entries => fold_left applyOverride entries scores
      | None => scores               (* ignore parse errors *)
      end
  | None => scores
  end.

(** [new Set(raw.split(',').map(s => s.trim()).filter(Boolean))] with
    [raw = process.env.CII_ALLOWLIST || ''] *)
Definition loadAllowlist (CII_ALLOWLIST : option string) : gset string :=
  let allowlistRaw := default "" (truthy_string CII_ALLOWLIST) in
  list_to_set
    (List.filter (fun s => negb (String.eqb s ""))
                 (map trim (split_comma allowlistRaw))).

Definition evaluateCiiTrustPolicy (scores : gmap string number) (now : string)
    (CII_ALLOWLIST : option string)
    (req_headers : gmap string string) (agentId : string)
    (agentCardUrl : option string) : CiiPolicyDecision :=
  let r := EdgeCopy.resolveAgentCountry URL_hostname req_headers agentCardUrl in
  let ciiScore := getCiiScore scores (countryCode r) in
  let policy := buildTrustPolicy Number_toString (countryCode r) ciiScore in
  (* Load allowlist from env *)
  let allowlist := loadAllowlist CII_ALLOWLIST in
  let isInAllowlist :=
    bool_decide (agentId ∈ allowlist) || bool_decide ("*" ∈ allowlist) in
  let allowed :=
    if bool_decide (tier policy = CRITICAL) && negb isInAllowlist
    then false else true in
  {| allowed := allowed;
     policy := policy;
     decisionCountryCode := countryCode r;
     countrySource := source r;
     isInAllowlist := isInAllowlist;
     enforcedAt := now |}.

End Policy.
End EdgePolicy.

(** The source label the edge copy gives where the canonical source gives
    [s]. *)
Definition relabel (s : ResolutionSource) : ResolutionSource :=
  match s with cf_geo => vercel_geo | other => other end.

Definition starts_with_space (s : string) : bool :=
  match s with String c _ => is_space c | EmptyString => false end.

(** An agent id that can be listed in [CII_ALLOWLIST]: not empty, free of
    commas, without white space at either end. *)
Definition listable (agentId : string) : Prop :=
  agentId <> "" /\ has_comma agentId = false /\ trim agentId = agentId.

(** The last numeric override for the key [K] in a list of entries, keys
    compared in upper case. *)
Fixpoint last_override (entries : list (string * JsonValue)) (K : string)
    : option number :=
  match entries with
  | [] => None
  | e :: rest =>
      match last_override rest K with
      | Some v => Some v
      | None =>
          match snd e with
          | JsonNumber v => if String.eqb (toUpperCase (fst e)) K then Some v else None
          | JsonOther => None
          end
      end
  end.

(** ** A numeral with one decimal place

    The specification's words for the score in the CRITICAL message: an
    optional minus sign, one or more digits, a point and one digit. *)
Definition one_decimal_place (t : string) : Prop :=
  exists sign int_part d,
    t = sign +:+ int_part +:+ "." +:+ String d EmptyString /\
    (sign = "" \/ sign = "-") /\
    int_part <> "" /\ all_digits int_part = true /\ is_digit d = true.

Fixpoint has_digit (s : string) : bool :=
  match s with
  | EmptyString => false
  | String a r => is_digit a || has_digit r
  end.

(** ** The task store of a running instance (api/a2a.js) *)

(** Every key of the map refers to a task object that carries the key as
    its id and is in state completed. *)
Definition store_wf (st : Store) : Prop :=
  forall k l, map_get k (tasks st) = Some l ->
    exists t, heap st !! l = Some t /\ task_id t = k /\
              state (status t) = "completed".

(** The response is a JSON-RPC envelope carrying [id]. *)
Definition responds_to (id : RpcId) (r : Response) : Prop :=
  match r with
  | jsonRpcSuccess i _ | jsonRpcError i _ _ => i = id
  | HttpStatus _ | Thrown _ => False
  end.

Definition is_success (r : Response) : bool :=
  match r with jsonRpcSuccess _ _ => true | _ => false end.

(** The message passes the structural checks of [handleMessageSend] that
    come before the text is looked at. *)
Definition well_formed_message (p : Params) (message : Message)
    (message_parts : list (option Part)) : Prop :=
  params_message p = Some message /\
  msg_parts message = Some message_parts /\ message_parts <> [] /\
  (forall r, msg_role message = Some r -> r = "" \/ r = "user").

(** ** Sample requests *)

Module SampleRequests.

Definition send_body (p : Params) : Body :=
  {| jsonrpc := Some "2.0"; method := Some "message/send";
     params := Some p; body_id := Some (IdNumber (JNum 1)) |}.

(** The store after one [message/send] to a fresh instance. *)
Definition store1 : Store :=
  fst (handler Sample.generateAgentResponse empty_store Sample.oracle "POST"
         (Some (send_body (Sample.send_params "check 10.0.0.1")))).

Definition message_of (parts : list (option Part)) : Message :=
  {| msg_parts := Some parts; msg_role := Some "user"; msg_taskId := None;
     msg_contextId := None; msg_messageId := None |}.

Definition send_parts (parts : list (option Part)) (sid : option string)
    : Params :=
  {| params_message := Some (message_of parts);
     params_configuration := None;
     params_metadata := Some {| skillId := sid |};
     params_id := None; params_historyLength := None |}.

Definition text_object (text : string) : Part :=
  {| part_kind := Some "text"; part_text := Some (TextString text) |}.

(** Blanks, a no-break space, a file part and a text part without text. *)
Definition blank_objects : list Part :=
  [ text_object "  ";
    text_object (String (ascii_of_nat 160) EmptyString);
    {| part_kind := Some "file"; part_text := None |};
    {| part_kind := Some "text"; part_text := None |} ].

Definition blank_parts : list (option Part) := map Some blank_objects.

Definition text_parts : list (option Part) :=
  [ Some (text_object "status report") ].

(** A text part followed by [null]. *)
Definition null_parts : list (option Part) :=
  [ Some (text_object "status report"); None ].

End SampleRequests.

(** ** [uid] (api/a2a.js)

    [Math.random()] yields a number in the interval from 0 (inclusive) to
    1 (exclusive); the calls are numbered in the order they are made.
    Multiplying a double by 16 is exact, so the product is the rational
    one. *)

(** [x | 0] for a finite [x]: the fraction is dropped and the integer
    wrapped into the signed 32-bit range. *)
Definition truncate (x : Q) : Z := Z.quot (Qnum x) (Z.pos (Qden x)).

Definition to_int32 (z : Z) : Z := (z + 2 ^ 31) mod 2 ^ 32 - 2 ^ 31.

Definition hex_digit (d : Z) : ascii :=
  if d <? 10 then ascii_of_nat (48 + Z.to_nat d)
  else ascii_of_nat (87 + Z.to_nat d).

Fixpoint hex_digits (fuel : nat) (z : Z) (acc : string) : string :=
  match fuel with
  | O => acc
  | S fuel' =>
      let acc' := String (hex_digit (z mod 16)) acc in
      if z / 16 =? 0 then acc' else hex_digits fuel' (z / 16) acc'
  end.

(** [v.toString(16)] for a 32-bit integer [v]: at most eight digits. *)
Definition toString16 (v : Z) : string :=
  if v <? 0 then "-" +:+ hex_digits 8 (- v) "" else hex_digits 8 v "".

Definition uid_template : string := "xxxxxxxx-xxxx-4xxx-yxxx-xxxxxxxxxxxx".

(** The replacement function of [uid]. *)
Definition uid_replacement (c : ascii) (random : Q) : string :=
  let r := to_int32 (truncate (random * 16)) in
  let v := if Ascii.eqb c "x" then r else Z.lor (Z.land r 3) 8 in
  toString16 v.

(** [template.replace(/[xy]/g, c => ...)]: every x and y, from left to
    right, is replaced by the result of a call of the function, and each
    call draws the next random number. *)
Fixpoint replace_xy (template : string) (random : nat -> Q) (n : nat) : string :=
  match template with
  | EmptyString => EmptyString
  | String c rest =>
      if Ascii.eqb c "x" || Ascii.eqb c "y"
      then uid_replacement c (random n) +:+ replace_xy rest random (S n)
      else String c (replace_xy rest random n)
  end.

Definition uid (random : nat -> Q) : string := replace_xy uid_template random 0.

(** ** Letter case and the router's patterns *)

Fixpoint map_string (f : ascii -> ascii) (s : string) : string :=
  match s with
  | EmptyString => EmptyString
  | String a r => String (f a) (map_string f r)
  end.

Definition map_pos (f : ascii -> ascii) (x : pos) : pos :=
  (f <$> fst x, map_string f (snd x)).

(** A pattern without the [i] flag that cannot tell [a] from [f a]. *)
Fixpoint case_blind (f : ascii -> ascii) (r : regex) : Prop :=
  match r with
  | Eps | WordBoundary => True
  | Chr c => forall a, Ascii.eqb (f a) c = Ascii.eqb a c
  | Cls p | StarCls p => forall a, p (f a) = p a
  | Seq r1 r2 | Alt r1 r2 => case_blind f r1 /\ case_blind f r2
  | Rep r _ _ => case_blind f r
  end.

(* ===================================================================== *)
(** * Agent-card validator *)
(* ===================================================================== *)

(** A parsed JSON value.  The members of an object are listed in the order
    [Object.keys] gives them, each key once. *)
#[local] Unset Elimination Schemes.
Inductive Json : Type :=
  | Jnull
  | Jbool (b : bool)
  | Jnumber (n : Q)
  | Jstring (s : string)
  | Jarray (items : list Json)
  | Jobject (members : list (string * Json)).
#[local] Set Elimination Schemes.

(** [v[key]] for a key that no prototype of a JSON value defines, as is the
    case for all the keys the validator reads; [None] is [undefined]. *)
Definition json_member (v : Json) (key : string) : option Json :=
  match v with
  | Jobject members => assoc key members
  | _ => None
  end.

Definition json_truthy (v : Json) : bool :=
  match v with
  | Jnull => false
  | Jbool b => b
  | Jnumber n => negb (Qeq_bool n 0)
  | Jstring s => negb (String.eqb s "")
  | Jarray _ | Jobject _ => true
  end.

Record ValidationCheck : Type := {
  check_id : string;
  check_category : string;
  severity : string;
  check_message : string;
  check_detail : option string;     (* [None]: the member is absent *)
}.

Definition REQUIRED_TOP_LEVEL : list string :=
  ["name"; "description"; "version"; "url"; "supportedInterfaces";
   "capabilities"; "defaultInputModes"; "defaultOutputModes"; "skills"].

Definition OPTIONAL_TOP_LEVEL : list string :=
  ["provider"; "securitySchemes"; "securityRequirements"; "documentationUrl";
   "iconUrl"; "signatures"].

Definition check (id category severity message : string) (detail : option string)
    : ValidationCheck :=
  {| check_id := id; check_category := category; severity := severity;
     check_message := message; check_detail := truthy_string detail |}.

(** The three loops over the top-level fields of a card that is a JSON
    object with the given members. *)

Definition required_check (card : list (string * Json)) (field : string)
    : ValidationCheck :=
  match assoc field card with
  | None | Some Jnull =>
      check ("required-" +:+ field) "structure" "fail"
        ("Missing required field: " +:+ dquote +:+ field +:+ dquote) None
  | Some _ =>
      check ("required-" +:+ field) "structure" "pass"
        ("Required field " +:+ dquote +:+ field +:+ dquote +:+ " present") None
  end.

Definition optional_check (card : list (string * Json)) (field : string)
    : list ValidationCheck :=
  match assoc field card with
  | Some _ =>
      [check ("optional-" +:+ field) "structure" "info"
         ("Optional field " +:+ dquote +:+ field +:+ dquote +:+ " present") None]
  | None => []
  end.

Definition knownFields : list string := REQUIRED_TOP_LEVEL ++ OPTIONAL_TOP_LEVEL.

Definition unknown_check (key : string) : list ValidationCheck :=
  if negb (existsb (String.eqb key) knownFields)
  then [check ("unknown-field-" +:+ key) "structure" "warn"
          ("Unknown top-level field: " +:+ dquote +:+ key +:+ dquote) None]
  else [].

Definition structure_checks (card : list (string * Json)) : list ValidationCheck :=
  map (required_check card) REQUIRED_TOP_LEVEL
  ++ flat_map (optional_check card) OPTIONAL_TOP_LEVEL
  ++ flat_map unknown_check (map fst card).

(** [validationResponse]: the body of the report. *)

Record Summary : Type := {
  summary_total : nat;
  summary_pass : nat;
  summary_fail : nat;
  summary_warn : nat;
  summary_info : nat;
}.

Record CardSummary : Type := {
  card_name : option Json;
  card_version : option Json;
  skillCount : nat;
  provider : Json;
}.

Record ValidationResult : Type := {
  result_url : string;
  result_timestamp : string;
  verdict : string;
  summary : Summary;
  result_fetchMs : Z;
  result_httpStatus : Z;
  result_card : option CardSummary;     (* [None]: [null] *)
  result_checks : list ValidationCheck;
}.

Definition count_severity (s : string) (checks : list ValidationCheck) : nat :=
  length (List.filter (fun c => String.eqb (severity c) s) checks).

Definition summarize_card (card : Json) : CardSummary :=
  {| card_name := json_member card "name";
     card_version := json_member card "version";
     skillCount :=
       match json_member card "skills" with
       | Some (Jarray items) => length items
       | _ => 0%nat
       end;
     provider :=
       match json_member card "provider" with
       | None | Some Jnull => Jnull
       | Some p =>
           match json_member p "organization" with
           | Some org => if json_truthy org then org else Jnull
           | None => Jnull
           end
       end |}.

Definition validationResponse (now url : string) (card : option Json)
    (checks : list ValidationCheck) (fetchMs httpStatus : option Z)
    : ValidationResult :=
  let fails := count_severity "fail" checks in
  let warns := count_severity "warn" checks in
  let passes := count_severity "pass" checks in
  let infos := count_severity "info" checks in
  {| result_url := url;
     result_timestamp := now;
     verdict :=
       if (0 <? fails)%nat then "invalid"
       else if (0 <? warns)%nat then "valid_with_warnings" else "valid";
     summary :=
       {| summary_total := length checks; summary_pass := passes;
          summary_fail := fails; summary_warn := warns; summary_info := infos |};
     result_fetchMs := default 0 fetchMs;
     result_httpStatus := default 0 httpStatus;
     result_card :=
       match card with
       | Some c => if json_truthy c then Some (summarize_card c) else None
       | None => None
       end;
     result_checks := checks |}.

(** A severity the validator's report counts. *)
Definition known_severity (s : string) : Prop :=
  s = "pass" \/ s = "fail" \/ s = "warn" \/ s = "info".

(** A required field the card lacks: absent, or [null]. *)
Definition lacks (card : list (string * Json)) (field : string) : bool :=
  match assoc field card with
  | None | Some Jnull => true
  | Some _ => false
  end.

Module SampleCards.

Definition complete : list (string * Json) :=
  map (fun field => (field, Jstring "x")) REQUIRED_TOP_LEVEL.

(** No [skills], a [null] version, and a field the validator does not
    know. *)
Definition broken : list (string * Json) :=
  [("name", Jstring "Agent"); ("description", Jstring "d");
   ("version", Jnull); ("url", Jstring "https://a.example");
   ("supportedInterfaces", Jarray []); ("capabilities", Jobject []);
   ("defaultInputModes", Jarray []); ("defaultOutputModes", Jarray []);
   ("provider", Jobject [("organization", Jstring "ACME")]);
   ("x-extra", Jbool true)].

End SampleCards.

(* ===================================================================== *)
(** * Prediction market signals panel *)
(* ===================================================================== *)

Module PredictionSignals.

(** ** Relevance keyword tiers *)



Record MarketRelevance : Type := {
  tier : Z;
  weight : Q;
  keywords : list string;
}.



(** ** In-memory probability history

    Time stamps are the integers [Date.now()] returns. *)

Record ProbabilityPoint : Type := {
  timestamp : Z;
  probability : number;
}.

Definition History : Type := gmap string (list ProbabilityPoint).

(** [now1] and [now2] are the two readings of the clock the function
    takes. *)
Definition recordProbability (h : History) (now1 now2 : Z) (title : string)
    (p : number) : History :=
  let history :=
    default [] (h !! title) ++ [{| timestamp := now1; probability := p |}] in
  (* Keep last 24h *)
  let cutoff := now2 - 24 * 60 * 60 * 1000 in
  let trimmed := List.filter (fun pt => cutoff <? timestamp pt) history in
  <[title := trimmed]> h.

Definition getPreviousProbability (h : History) (title : string)
    : option number :=
  match h !! title with
  | Some (first :: _ :: _) => Some (probability first)
  | _ => None
  end.

(** [a < b] and [a >= b]: false when either side is NaN. *)
Definition js_lt (a b : number) : bool := js_gt b a.

Definition js_ge (a b : number) : bool :=
  match a, b with
  | JNaN, _ | _, JNaN => false
  | _, _ => negb (js_gt b a)
  end.

(** [Math.min(a, b)] *)
Definition Math_min (a b : number) : number :=
  match a, b with
  | JNaN, _ | _, JNaN => JNaN
  | _, _ => if js_gt a b then b else a
  end.

(** ** Velocity thresholds and signal levels *)

Inductive SignalLevel : Type := critical | elevated | normal | declining.

Definition MIN_VOLUME_USD : number := JNum 100000.

Definition getSignalLevel (velocity volume : number) : SignalLevel :=
  if js_lt volume MIN_VOLUME_USD then normal
  else if js_ge velocity (JNum 5.0) then critical
  else if js_ge velocity (JNum 1.0) then elevated
  else if js_lt velocity (JNum (- 1.0)) then declining
  else normal.

(** [signalLevel === 'elevated' || signalLevel === 'critical'] *)
Definition elevated_or_critical (l : SignalLevel) : bool :=
  match l with elevated | critical => true | _ => false end.

Definition level_rank (l : SignalLevel) : nat :=
  match l with declining => 0 | normal => 1 | elevated => 2 | critical => 3 end.

Record TrackedMarket : Type := {
  title : string;
  market_probability : number;
  previousProbability : option number;
  volume : number;
  velocity : number;
  relevance : MarketRelevance;
  signalLevel : SignalLevel;
  isElevated : bool;
}.

Section Floats.

(** The arithmetic of doubles is left abstract. *)
Variable fadd fsub fmul fdiv : number -> number -> number.

Definition computeVelocity (h : History) (now : Z) (title : string)
    (windowHours : Z) : number :=
  match h !! title with
  | None => JNum 0
  | Some history =>
      if (length history <? 2)%nat then JNum 0 else
      let windowStart := now - windowHours * 60 * 60 * 1000 in
      let recent := List.filter (fun pt => windowStart <? timestamp pt) history in
      match recent with
      | oldest :: _ :: _ =>
          let newest := List.last recent oldest in
          let hoursDelta :=
            fdiv (JNum (inject_Z (timestamp newest - timestamp oldest)))
                 (JNum (inject_Z (1000 * 60 * 60))) in
          if js_lt hoursDelta (JNum 0.05) then JNum 0
          else fdiv (fsub (probability newest) (probability oldest)) hoursDelta
      | _ => JNum 0
      end
  end.

(** The loop of [computeEarlyWarningMultiplier]. *)
Fixpoint accumulate (multiplier : number) (markets : list TrackedMarket)
    : number :=
  match markets with
  | [] => multiplier
  | m :: rest =>
      if negb (isElevated m) then accumulate multiplier rest else
      let velocityNorm := Math_min (fdiv (velocity m) (JNum 2.5)) (JNum 2.0) in
      let volumeConfidence :=
        Math_min (fdiv (volume m) (JNum 1000000)) (JNum 1.0) in
      let contribution :=
        fmul (fmul velocityNorm (JNum (weight (relevance m)))) volumeConfidence in
      accumulate (fadd multiplier contribution) rest
  end.

Definition computeEarlyWarningMultiplier (markets : list TrackedMarket)
    : number :=
  Math_min (accumulate (JNum 1.0) markets) (JNum 3.0).

End Floats.

(** Rational arithmetic, standing in for the arithmetic of doubles in
    examples. *)
Definition lift (f : Q -> Q -> Q) (a b : number) : number :=
  match a, b with
  | JNum p, JNum q => JNum (f p q)
  | _, _ => JNaN
  end.

Definition quiet_market : TrackedMarket :=
  {| title := "Will there be a ceasefire by June?";
     market_probability := JNum 41; previousProbability := Some (JNum 40);
     volume := JNum 250000; velocity := JNum 0.2;
     relevance := {| tier := 3; weight := 0.4; keywords := ["ceasefire"] |};
     signalLevel := normal; isElevated := false |}.

End PredictionSignals.

(* ===================================================================== *)
(** * Properties of the trust policy engine *)
(* ===================================================================== *)

(** ** Comparison lemmas *)

Lemma Qlt_bool_iff (a b : Q) : Qlt_bool a b = true <-> (a < b)%Q.
Proof.
  unfold Qlt_bool. rewrite negb_true_iff.
  split.
  - intros H. apply Qnot_le_lt. intros Hle.
    apply Qle_bool_iff in Hle. congruence.
  - intros H. destruct (Qle_bool b a) eqn:E; [|reflexivity].
    apply Qle_bool_iff in E. exfalso. exact (Qlt_not_le _ _ H E).
Qed.

Lemma Qlt_bool_false_iff (a b : Q) : Qlt_bool a b = false <-> (b <= a)%Q.
Proof.
  unfold Qlt_bool. rewrite negb_false_iff. apply Qle_bool_iff.
Qed.

Lemma js_gt_true_iff (a b : number) : js_gt a b = true <-> num_lt b a.
Proof.
  destruct a as [|[]|p], b as [|[]|q]; simpl;
    try (split; [discriminate | tauto]); try tauto.
  apply Qlt_bool_iff.
Qed.

Lemma js_gt_false_of_le (a b : number) : num_le a b -> js_gt a b = false.
Proof.
  destruct a as [|[]|p], b as [|[]|q]; simpl;
    intros H; try tauto; try reflexivity; try (destruct H; discriminate).
  now apply Qlt_bool_false_iff.
Qed.

Lemma num_le_lt_trans (a b c : number) : num_le a b -> num_lt b c -> num_lt a c.
Proof.
  destruct a as [|[]|p], b as [|[]|q], c as [|[]|r]; simpl;
    intros H1 H2; try tauto; try (destruct H1; discriminate).
  eapply Qle_lt_trans; eassumption.
Qed.

(** NaN compares false with everything and so lands in the lowest tier. *)
Lemma ciiScoreToTier_NaN : ciiScoreToTier JNaN = STANDARD.
Proof. reflexivity. Qed.

(** C1.  Score-to-tier mapping: STANDARD up to and including 34, ELEVATED
    above 34 up to and including 60, CRITICAL above 60; with the four
    boundary values of the specification. *)
Theorem ciiScoreToTier_thresholds (s : number) :
  (num_le s (JNum 34) -> ciiScoreToTier s = STANDARD) /\
  (num_lt (JNum 34) s -> num_le s (JNum 60) -> ciiScoreToTier s = ELEVATED) /\
  (num_lt (JNum 60) s -> ciiScoreToTier s = CRITICAL) /\
  ciiScoreToTier (JNum 34.0) = STANDARD /\
  ciiScoreToTier (JNum 34.0000001) = ELEVATED /\
  ciiScoreToTier (JNum 60.0) = ELEVATED /\
  ciiScoreToTier (JNum 60.0000001) = CRITICAL.
Proof.
  unfold ciiScoreToTier.
  repeat split; try reflexivity.
  - intros Hle.
    assert (H60 : num_lt s (JNum 60))
      by (eapply num_le_lt_trans; [exact Hle | reflexivity]).
    rewrite (js_gt_false_of_le s (JNum 34) Hle).
    destruct (js_gt s (JNum 60)) eqn:E; [|reflexivity].
    apply js_gt_true_iff in E.
    destruct s as [|[]|q]; simpl in *; try tauto.
    exfalso. exact (Qlt_irrefl _ (Qlt_trans _ _ _ E H60)).
  - intros Hlt Hle.
    rewrite (js_gt_false_of_le s (JNum 60) Hle).
    apply js_gt_true_iff in Hlt. now rewrite Hlt.
  - intros Hlt. apply js_gt_true_iff in Hlt. now rewrite Hlt.
Qed.

(** The tier of a score decides the mapping completely: the three cases of
    C1 are also necessary. *)
Lemma ciiScoreToTier_inv (s : number) :
  match ciiScoreToTier s with
  | STANDARD => ~ num_lt (JNum 34) s
  | ELEVATED => num_lt (JNum 34) s /\ ~ num_lt (JNum 60) s
  | CRITICAL => num_lt (JNum 60) s
  end.
Proof.
  unfold ciiScoreToTier.
  destruct (js_gt s (JNum 60)) eqn:E60.
  - now apply js_gt_true_iff.
  - destruct (js_gt s (JNum 34)) eqn:E34.
    + split; [now apply js_gt_true_iff|].
      intros H. apply js_gt_true_iff in H. congruence.
    + intros H. apply js_gt_true_iff in H. congruence.
Qed.

(** ** String lemmas for the message template *)

Lemma prefix_app (t r : string) : String.prefix t (t +:+ r) = true.
Proof.
  induction t as [|a t IH]; simpl.
  - now destruct r.
  - destruct (Ascii.ascii_dec a a) as [_|Hne]; [exact IH | now elim Hne].
Qed.

Lemma includes_here (t r : string) : includes (t +:+ r) t = true.
Proof.
  destruct t as [|a t]; simpl.
  - now destruct r.
  - pose proof (prefix_app (String a t) r) as H. simpl in H.
    rewrite H. reflexivity.
Qed.

Lemma includes_app_r (p s t : string) :
  includes s t = true -> includes (p +:+ s) t = true.
Proof.
  intros H. induction p as [|a p IH]; simpl; [exact H|].
  rewrite IH. apply orb_true_r.
Qed.

Lemma digits_one_char (d : Z) : 0 <= d < 10 -> String.length (digits d) = 1%nat.
Proof.
  intros H.
  assert (d = 0 \/ d = 1 \/ d = 2 \/ d = 3 \/ d = 4 \/
          d = 5 \/ d = 6 \/ d = 7 \/ d = 8 \/ d = 9) as Hd by lia.
  repeat (destruct Hd as [->|Hd]; [reflexivity|]). now subst.
Qed.

Lemma digits_digit (d : Z) :
  0 <= d < 10 -> exists a, digits d = String a "" /\ is_digit a = true.
Proof.
  intros H.
  assert (d = 0 \/ d = 1 \/ d = 2 \/ d = 3 \/ d = 4 \/
          d = 5 \/ d = 6 \/ d = 7 \/ d = 8 \/ d = 9) as Hd by lia.
  repeat (destruct Hd as [->|Hd]; [eexists; split; reflexivity|]).
  subst. eexists; split; reflexivity.
Qed.

Lemma all_digits_uint (d : Decimal.uint) :
  all_digits (NilEmpty.string_of_uint d) = true.
Proof. induction d; simpl; assumption || reflexivity. Qed.

Lemma digits_numeral (n : Z) : digits n <> "" /\ all_digits (digits n) = true.
Proof.
  unfold digits, NilZero.string_of_uint.
  destruct (N.to_uint (Z.to_N n)) as [|d|d|d|d|d|d|d|d|d|d];
    (split; [cbn; discriminate|]); try reflexivity;
    exact (all_digits_uint _).
Qed.

Lemma has_digit_app (a b : string) :
  has_digit (a +:+ b) = has_digit a || has_digit b.
Proof.
  induction a as [|c a IH]; [reflexivity|].
  change (String c a +:+ b) with (String c (a +:+ b)).
  cbn [has_digit]. now rewrite IH, orb_assoc.
Qed.

Lemma one_decimal_place_has_digit (t : string) :
  one_decimal_place t -> has_digit t = true.
Proof.
  intros (sign & int_part & d & -> & _ & _ & _ & Hd).
  rewrite !has_digit_app. cbn [has_digit]. rewrite Hd.
  now rewrite !orb_true_r.
Qed.

Lemma prefix_has_digit (t m : string) :
  String.prefix t m = true -> has_digit t = true -> has_digit m = true.
Proof.
  revert m. induction t as [|a t IH]; intros m Hp Ht; [discriminate|].
  destruct m as [|b m]; [discriminate|]. cbn [String.prefix] in Hp.
  destruct (ascii_dec a b) as [->|]; [|discriminate].
  cbn [has_digit] in Ht |- *. destruct (is_digit b); [reflexivity|].
  cbn [orb] in Ht |- *. now apply IH.
Qed.

Lemma includes_has_digit (m t : string) :
  includes m t = true -> has_digit t = true -> has_digit m = true.
Proof.
  induction m as [|b m IH]; cbn [includes]; intros H Ht.
  - rewrite orb_false_r in H. destruct t; [discriminate | discriminate].
  - apply orb_true_iff in H as [H|H].
    + now apply (prefix_has_digit t).
    + cbn [has_digit]. rewrite (IH H Ht). apply orb_true_r.
Qed.

Lemma Qabs_nonneg_eq (q : Q) : (0 <= q)%Q -> Qabs q = q.
Proof.
  destruct q as [n d]. unfold Qle, Qabs. simpl. intros H.
  f_equal. apply Z.abs_eq. lia.
Qed.

Lemma upper_ascii_idem (a : ascii) : upper_ascii (upper_ascii a) = upper_ascii a.
Proof. destruct a as [[] [] [] [] [] [] [] []]; reflexivity. Qed.

Lemma upper_lower_ascii (a : ascii) : upper_ascii (lower_ascii a) = upper_ascii a.
Proof. destruct a as [[] [] [] [] [] [] [] []]; reflexivity. Qed.

Lemma toUpperCase_idem (s : string) : toUpperCase (toUpperCase s) = toUpperCase s.
Proof.
  induction s as [|a s IH]; simpl; [reflexivity|].
  now rewrite upper_ascii_idem, IH.
Qed.

Lemma toUpperCase_toLowerCase (s : string) :
  toUpperCase (toLowerCase s) = toUpperCase s.
Proof.
  induction s as [|a s IH]; simpl; [reflexivity|].
  now rewrite upper_lower_ascii, IH.
Qed.

Section TrustPolicyFacts.

Variable Number_toString : Q -> string.
Variable URL_hostname : string -> option string.

Abbreviation toFixed1 := (toFixed1 Number_toString).
Abbreviation buildTrustPolicy := (buildTrustPolicy Number_toString).
Abbreviation extractTldCountry := (extractTldCountry URL_hostname).
Abbreviation resolveAgentCountry := (resolveAgentCountry URL_hostname).
Abbreviation spec_url_tld := (spec_url_tld URL_hostname).
Abbreviation spec_resolveAgentCountry := (spec_resolveAgentCountry URL_hostname).
Abbreviation evaluateCiiTrustPolicy :=
  (evaluateCiiTrustPolicy Number_toString URL_hostname).

(** *** Rendering to one decimal place *)

(** For a finite score in [0, 10^21) the rendering is the decimal
    numeral of [n / 10], a point, and the single digit [n mod 10], where
    [n] is the integer nearest to ten times the score. *)
Lemma toFixed1_one_decimal (q : Q) :
  (0 <= q)%Q -> (q < 10 ^ 21)%Q ->
  let n := nearest_tenths q in
  toFixed1 (JNum q) = digits (n / 10) +:+ "." +:+ digits (n mod 10)
  /\ String.length (digits (n mod 10)) = 1%nat
  /\ (inject_Z n - (1 # 2) <= q * 10 < inject_Z n + (1 # 2))%Q.
Proof.
  intros H0 Hbig n. repeat split.
  - unfold toFixed1.
    rewrite (Qabs_nonneg_eq q H0).
    assert (Qlt_bool q 0 = false) as -> by now apply Qlt_bool_false_iff.
    assert (Qle_bool (10 ^ 21) q = false) as ->.
    { destruct (Qle_bool (10 ^ 21) q) eqn:E; [|reflexivity].
      apply Qle_bool_iff in E. exfalso. exact (Qlt_not_le _ _ Hbig E). }
    reflexivity.
  - apply digits_one_char. apply Z.mod_pos_bound. lia.
  - pose proof (Qfloor_le (q * 10 + (1 # 2))) as H.
    fold (nearest_tenths q) in H. fold n in H. lra.
  - pose proof (Qlt_floor (q * 10 + (1 # 2))) as H.
    fold (nearest_tenths q) in H. fold n in H.
    rewrite inject_Z_plus in H. change (inject_Z 1) with 1%Q in H. lra.
Qed.

Lemma toFixed1_one_decimal_place (q : Q) :
  (0 <= q)%Q -> (q < 10 ^ 21)%Q -> one_decimal_place (toFixed1 (JNum q)).
Proof.
  intros H0 Hbig.
  destruct (toFixed1_one_decimal q H0 Hbig) as (-> & _ & _).
  destruct (digits_digit (nearest_tenths q mod 10)) as (d & -> & Hd);
    [apply Z.mod_pos_bound; lia|].
  destruct (digits_numeral (nearest_tenths q / 10)) as [Hne Hall].
  exists "", (digits (nearest_tenths q / 10)), d.
  split; [reflexivity|]. auto.
Qed.

Lemma toFixed1_large (q : Q) :
  (10 ^ 21 <= q)%Q -> toFixed1 (JNum q) = Number_toString q.
Proof.
  intros Hbig. unfold toFixed1.
  assert (H0 : (0 <= q)%Q) by (eapply Qle_trans; [|exact Hbig]; discriminate).
  rewrite (Qabs_nonneg_eq q H0).
  assert (Qlt_bool q 0 = false) as -> by now apply Qlt_bool_false_iff.
  apply Qle_bool_iff in Hbig. now rewrite Hbig.
Qed.

(** C3.  The policy builder returns the static record of the score's
    tier, carrying the inputs in [tier], [ciiScore] and [country]; the
    CRITICAL message is the template around the country code and the
    score as [toFixed(1)] prints it, hence contains both.  For a score
    below 10^21 that is the score with one decimal place, the tenth
    nearest to it; from 10^21 on it is what [Number::toString] prints,
    and for an infinite score the word Infinity. *)
Theorem buildTrustPolicy_static_record (c : string) (s : number) :
  let p := buildTrustPolicy c s in
  tier p = ciiScoreToTier s /\ ciiScore p = s /\ country p = c /\
  match ciiScoreToTier s with
  | STANDARD =>
      requireJWS p = false /\ requireAdminAllowlist p = false /\
      deepInjectionScan p = false /\ maxRequestsPerHour p = 100 /\
      errorCode p = None /\ errorMessage p = None /\ auditLevel p = standard
  | ELEVATED =>
      requireJWS p = true /\ requireAdminAllowlist p = false /\
      deepInjectionScan p = true /\ maxRequestsPerHour p = 30 /\
      errorCode p = None /\ errorMessage p = None /\ auditLevel p = enhanced
  | CRITICAL =>
      requireJWS p = true /\ requireAdminAllowlist p = true /\
      deepInjectionScan p = true /\ maxRequestsPerHour p = 10 /\
      errorCode p = Some (-32050) /\ auditLevel p = forensic /\
      exists m,
        errorMessage p = Some m /\
        m = "Agent request rejected: origin country " +:+ dquote +:+ c +:+ dquote
              +:+ " has critical instability (CII " +:+ toFixed1 s
              +:+ "). Requests from this region require explicit GATRA administrator approval. Reference: GATRA-POL-CII-CRITICAL" /\
        includes m c = true /\
        includes m (toFixed1 s) = true /\
        (forall q, s = JNum q -> (q < 10 ^ 21)%Q ->
           let n := nearest_tenths q in
           toFixed1 s = digits (n / 10) +:+ "." +:+ digits (n mod 10) /\
           String.length (digits (n mod 10)) = 1%nat /\
           (inject_Z n - (1 # 2) <= q * 10 < inject_Z n + (1 # 2))%Q /\
           one_decimal_place (toFixed1 s)) /\
        (forall q, s = JNum q -> (10 ^ 21 <= q)%Q ->
           toFixed1 s = Number_toString q) /\
        (s = JInf false -> toFixed1 s = "Infinity")
  end.
Proof.
  intros p. subst p. unfold buildTrustPolicy.
  pose proof (ciiScoreToTier_inv s) as Hinv.
  destruct (ciiScoreToTier s); simpl; repeat split.
  exists (criticalMessage Number_toString c s).
  split; [reflexivity|]. split; [reflexivity|].
  unfold criticalMessage. split; [|split; [|split; [|split]]].
  - do 2 apply includes_app_r. apply includes_here.
  - do 6 apply includes_app_r. apply includes_here.
  - intros q -> Hq. simpl in Hinv.
    assert (H0 : (0 <= q)%Q)
      by (apply Qlt_le_weak; eapply Qlt_trans; [|exact Hinv]; reflexivity).
    destruct (toFixed1_one_decimal q H0 Hq) as (H1 & H2 & H3).
    split; [exact H1|]. split; [exact H2|]. split; [exact H3|].
    now apply toFixed1_one_decimal_place.
  - intros q -> Hq. now apply toFixed1_large.
  - now intros ->.
Qed.

(** *** Country resolution *)

Lemma two_chars_Some (v : option string) (s : string) :
  two_chars v = Some s <-> v = Some s /\ String.length s = 2%nat.
Proof.
  destruct v as [x|]; simpl; [|split; [discriminate | intros [? _]; discriminate]].
  destruct (Nat.eqb_spec (String.length x) 2); split.
  - intros [= ->]. now split.
  - now intros [[= ->] _].
  - discriminate.
  - intros [[= ->] ?]. contradiction.
Qed.

Lemma string_eqb_false_iff (a b : string) : String.eqb a b = false <-> a <> b.
Proof.
  destruct (String.eqb_spec a b); split; congruence.
Qed.

(** A URL the constructor rejects yields no TLD country. *)
Lemma extractTldCountry_malformed (u : string) :
  URL_hostname u = None -> extractTldCountry u = None.
Proof. unfold extractTldCountry. now intros ->. Qed.

(** Every country code of the TLD table is a non-empty string, so the
    resolver's test [if (tld)] never discards a match. *)
Lemma tld_codes_truthy (host : string) (e : string * string) :
  List.find (fun e => endsWith host (fst e)) TLD_TO_COUNTRY = Some e ->
  String.eqb (snd e) "" = false.
Proof.
  intros H. apply List.find_some in H as [Hin _].
  unfold TLD_TO_COUNTRY in Hin. simpl in Hin.
  repeat (destruct Hin as [<-|Hin]; [reflexivity|]). contradiction.
Qed.

Lemma spec_primary_geo_eq (req : PolicyRequest) :
  spec_primary_geo req =
  (fun v => {| countryCode := toUpperCase v; source := vercel_geo |})
    <$> two_chars (headers req !! "x-vercel-ip-country").
Proof.
  unfold spec_primary_geo, two_chars.
  destruct (headers req !! "x-vercel-ip-country") as [v|]; [|reflexivity].
  destruct (Nat.eqb_spec (String.length v) 2); case_decide;
    try contradiction; reflexivity.
Qed.

Lemma spec_secondary_geo_eq (req : PolicyRequest) :
  spec_secondary_geo req =
  (fun v => {| countryCode := toUpperCase v; source := cf_geo |})
    <$> not_sentinel (two_chars (headers req !! "cf-ipcountry")).
Proof.
  unfold spec_secondary_geo, two_chars, not_sentinel.
  destruct (headers req !! "cf-ipcountry") as [v|]; [|reflexivity].
  destruct (Nat.eqb_spec (String.length v) 2);
    [destruct (String.eqb_spec v "XX")|]; case_decide;
    try tauto; reflexivity.
Qed.

Lemma spec_url_tld_eq (req : PolicyRequest) :
  spec_url_tld req =
  (fun c => {| countryCode := c; source := tld |})
    <$> truthy_string (truthy_string (agentCardUrl req) ≫= extractTldCountry).
Proof.
  unfold spec_url_tld, truthy_string at 2, extractTldCountry.
  destruct (agentCardUrl req) as [u|]; [|reflexivity].
  destruct (String.eqb_spec u ""); case_decide; try contradiction;
    [reflexivity|]. cbn [mbind option_bind].
  destruct (URL_hostname u) as [host|]; [|reflexivity].
  destruct (List.find (fun e => endsWith (toLowerCase host) (fst e))
                      TLD_TO_COUNTRY) as [e|] eqn:E; [|reflexivity].
  cbn [fmap option_fmap option_map truthy_string].
  now rewrite (tld_codes_truthy _ _ E).
Qed.

Lemma spec_self_reported_eq (req : PolicyRequest) :
  spec_self_reported req =
  (fun v => {| countryCode := toUpperCase v; source := self_reported |})
    <$> two_chars (headers req !! "x-agent-country").
Proof.
  unfold spec_self_reported, two_chars.
  destruct (headers req !! "x-agent-country") as [v|]; [|reflexivity].
  destruct (Nat.eqb_spec (String.length v) 2); case_decide;
    try contradiction; reflexivity.
Qed.

Lemma resolveAgentCountry_refines (req : PolicyRequest) :
  resolveAgentCountry req = spec_resolveAgentCountry req.
Proof.
  unfold resolveAgentCountry, spec_resolveAgentCountry.
  rewrite spec_primary_geo_eq, spec_secondary_geo_eq,
    spec_url_tld_eq, spec_self_reported_eq.
  destruct (two_chars (headers req !! "x-vercel-ip-country")); [reflexivity|].
  destruct (not_sentinel (two_chars (headers req !! "cf-ipcountry")));
    [reflexivity|].
  destruct (truthy_string (truthy_string (agentCardUrl req) ≫= extractTldCountry));
    [reflexivity|].
  destruct (two_chars (headers req !! "x-agent-country")); reflexivity.
Qed.

(** C4.  Country resolution is a total function that agrees with the
    first-match-wins reading of the four signals (primary geo header,
    secondary geo header, URL ccTLD, self-reported header, else
    [{XX, unknown}]); a valid primary geo header decides the answer
    whatever the self-reported header holds; a malformed URL is the same
    as no URL. *)
Theorem resolveAgentCountry_priority (req : PolicyRequest) :
  resolveAgentCountry req = spec_resolveAgentCountry req /\
  (forall v, headers req !! "x-vercel-ip-country" = Some v ->
     String.length v = 2%nat ->
     forall self,
       resolveAgentCountry
         {| headers := <["x-agent-country" := self]> (headers req);
            agentCardUrl := agentCardUrl req |}
       = {| countryCode := toUpperCase v; source := vercel_geo |} /\
       resolveAgentCountry req
       = {| countryCode := toUpperCase v; source := vercel_geo |}) /\
  (forall u, agentCardUrl req = Some u -> URL_hostname u = None ->
     resolveAgentCountry req
     = resolveAgentCountry {| headers := headers req; agentCardUrl := None |}).
Proof.
  split; [apply resolveAgentCountry_refines|]. split.
  - intros v Hv Hlen self.
    assert (two_chars (Some v) = Some v) as Htc
      by (apply two_chars_Some; now split).
    unfold resolveAgentCountry. simpl.
    rewrite lookup_insert_ne by discriminate.
    rewrite Hv, Htc. now split.
  - intros u Hu Hbad. unfold resolveAgentCountry. simpl. rewrite Hu.
    unfold truthy_string at 2.
    destruct (String.eqb u ""); simpl; [reflexivity|].
    now rewrite (extractTldCountry_malformed u Hbad).
Qed.

(** The canonical resolver labels a CloudFlare answer [cf_geo], which is
    not the label of the primary header. *)
Lemma resolveAgentCountry_secondary (req : PolicyRequest) (v : string) :
  two_chars (headers req !! "x-vercel-ip-country") = None ->
  headers req !! "cf-ipcountry" = Some v ->
  String.length v = 2%nat -> v <> "XX" ->
  resolveAgentCountry req = {| countryCode := toUpperCase v; source := cf_geo |}
  /\ cf_geo <> vercel_geo.
Proof.
  intros H1 H2 Hlen Hne. split; [|discriminate].
  unfold resolveAgentCountry. rewrite H1, H2.
  assert (two_chars (Some v) = Some v) as -> by (apply two_chars_Some; now split).
  simpl. apply string_eqb_false_iff in Hne. now rewrite Hne.
Qed.

(** The sentinel is rejected: with [cf-ipcountry: XX] the resolver
    answers as if the header were absent. *)
Lemma resolveAgentCountry_sentinel (req : PolicyRequest) :
  two_chars (headers req !! "x-vercel-ip-country") = None ->
  headers req !! "cf-ipcountry" = Some "XX" ->
  resolveAgentCountry req
  = resolveAgentCountry
      {| headers := delete "cf-ipcountry" (headers req);
         agentCardUrl := agentCardUrl req |}.
Proof.
  intros H1 H2. unfold resolveAgentCountry. simpl.
  rewrite lookup_delete_eq.
  rewrite !lookup_delete_ne by discriminate.
  now rewrite H1, H2.
Qed.

(** *** Decision engine *)

Lemma buildTrustPolicy_tier (c : string) (s : number) :
  tier (buildTrustPolicy c s) = ciiScoreToTier s.
Proof. unfold buildTrustPolicy. now destruct (ciiScoreToTier s). Qed.

(** C2.  [allowed = (tier <> CRITICAL) || isInAllowlist], where
    [isInAllowlist] holds exactly when the allowlist has the agent id or
    the wildcard; STANDARD and ELEVATED evaluations are always allowed,
    and a CRITICAL one is refused exactly when the agent is not
    allowlisted (its policy being the forensic one with the sentinel
    error code). *)
Theorem evaluateCiiTrustPolicy_allowed
    (scores : gmap string number) (now : string) (req : PolicyRequest)
    (allowlist : gset string) (agentId : string) :
  let d := evaluateCiiTrustPolicy scores now req allowlist agentId in
  allowed d = negb (bool_decide (tier (policy d) = CRITICAL)) || isInAllowlist d /\
  (allowed d = true <-> tier (policy d) <> CRITICAL \/ isInAllowlist d = true) /\
  (isInAllowlist d = true <-> agentId ∈ allowlist \/ "*" ∈ allowlist) /\
  (tier (policy d) = STANDARD -> allowed d = true) /\
  (tier (policy d) = ELEVATED -> allowed d = true) /\
  (tier (policy d) = CRITICAL ->
     (allowed d = false <-> ~ (agentId ∈ allowlist \/ "*" ∈ allowlist)) /\
     auditLevel (policy d) = forensic /\
     errorCode (policy d) = Some (-32050)).
Proof.
  intros d.
  assert (Hin : isInAllowlist d = true <-> agentId ∈ allowlist \/ "*" ∈ allowlist).
  { subst d. simpl. rewrite orb_true_iff, !bool_decide_eq_true. tauto. }
  assert (Hal : allowed d
                = negb (bool_decide (tier (policy d) = CRITICAL)) || isInAllowlist d).
  { subst d. cbn [allowed policy isInAllowlist evaluateCiiTrustPolicy].
    destruct (bool_decide _); [|reflexivity].
    now destruct (bool_decide _ || bool_decide _). }
  split; [exact Hal|]. split; [|split; [exact Hin|]].
  - rewrite Hal, orb_true_iff, negb_true_iff, bool_decide_eq_false. tauto.
  - split; [|split].
    + intros Ht. rewrite Hal, Ht. reflexivity.
    + intros Ht. rewrite Hal, Ht. reflexivity.
    + intros Ht. split; [|split].
      * rewrite Hal, Ht, <- Hin. cbn [bool_decide negb orb].
        rewrite bool_decide_eq_true_2 by reflexivity. simpl.
        destruct (bool_decide _ || bool_decide _); intuition congruence.
      * subst d. cbn [policy evaluateCiiTrustPolicy] in *.
        rewrite buildTrustPolicy_tier in Ht.
        unfold buildTrustPolicy. now rewrite Ht.
      * subst d. cbn [policy evaluateCiiTrustPolicy] in *.
        rewrite buildTrustPolicy_tier in Ht.
        unfold buildTrustPolicy. now rewrite Ht.
Qed.

(** C5.  A country code whose upper-case form is absent from the score
    table scores 0.0, and a request resolved to it is decided STANDARD
    and allowed; the unknown code XX is absent from the shipped table;
    the lookup depends on the code only up to letter case. *)
Theorem getCiiScore_absent (scores : gmap string number) (cc : string) :
  scores !! toUpperCase cc = None ->
  getCiiScore scores cc = JNum 0.0 /\
  (forall now req allowlist agentId,
     countryCode (resolveAgentCountry req) = cc ->
     let d := evaluateCiiTrustPolicy scores now req allowlist agentId in
     ciiScore (policy d) = JNum 0.0 /\
     tier (policy d) = STANDARD /\ allowed d = true) /\
  COUNTRY_CII_OVERRIDES !! "XX" = None /\
  (forall a b, toUpperCase a = toUpperCase b ->
     getCiiScore scores a = getCiiScore scores b) /\
  (forall a, getCiiScore scores (toLowerCase a) = getCiiScore scores a /\
             getCiiScore scores (toUpperCase a) = getCiiScore scores a).
Proof.
  intros Habs.
  assert (H0 : getCiiScore scores cc = JNum 0.0)
    by (unfold getCiiScore; now rewrite Habs).
  split; [exact H0|]. split; [|split; [reflexivity|split]].
  - intros now req allowlist agentId Hcc d. subst d.
    cbn [policy allowed evaluateCiiTrustPolicy].
    rewrite Hcc, H0. repeat split.
  - intros a b Hab. unfold getCiiScore. now rewrite Hab.
  - intros a. unfold getCiiScore.
    now rewrite toUpperCase_toLowerCase, toUpperCase_idem.
Qed.

End TrustPolicyFacts.

(** C9 (runtime edge copy).  A request carrying only the CloudFlare header
    [cf-ipcountry: MM] is resolved by the edge copy to MM with the label
    [vercel_geo], the very label a primary-header answer gets; the
    canonical resolver answers the same request with [cf_geo]. *)
Theorem edge_copy_secondary_label (URL_hostname : string -> option string) :
  let secondary_only : gmap string string := {[ "cf-ipcountry" := "MM" ]} in
  let primary_only : gmap string string := {[ "x-vercel-ip-country" := "MM" ]} in
  EdgeCopy.resolveAgentCountry URL_hostname secondary_only None
  = {| countryCode := "MM"; source := vercel_geo |} /\
  source (EdgeCopy.resolveAgentCountry URL_hostname secondary_only None)
  = source (EdgeCopy.resolveAgentCountry URL_hostname primary_only None) /\
  resolveAgentCountry URL_hostname
    {| headers := secondary_only; agentCardUrl := None |}
  = {| countryCode := "MM"; source := cf_geo |}.
Proof. repeat split. Qed.

(** ** The repository's test suite (tests/cii-trust-policy.test.ts) on the
    model *)

Section TestSuite.

Abbreviation test_buildTrustPolicy := (buildTrustPolicy Sample.Number_toString).
Abbreviation test_resolveAgentCountry := (resolveAgentCountry Sample.URL_hostname).
Abbreviation test_evaluate :=
(evaluateCiiTrustPolicy Sample.Number_toString Sample.URL_hostname
   COUNTRY_CII_OVERRIDES "2026-02-27T00:00:00.000Z").

(** 1. CII score -> trust tier mapping *)
Example test_tier_mapping :
ciiScoreToTier (JNum 0) = STANDARD /\
ciiScoreToTier (JNum 34.0) = STANDARD /\
ciiScoreToTier (JNum 34.9) = ELEVATED /\
ciiScoreToTier (JNum 35.0) = ELEVATED /\
ciiScoreToTier (JNum 60.0) = ELEVATED /\
ciiScoreToTier (JNum 60.1) = CRITICAL /\
ciiScoreToTier (JNum 72.8) = CRITICAL /\
ciiScoreToTier (JNum 89.4) = CRITICAL /\
ciiScoreToTier (JNum 8.1) = STANDARD.
Proof. repeat split. Qed.

(** 2. Trust policy properties *)
Example test_policy_properties :
requireJWS (test_buildTrustPolicy "SG" (JNum 8.1)) = false /\
maxRequestsPerHour (test_buildTrustPolicy "ID" (JNum 22.1)) = 100 /\
requireJWS (test_buildTrustPolicy "PH" (JNum 38.2)) = true /\
deepInjectionScan (test_buildTrustPolicy "KH" (JNum 44.7)) = true /\
maxRequestsPerHour (test_buildTrustPolicy "LA" (JNum 35.9)) = 30 /\
requireAdminAllowlist (test_buildTrustPolicy "MM" (JNum 72.8)) = true /\
maxRequestsPerHour (test_buildTrustPolicy "PK" (JNum 61.7)) = 10 /\
errorCode (test_buildTrustPolicy "MM" (JNum 72.8)) = Some (-32050) /\
(fun m => includes m "MM") <$> errorMessage (test_buildTrustPolicy "MM" (JNum 72.8))
= Some true /\
auditLevel (test_buildTrustPolicy "AF" (JNum 89.4)) = forensic.
Proof. repeat split. Qed.

(** 3. Country CII score lookup *)
Example test_score_lookup :
getCiiScore COUNTRY_CII_OVERRIDES "MM" = JNum 72.8 /\
getCiiScore COUNTRY_CII_OVERRIDES "mm" = JNum 72.8 /\
getCiiScore COUNTRY_CII_OVERRIDES "SG" = JNum 8.1 /\
getCiiScore COUNTRY_CII_OVERRIDES "XX" = JNum 0.0 /\
ciiScoreToTier (getCiiScore COUNTRY_CII_OVERRIDES "PK") = CRITICAL /\
ciiScoreToTier (getCiiScore COUNTRY_CII_OVERRIDES "ID") = STANDARD.
Proof. repeat split. Qed.

(** 4. Policy decision engine *)
Example test_decision_engine :
let from (cc : string) : PolicyRequest :=
  {| headers := {[ "x-vercel-ip-country" := cc ]}; agentCardUrl := None |} in
let emptyAllowlist : gset string := ∅ in
let myanmarAllowlist : gset string := {[ "agent:ioh-myanmar-liaison" ]} in
allowed (test_evaluate (from "MM") emptyAllowlist "agent:unknown") = false /\
allowed (test_evaluate (from "MM") myanmarAllowlist "agent:ioh-myanmar-liaison")
= true /\
allowed (test_evaluate (from "SG") emptyAllowlist "agent:sentinel-sg") = true /\
tier (policy (test_evaluate (from "PH") emptyAllowlist "agent:qualys-ph"))
= ELEVATED /\
allowed (test_evaluate (from "PH") emptyAllowlist "agent:qualys-ph") = true /\
tier (policy (test_evaluate Sample.request_unknown emptyAllowlist "agent:anonymous"))
= STANDARD /\
decisionCountryCode
  (test_evaluate Sample.request_unknown emptyAllowlist "agent:anonymous") = "XX".
Proof. repeat split. Qed.

(** 5. Agent country resolution *)
Example test_country_resolution :
test_resolveAgentCountry
  {| headers := {[ "x-vercel-ip-country" := "MM"; "x-agent-country" := "SG" ]};
     agentCardUrl := None |}
= {| countryCode := "MM"; source := vercel_geo |} /\
test_resolveAgentCountry
  {| headers := ∅; agentCardUrl := Some "https://crowdstrike.com.mm/agent" |}
= {| countryCode := "MM"; source := tld |} /\
test_resolveAgentCountry
  {| headers := {[ "x-agent-country" := "PK" ]}; agentCardUrl := None |}
= {| countryCode := "PK"; source := self_reported |} /\
test_resolveAgentCountry Sample.request_unknown
= {| countryCode := "XX"; source := unknown |}.
Proof. repeat split. Qed.

(** 6. JSON-RPC rejection response *)
Example test_rejection_response :
let decision :=
  test_evaluate
    {| headers := {[ "x-vercel-ip-country" := "MM" ]}; agentCardUrl := None |}
    ∅ "agent:test" in
let response := buildCiiRejectionResponse (IdString "req-001") decision in
rejection_jsonrpc response = "2.0" /\
rejection_id response = IdString "req-001" /\
error_code (rejection_error response) = -32050 /\
data_ciiScore (error_data (rejection_error response)) = JNum 72.8 /\
data_tier (error_data (rejection_error response)) = CRITICAL.
Proof. repeat split. Qed.

End TestSuite.

(* ===================================================================== *)
(** * Properties of the JSON-RPC handler *)
(* ===================================================================== *)

(** ** The task map *)

Lemma assoc_cons {A : Type} (k : string) (e : string * A) (l : list (string * A)) :
  assoc k (e :: l) = if String.eqb (fst e) k then Some (snd e) else assoc k l.
Proof. unfold assoc. simpl. now destruct (String.eqb (fst e) k). Qed.

Lemma map_get_None (k : string) (m : TaskMap) :
  map_get k m = None <-> ~ In k (map fst m).
Proof.
  unfold map_get. induction m as [|[k' v] m IH]; [simpl; tauto|].
  rewrite assoc_cons. simpl. destruct (String.eqb_spec k' k) as [->|Hne].
  - split; [discriminate | intros H; exfalso; apply H; now left].
  - rewrite IH. tauto.
Qed.

Lemma map_get_app (k : string) (m1 m2 : TaskMap) :
  map_get k (m1 ++ m2)
  = match map_get k m1 with Some l => Some l | None => map_get k m2 end.
Proof.
  unfold map_get. induction m1 as [|e m1 IH]; [reflexivity|].
  rewrite <- app_comm_cons, !assoc_cons.
  now destruct (String.eqb (fst e) k).
Qed.

Lemma map_set_fresh (k : string) (v : loc) (m : TaskMap) :
  map_get k m = None -> map_set k v m = m ++ [(k, v)].
Proof.
  unfold map_get. induction m as [|e m IH]; [reflexivity|].
  rewrite assoc_cons. simpl. destruct (String.eqb (fst e) k); [discriminate|].
  intros H. now rewrite IH.
Qed.

Lemma map_set_length (k : string) (v : loc) (m : TaskMap) :
  (length (map_set k v m) <= S (length m))%nat.
Proof.
  induction m as [|e m IH]; simpl; [lia|].
  destruct (String.eqb (fst e) k); simpl; lia.
Qed.

(** [set] on a present key keeps every key at its place. *)
Lemma map_set_present (k : string) (v l : loc) (m : TaskMap) :
  map_get k m = Some l -> map fst (map_set k v m) = map fst m.
Proof.
  unfold map_get. induction m as [|e m IH]; [discriminate|].
  rewrite assoc_cons. simpl. destruct (String.eqb_spec (fst e) k) as [<-|Hne].
  - reflexivity.
  - intros E. simpl. now rewrite IH.
Qed.

Lemma map_set_keys_NoDup (k : string) (v : loc) (m : TaskMap) :
  NoDup (map fst m) -> NoDup (map fst (map_set k v m)).
Proof.
  intros H. destruct (map_get k m) as [l|] eqn:E.
  - now rewrite (map_set_present k v l m E).
  - rewrite (map_set_fresh k v m E), map_app. simpl.
    apply NoDup_app. split; [exact H|]. split; [|apply NoDup_singleton].
    intros x Hx [->|[]]%list_elem_of_In. apply map_get_None in E.
    apply E. now apply list_elem_of_In.
Qed.

Lemma map_delete_length (k : string) (m : TaskMap) :
  (length (map_delete k m) <= length m)%nat.
Proof.
  unfold map_delete. induction m as [|e m IH]; simpl; [lia|].
  destruct (negb (String.eqb (fst e) k)); simpl; lia.
Qed.

Lemma map_delete_absent (k : string) (m : TaskMap) :
  ~ In k (map fst m) -> map_delete k m = m.
Proof.
  unfold map_delete. induction m as [|e m IH]; [reflexivity|].
  simpl. intros H. destruct (String.eqb_spec (fst e) k) as [Heq|Hne].
  - exfalso. apply H. now left.
  - simpl. rewrite IH; [reflexivity|]. tauto.
Qed.

Lemma map_delete_head (k : string) (v : loc) (m : TaskMap) :
  NoDup (map fst ((k, v) :: m)) -> map_delete k ((k, v) :: m) = m.
Proof.
  simpl. intros H. apply NoDup_cons in H as [Hk _].
  unfold map_delete. simpl. rewrite String.eqb_refl. simpl.
  apply map_delete_absent. intros Hin. apply Hk. now apply list_elem_of_In.
Qed.

Lemma map_delete_keys_NoDup (k : string) (m : TaskMap) :
  NoDup (map fst m) -> NoDup (map fst (map_delete k m)).
Proof.
  unfold map_delete. induction m as [|e m IH]; [trivial|].
  simpl. intros H. apply NoDup_cons in H as [He Hm].
  destruct (negb (String.eqb (fst e) k)); simpl; [|auto].
  apply NoDup_cons. split; [|auto].
  intros Hin. apply He. apply list_elem_of_In in Hin. apply list_elem_of_In.
  apply in_map_iff in Hin as (x & Hx & Hf). apply filter_In in Hf as [Hf _].
  apply in_map_iff. eauto.
Qed.

Lemma map_get_set (k k' : string) (v : loc) (m : TaskMap) :
  map_get k' (map_set k v m)
  = if String.eqb k k' then Some v else map_get k' m.
Proof.
  unfold map_get. induction m as [|e m IH]; simpl.
  - rewrite assoc_cons. simpl. now destruct (String.eqb k k').
  - destruct (String.eqb_spec (fst e) k) as [He|He].
    + rewrite !assoc_cons. cbn [fst snd]. rewrite He.
      now destruct (String.eqb k k').
    + rewrite !assoc_cons. rewrite IH.
      destruct (String.eqb_spec (fst e) k') as [He'|He']; [|reflexivity].
      destruct (String.eqb_spec k k'); [congruence | reflexivity].
Qed.

Lemma map_get_delete (k k' : string) (m : TaskMap) (l : loc) :
  map_get k' (map_delete k m) = Some l -> map_get k' m = Some l.
Proof.
  unfold map_get, map_delete. induction m as [|e m IH]; [discriminate|].
  simpl. destruct (String.eqb_spec (fst e) k) as [He|He]; simpl.
  - intros H. rewrite assoc_cons.
    destruct (String.eqb_spec (fst e) k') as [He'|He']; [|now apply IH].
    exfalso. subst k k'. clear IH.
    induction m as [|e' m IH]; [discriminate|].
    simpl in H. destruct (String.eqb_spec (fst e') (fst e)) as [E|E]; simpl in H.
    + now apply IH.
    + rewrite assoc_cons in H.
      destruct (String.eqb_spec (fst e') (fst e)); [contradiction | now apply IH].
  - rewrite !assoc_cons. destruct (String.eqb (fst e) k'); [trivial | apply IH].
Qed.

Lemma map_get_prune (k : string) (m : TaskMap) (l : loc) :
  map_get k (prune m) = Some l -> map_get k m = Some l.
Proof.
  unfold prune. destruct (50 <? map_size m)%nat; [|trivial].
  destruct (map_first_key m); [|trivial]. apply map_get_delete.
Qed.

Lemma truthy_string_Some (v : option string) (s : string) :
  truthy_string v = Some s <-> v = Some s /\ s <> "".
Proof.
  destruct v as [x|]; simpl; [|split; [discriminate | intros [? _]; discriminate]].
  destruct (String.eqb_spec x ""); split.
  - discriminate.
  - intros [[= ->] ?]. contradiction.
  - intros [= ->]. now split.
  - now intros [[= ->] _].
Qed.

Lemma stored_Some (st : Store) (k : string) (t : Task) :
  stored st k = Some t <->
  exists l, map_get k (tasks st) = Some l /\ heap st !! l = Some t.
Proof.
  unfold stored. destruct (map_get k (tasks st)) as [l|]; simpl.
  - split; [eauto | now intros (? & [= <-] & ?)].
  - split; [discriminate | now intros (? & ? & ?)].
Qed.

Lemma terminalStates_spec (s : string) :
  existsb (String.eqb s) terminalStates = true <-> is_terminal s.
Proof.
  unfold terminalStates, is_terminal. simpl.
  rewrite !orb_true_iff, !String.eqb_eq. intuition discriminate.
Qed.

(** ** tasks/cancel *)

Lemma handleTasksCancel_missing_id (st : Store) (o : Oracle) (id : RpcId)
    (params : option Params) :
  truthy_string (params ≫= params_id) = None ->
  handleTasksCancel st o id params
  = (st, jsonRpcError id ERR_INVALID_PARAMS "Missing required field: params.id").
Proof. unfold handleTasksCancel. now intros ->. Qed.

Lemma handleTasksCancel_terminal (st : Store) (o : Oracle) (id : RpcId)
    (p : Params) (taskId : string) (t : Task) :
  params_id p = Some taskId -> taskId <> "" ->
  stored st taskId = Some t -> is_terminal (state (status t)) ->
  handleTasksCancel st o id (Some p)
  = (st, jsonRpcError id ERR_TASK_NOT_CANCELABLE
           ("Task " +:+ dquote +:+ taskId +:+ dquote
              +:+ " is in terminal state " +:+ dquote
              +:+ state (status t) +:+ dquote +:+ " and cannot be canceled")).
Proof.
  intros Hid Hne Hst Hterm.
  apply stored_Some in Hst as (l & Hl & Ht).
  unfold handleTasksCancel. cbn [mbind option_bind].
  assert (truthy_string (params_id p) = Some taskId) as ->
    by (apply truthy_string_Some; now split).
  rewrite Hl, Ht.
  apply terminalStates_spec in Hterm. now rewrite Hterm.
Qed.

Lemma handleTasksCancel_live (st : Store) (o : Oracle) (id : RpcId)
    (p : Params) (taskId : string) (t : Task) :
  params_id p = Some taskId -> taskId <> "" ->
  stored st taskId = Some t -> ~ is_terminal (state (status t)) ->
  exists st',
    handleTasksCancel st o id (Some p)
    = (st', jsonRpcSuccess id (write_canceled (now o) t)) /\
    tasks st' = tasks st /\
    stored st' taskId = Some (write_canceled (now o) t) /\
    length (heap st') = length (heap st) /\
    (forall l, map_get taskId (tasks st) <> Some l -> heap st' !! l = heap st !! l).
Proof.
  intros Hid Hne Hst Hlive.
  apply stored_Some in Hst as (l & Hl & Ht).
  unfold handleTasksCancel. cbn [mbind option_bind].
  assert (truthy_string (params_id p) = Some taskId) as ->
    by (apply truthy_string_Some; now split).
  rewrite Hl, Ht.
  destruct (existsb _ terminalStates) eqn:E.
  { apply terminalStates_spec in E. contradiction. }
  assert (Hrd : alter (write_canceled (now o)) l (heap st) !! l
                = Some (write_canceled (now o) t))
    by (rewrite list_lookup_alter_eq, Ht; reflexivity).
  rewrite Hrd.
  eexists. split; [reflexivity|]. cbn [tasks heap]. split; [reflexivity|].
  split; [|split].
  - unfold stored. cbn [tasks heap]. rewrite Hl. exact Hrd.
  - apply length_alter.
  - intros l' Hl'. apply list_lookup_alter_ne. congruence.
Qed.

Lemma handleTasksCancel_not_found (st : Store) (o : Oracle) (id : RpcId)
    (p : Params) (taskId : string) :
  params_id p = Some taskId -> taskId <> "" ->
  map_get taskId (tasks st) = None ->
  handleTasksCancel st o id (Some p)
  = (st, jsonRpcError id ERR_TASK_NOT_FOUND
           ("Task " +:+ dquote +:+ taskId +:+ dquote +:+ " not found")).
Proof.
  intros Hid Hne Hnone. unfold handleTasksCancel. cbn [mbind option_bind].
  assert (truthy_string (params_id p) = Some taskId) as ->
    by (apply truthy_string_Some; now split).
  now rewrite Hnone.
Qed.

(** C6.  For a cancel request carrying a task id (a non-empty
    [params.id]; a missing or empty one is answered with the invalid-params
    error before any lookup): a stored task in one of the states completed,
    canceled, failed, rejected is refused with the not-cancelable error and
    the store is left as it was; a stored task in any other state becomes
    canceled with the time of the request, after which a further cancel is
    refused with the not-cancelable error; an id that is not in the store
    gets the task-not-found error; the error codes differ from each
    other. *)
Theorem handleTasksCancel_lifecycle (st : Store) (o : Oracle) (id : RpcId)
    (p : Params) (taskId : string) :
  params_id p = Some taskId -> taskId <> "" ->
  (forall t, stored st taskId = Some t -> is_terminal (state (status t)) ->
     exists msg,
       handleTasksCancel st o id (Some p)
       = (st, jsonRpcError id ERR_TASK_NOT_CANCELABLE msg)) /\
  (forall t, stored st taskId = Some t -> ~ is_terminal (state (status t)) ->
     exists st' t',
       handleTasksCancel st o id (Some p) = (st', jsonRpcSuccess id t') /\
       t' = write_canceled (now o) t /\
       state (status t') = "canceled" /\ timestamp (status t') = now o /\
       tasks st' = tasks st /\ stored st' taskId = Some t' /\
       forall o2 id2, exists msg,
         handleTasksCancel st' o2 id2 (Some p)
         = (st', jsonRpcError id2 ERR_TASK_NOT_CANCELABLE msg)) /\
  (map_get taskId (tasks st) = None ->
     exists msg,
       handleTasksCancel st o id (Some p)
       = (st, jsonRpcError id ERR_TASK_NOT_FOUND msg)) /\
  (forall params,
     truthy_string (params ≫= params_id) = None ->
     exists msg,
       handleTasksCancel st o id params
       = (st, jsonRpcError id ERR_INVALID_PARAMS msg)) /\
  ERR_TASK_NOT_FOUND <> ERR_TASK_NOT_CANCELABLE /\
  ERR_TASK_NOT_FOUND <> ERR_INVALID_PARAMS /\
  ERR_TASK_NOT_CANCELABLE <> ERR_INVALID_PARAMS.
Proof.
  intros Hid Hne. repeat split; try discriminate.
  4:{ intros params Hmissing. eexists.
      now apply handleTasksCancel_missing_id. }
  - intros t Hst Hterm. eexists.
    eapply handleTasksCancel_terminal; eassumption.
  - intros t Hst Hlive.
    destruct (handleTasksCancel_live st o id p taskId t Hid Hne Hst Hlive)
      as (st' & Hrun & Htasks & Hst' & _).
    exists st', (write_canceled (now o) t). repeat split; try assumption.
    intros o2 id2. eexists.
    eapply handleTasksCancel_terminal; try eassumption.
    right. now left.
  - intros Hnone. eexists. eapply handleTasksCancel_not_found; eassumption.
Qed.

(** ** tasks/get *)

Lemma get_heap_frame (h : list Task) (t : Task) (hl : option number) (l : nat) :
  (l < length h)%nat ->
  match hl with
  | Some (JNum q) =>
      if Qeq_bool q 0 then alter delete_history (length h) (h ++ [t])
      else h ++ [t]
  | _ => h ++ [t]
  end !! l = h !! l.
Proof.
  intros Hl.
  assert (Happ : (h ++ [t]) !! l = h !! l) by now apply lookup_app_l.
  destruct hl as [[| |q]|]; try exact Happ.
  destruct (Qeq_bool q 0); [|exact Happ].
  rewrite list_lookup_alter_ne by lia. exact Happ.
Qed.

Lemma get_heap_result (h : list Task) (t : Task) (hl : option number) :
  match hl with
  | Some (JNum q) =>
      if Qeq_bool q 0 then alter delete_history (length h) (h ++ [t])
      else h ++ [t]
  | _ => h ++ [t]
  end !! length h
  = Some match hl with
         | Some (JNum q) => if Qeq_bool q 0 then delete_history t else t
         | _ => t
         end.
Proof.
  assert (Happ : (h ++ [t]) !! length h = Some t) by apply list_lookup_middle, eq_refl.
  destruct hl as [[| |q]|]; try exact Happ.
  destruct (Qeq_bool q 0); [|exact Happ].
  now rewrite list_lookup_alter_eq, Happ.
Qed.

Lemma handleTasksGet_frame (st : Store) (id : RpcId) (params : option Params) :
  let st' := fst (handleTasksGet st id params) in
  tasks st' = tasks st /\
  (forall l, (l < length (heap st))%nat -> heap st' !! l = heap st !! l).
Proof.
  unfold handleTasksGet.
  destruct (truthy_string (params ≫= params_id)) as [taskId|]; [|now split].
  destruct (map_get taskId (tasks st)) as [l|]; [|now split].
  destruct (heap st !! l) as [task|] eqn:Ht; [|now split].
  unfold alloc. rewrite get_heap_result. cbn [fst tasks heap].
  split; [reflexivity|]. intros l' Hl'. now apply get_heap_frame.
Qed.

Lemma handleTasksGet_stored (st : Store) (id : RpcId) (p : Params)
    (taskId : string) (t : Task) :
  params_id p = Some taskId -> taskId <> "" -> stored st taskId = Some t ->
  snd (handleTasksGet st id (Some p))
  = jsonRpcSuccess id
      match params_historyLength p with
      | Some (JNum q) => if Qeq_bool q 0 then delete_history t else t
      | _ => t
      end.
Proof.
  intros Hid Hne Hst. apply stored_Some in Hst as (l & Hl & Ht).
  unfold handleTasksGet. cbn [mbind option_bind].
  assert (truthy_string (params_id p) = Some taskId) as ->
    by (apply truthy_string_Some; now split).
  rewrite Hl, Ht. unfold alloc. now rewrite get_heap_result.
Qed.

(** C10.  [tasks/get] leaves the task map and every object of the heap as
    they were (it only adds the copy it returns); with [historyLength]
    equal to 0 the answer is the stored task without its history while the
    stored task keeps it, so a later [tasks/get] that does not suppress the
    history returns the stored task whole. *)
Theorem handleTasksGet_does_not_mutate (st : Store) (id : RpcId)
    (params : option Params) :
  let st' := fst (handleTasksGet st id params) in
  tasks st' = tasks st /\
  (forall l, (l < length (heap st))%nat -> heap st' !! l = heap st !! l) /\
  (forall k t, stored st k = Some t -> stored st' k = Some t) /\
  (forall p taskId t,
     params = Some p -> params_id p = Some taskId -> taskId <> "" ->
     stored st taskId = Some t ->
     (suppresses_history p ->
        snd (handleTasksGet st id params) = jsonRpcSuccess id (delete_history t)) /\
     (~ suppresses_history p ->
        snd (handleTasksGet st id params) = jsonRpcSuccess id t) /\
     (forall id2 p2,
        params_id p2 = Some taskId -> ~ suppresses_history p2 ->
        snd (handleTasksGet st' id2 (Some p2)) = jsonRpcSuccess id2 t)).
Proof.
  intros st'.
  destruct (handleTasksGet_frame st id params) as [Htasks Hheap].
  fold st' in Htasks, Hheap.
  assert (Hstored : forall k t, stored st k = Some t -> stored st' k = Some t).
  { intros k t (l & Hl & Ht)%stored_Some. apply stored_Some. exists l.
    rewrite Htasks. split; [exact Hl|].
    rewrite Hheap; [exact Ht|]. now apply lookup_lt_Some in Ht. }
  assert (Hread : forall s i q tid t,
            params_id q = Some tid -> tid <> "" -> stored s tid = Some t ->
            (suppresses_history q ->
               snd (handleTasksGet s i (Some q)) = jsonRpcSuccess i (delete_history t)) /\
            (~ suppresses_history q ->
               snd (handleTasksGet s i (Some q)) = jsonRpcSuccess i t)).
  { intros s i q tid t Hid Hne Hst.
    rewrite (handleTasksGet_stored s i q tid t Hid Hne Hst).
    unfold suppresses_history. split.
    - intros (x & -> & Hx). apply Qeq_bool_iff in Hx. now rewrite Hx.
    - intros Hno. destruct (params_historyLength q) as [[| |x]|]; try reflexivity.
      destruct (Qeq_bool x 0) eqn:E; [|reflexivity].
      exfalso. apply Hno. exists x. split; [reflexivity|].
      now apply Qeq_bool_iff. }
  split; [exact Htasks|]. split; [exact Hheap|]. split; [exact Hstored|].
  intros p taskId t -> Hid Hne Hst.
  destruct (Hread st id p taskId t Hid Hne Hst) as [H0 H1].
  split; [exact H0|]. split; [exact H1|].
  intros id2 p2 Hid2 Hno.
  now apply (Hread st' id2 p2 taskId t Hid2 Hne (Hstored _ _ Hst)).
Qed.

(** ** message/send and the size of the store *)

Section HandlerFacts.

Variable generateAgentResponse : option string -> string -> string -> string.

Abbreviation handleMessageSend := (handleMessageSend generateAgentResponse).
Abbreviation handler := (handler generateAgentResponse).
Abbreviation reachable := (reachable generateAgentResponse).

(** What a successful [message/send] does to the store. *)
Lemma handleMessageSend_success (st st' : Store) (o : Oracle) (id id' : RpcId)
    (params : option Params) (t : Task) :
  handleMessageSend st o id params = (st', jsonRpcSuccess id' t) ->
  heap st' = heap st ++ [t] /\
  tasks st' = prune (map_set (task_id t) (length (heap st)) (tasks st)).
Proof.
  unfold handleMessageSend.
  destruct (params ≫= params_message) as [message|]; [|discriminate].
  destruct (msg_parts message) as [[|part rest]|]; try discriminate.
  destruct (match truthy_string (msg_role message) with
            | Some r => negb (String.eqb r "user") | None => false end);
    [discriminate|].
  destruct (message_text _) as [userText|]; [|discriminate].
  destruct (String.eqb _ ""); [discriminate|].
  destruct (agentId_of _) as [agentId|]; [|discriminate].
  unfold alloc. intros [= <- <- <-]. cbn [heap tasks task_id]. now split.
Qed.

(** Anything but a successful [message/send] leaves the task map alone. *)
Lemma handleMessageSend_failure (st : Store) (o : Oracle) (id : RpcId)
    (params : option Params) :
  (forall id' t, snd (handleMessageSend st o id params) <> jsonRpcSuccess id' t) ->
  fst (handleMessageSend st o id params) = st.
Proof.
  unfold handleMessageSend.
  destruct (params ≫= params_message) as [message|]; [|reflexivity].
  destruct (msg_parts message) as [[|part rest]|]; try reflexivity.
  destruct (match truthy_string (msg_role message) with
            | Some r => negb (String.eqb r "user") | None => false end);
    [reflexivity|].
  destruct (message_text _) as [userText|]; [|reflexivity].
  destruct (String.eqb _ ""); [reflexivity|].
  destruct (agentId_of _) as [agentId|]; [|reflexivity].
  unfold alloc. cbn [fst snd]. intros H. exfalso. eapply H. reflexivity.
Qed.

Lemma prune_size (m : TaskMap) :
  (map_size m <= 51)%nat -> (map_size (prune m) <= 50)%nat.
Proof.
  unfold prune, map_size. intros H.
  destruct (Nat.ltb_spec 50 (length m)) as [Hbig|]; [|lia].
  destruct m as [|[k v] m]; simpl in *; [lia|].
  unfold map_delete. simpl. rewrite String.eqb_refl. simpl.
  pose proof (map_delete_length k m) as Hd. unfold map_delete in Hd. lia.
Qed.

Lemma prune_keys_NoDup (m : TaskMap) :
  NoDup (map fst m) -> NoDup (map fst (prune m)).
Proof.
  unfold prune. intros H.
  destruct (50 <? map_size m)%nat; [|exact H].
  destruct (map_first_key m); [|exact H].
  now apply map_delete_keys_NoDup.
Qed.

(** A well-formed POST reaches the handler of its method. *)
Lemma handler_dispatch (st : Store) (o : Oracle) (b : Body) (id : RpcId) :
  jsonrpc b = Some "2.0" -> body_id b = Some id ->
  (method b = Some "message/send" ->
     handler st o "POST" (Some b) = handleMessageSend st o id (params b)) /\
  (method b = Some "tasks/get" ->
     handler st o "POST" (Some b) = handleTasksGet st id (params b)) /\
  (method b = Some "tasks/cancel" ->
     handler st o "POST" (Some b) = handleTasksCancel st o id (params b)).
Proof.
  intros Hv Hid. unfold handler. cbn [String.eqb Ascii.eqb Bool.eqb negb].
  rewrite Hv, Hid. repeat split; intros ->; reflexivity.
Qed.

(** A request leaves the task map as it was, or sets one key and
    prunes. *)
Lemma handleMessageSend_tasks (st : Store) (o : Oracle) (id : RpcId)
    (params : option Params) :
  tasks (fst (handleMessageSend st o id params)) = tasks st \/
  exists k l,
    tasks (fst (handleMessageSend st o id params))
    = prune (map_set k l (tasks st)).
Proof.
  destruct (handleMessageSend st o id params) as [st' r] eqn:E.
  destruct r as [id' t|i c m|c|e].
  - right. apply handleMessageSend_success in E as [_ Ht]. eauto.
  - left. rewrite <- E, handleMessageSend_failure; [reflexivity|].
    rewrite E. discriminate.
  - left. rewrite <- E, handleMessageSend_failure; [reflexivity|].
    rewrite E. discriminate.
  - left. rewrite <- E, handleMessageSend_failure; [reflexivity|].
    rewrite E. discriminate.
Qed.

Lemma handleTasksCancel_tasks (st : Store) (o : Oracle) (id : RpcId)
    (params : option Params) :
  tasks (fst (handleTasksCancel st o id params)) = tasks st.
Proof.
  unfold handleTasksCancel.
  destruct (truthy_string (params ≫= params_id)) as [taskId|]; [|reflexivity].
  destruct (map_get taskId (tasks st)) as [l|]; [|reflexivity].
  destruct (heap st !! l) as [task|]; [|reflexivity].
  destruct (existsb _ terminalStates); [reflexivity|].
  now destruct (alter _ l (heap st) !! l).
Qed.

Lemma handler_tasks (st : Store) (o : Oracle) (http_method : string)
    (body : option Body) :
  tasks (fst (handler st o http_method body)) = tasks st \/
  exists k l,
    tasks (fst (handler st o http_method body))
    = prune (map_set k l (tasks st)).
Proof.
  unfold handler.
  destruct (String.eqb http_method "OPTIONS"); [now left|].
  destruct (negb (String.eqb http_method "POST")); [now left|].
  destruct body as [b|]; [|now left].
  destruct (jsonrpc b) as [v|]; [|now left].
  destruct (truthy_string (method b)) as [m|]; [|now left].
  destruct (body_id b) as [id|]; [|now left].
  destruct (negb (String.eqb v "2.0")); [now left|].
  destruct (String.eqb m "message/send"); [apply handleMessageSend_tasks|].
  destruct (String.eqb m "tasks/get").
  { left. apply (proj1 (handleTasksGet_frame st id (params b))). }
  destruct (String.eqb m "tasks/cancel").
  { left. apply handleTasksCancel_tasks. }
  destruct (String.eqb m "message/stream"); [now left|].
  destruct (String.eqb m "tasks/resubscribe"); [now left|].
  now destruct (existsb _ _); left.
Qed.

Lemma handler_size (st : Store) (o : Oracle) (http_method : string)
    (body : option Body) :
  (map_size (tasks st) <= 50)%nat ->
  (map_size (tasks (fst (handler st o http_method body))) <= 50)%nat.
Proof.
  intros Hsize.
  destruct (handler_tasks st o http_method body) as [->|(k & l & ->)];
    [exact Hsize|].
  apply prune_size. pose proof (map_set_length k l (tasks st)).
  unfold map_size in *. lia.
Qed.

Lemma handler_keys_NoDup (st : Store) (o : Oracle) (http_method : string)
    (body : option Body) :
  NoDup (map fst (tasks st)) ->
  NoDup (map fst (tasks (fst (handler st o http_method body)))).
Proof.
  intros Hdup.
  destruct (handler_tasks st o http_method body) as [->|(k & l & ->)];
    [exact Hdup|].
  now apply prune_keys_NoDup, map_set_keys_NoDup.
Qed.

Lemma reachable_ok (st : Store) : reachable st -> store_ok st.
Proof.
  induction 1 as [|st o m b _ [Hsize Hdup]].
  - split; [simpl; lia | constructor].
  - split; [now apply handler_size | now apply handler_keys_NoDup].
Qed.

(** Tasks are created completed and the only later write makes them
    canceled, so a store the handler has built holds terminal tasks
    only. *)
Lemma handler_all_terminal (st : Store) (o : Oracle) (http_method : string)
    (body : option Body) :
  all_terminal st -> all_terminal (fst (handler st o http_method body)).
Proof.
  intros Hall. unfold handler.
  destruct (String.eqb http_method "OPTIONS"); [exact Hall|].
  destruct (negb (String.eqb http_method "POST")); [exact Hall|].
  destruct body as [b|]; [|exact Hall].
  destruct (jsonrpc b) as [v|]; [|exact Hall].
  destruct (truthy_string (method b)) as [m|]; [|exact Hall].
  destruct (body_id b) as [id|]; [|exact Hall].
  destruct (negb (String.eqb v "2.0")); [exact Hall|].
  destruct (String.eqb m "message/send").
  { destruct (handleMessageSend st o id (params b)) as [st' r] eqn:E.
    destruct r as [id' t|i c msg|c|e];
      try (rewrite <- E, handleMessageSend_failure;
           [exact Hall | rewrite E; discriminate]).
    pose proof E as Hnew. apply handleMessageSend_success in E as [Hheap Htasks].
    assert (Hdone : state (status t) = "completed").
    { clear - Hnew. unfold handleMessageSend in Hnew.
      destruct (params b ≫= params_message) as [message|]; [|discriminate].
      destruct (msg_parts message) as [[|part rest]|]; try discriminate.
      destruct (match truthy_string (msg_role message) with
                | Some r => negb (String.eqb r "user") | None => false end);
        [discriminate|].
      destruct (message_text _) as [userText|]; [|discriminate].
      destruct (String.eqb _ ""); [discriminate|].
      destruct (agentId_of _) as [agentId|]; [|discriminate].
      unfold alloc in Hnew. now injection Hnew as _ _ <-. }
    intros k l Hk. cbn [fst] in Hk |- *. rewrite Htasks in Hk.
    apply map_get_prune in Hk. rewrite map_get_set in Hk. rewrite Hheap.
    destruct (String.eqb (task_id t) k).
    - injection Hk as <-. exists t. split; [now apply list_lookup_middle|].
      now left.
    - destruct (Hall k l Hk) as (t0 & Ht0 & Hterm). exists t0.
      split; [|exact Hterm]. rewrite lookup_app_l; [exact Ht0|].
      now apply lookup_lt_Some in Ht0. }
  destruct (String.eqb m "tasks/get").
  { destruct (handleTasksGet_frame st id (params b)) as [Htasks Hheap].
    intros k l Hk. rewrite Htasks in Hk.
    destruct (Hall k l Hk) as (t0 & Ht0 & Hterm). exists t0.
    split; [|exact Hterm]. rewrite Hheap; [exact Ht0|].
    now apply lookup_lt_Some in Ht0. }
  destruct (String.eqb m "tasks/cancel").
  { intros k l Hk. rewrite handleTasksCancel_tasks in Hk.
    destruct (Hall k l Hk) as (t0 & Ht0 & Hterm).
    unfold handleTasksCancel.
    destruct (truthy_string (params b ≫= params_id)) as [taskId|]; [|eauto].
    destruct (map_get taskId (tasks st)) as [l'|] eqn:El'; [|eauto].
    destruct (Hall taskId l' El') as (t1 & Ht1 & Hterm1). rewrite Ht1.
    apply terminalStates_spec in Hterm1. rewrite Hterm1. eauto. }
  destruct (String.eqb m "message/stream"); [exact Hall|].
  destruct (String.eqb m "tasks/resubscribe"); [exact Hall|].
  now destruct (existsb _ _).
Qed.

Lemma reachable_all_terminal (st : Store) : reachable st -> all_terminal st.
Proof.
  induction 1 as [|st o m b _ IH].
  - intros k l Hk. discriminate.
  - now apply handler_all_terminal.
Qed.

(** C7.  A reachable store never holds more than 50 tasks, and no request
    takes a store of at most 50 tasks beyond 50.  When a successful
    [message/send] stores its task under an id that is not yet a key of
    a full store (50 entries), the first entry of the map in insertion
    order is the one dropped: the map becomes the remaining 49 entries,
    in their order and with their objects untouched, followed by the new
    task.  Reading or cancelling a task does not move it in that order,
    and neither does a [message/send] that re-uses a present key. *)
Theorem task_store_capacity :
  (forall st, reachable st -> (map_size (tasks st) <= 50)%nat) /\
  (forall st o http_method body,
     (map_size (tasks st) <= 50)%nat ->
     (map_size (tasks (fst (handler st o http_method body))) <= 50)%nat) /\
  (forall st st' o id id' params t,
     NoDup (map fst (tasks st)) ->
     map_size (tasks st) = 50%nat ->
     handleMessageSend st o id params = (st', jsonRpcSuccess id' t) ->
     map_get (task_id t) (tasks st) = None ->
     exists oldest l0 rest,
       tasks st = (oldest, l0) :: rest /\
       tasks st' = rest ++ [(task_id t, length (heap st))] /\
       heap st' = heap st ++ [t] /\
       map_size (tasks st') = 50%nat /\
       stored st' oldest = None /\
       stored st' (task_id t) = Some t /\
       (forall k t0, k <> oldest -> stored st k = Some t0 ->
                     stored st' k = Some t0)) /\
  (forall st o id params,
     tasks (fst (handleTasksGet st id params)) = tasks st /\
     tasks (fst (handleTasksCancel st o id params)) = tasks st) /\
  (forall st st' o id id' params t l,
     (map_size (tasks st) <= 50)%nat ->
     handleMessageSend st o id params = (st', jsonRpcSuccess id' t) ->
     map_get (task_id t) (tasks st) = Some l ->
     map fst (tasks st') = map fst (tasks st)).
Proof.
  split; [|split; [|split; [|split]]].
  4:{ intros st o id params. split.
      - apply (proj1 (handleTasksGet_frame st id params)).
      - apply handleTasksCancel_tasks. }
  4:{ intros st st' o id id' params t l Hsize Hrun Hpresent.
      apply handleMessageSend_success in Hrun as [_ Htasks].
      pose proof (map_set_present (task_id t) (length (heap st)) l _ Hpresent)
        as Hkeys.
      rewrite Htasks. unfold prune, map_size in *.
      assert (length (map_set (task_id t) (length (heap st)) (tasks st))
              = length (tasks st)) as Hlen
        by (rewrite <- (length_map fst), Hkeys; apply length_map).
      rewrite Hlen.
      destruct (Nat.ltb_spec 50 (length (tasks st))); [lia | exact Hkeys]. }
  - intros st Hr. now apply reachable_ok.
  - intros st o m b Hsize. now apply handler_size.
  - intros st st' o id id' params t Hdup Hsize Hrun Hfresh.
    apply handleMessageSend_success in Hrun as [Hheap Htasks].
    rewrite (map_set_fresh _ _ _ Hfresh) in Htasks.
    destruct (tasks st) as [|[oldest l0] rest] eqn:Est; [discriminate|].
    exists oldest, l0, rest.
    assert (Hst' : tasks st' = rest ++ [(task_id t, length (heap st))]).
    { rewrite Htasks. unfold prune, map_size in *.
      rewrite length_app. simpl in *.
      destruct (Nat.ltb_spec 50 (S (length rest + 1))) as [_|]; [|lia].
      change (((oldest, l0) :: rest) ++ [(task_id t, length (heap st))])
        with ((oldest, l0) :: (rest ++ [(task_id t, length (heap st))])).
      cbn [map_first_key head fmap option_fmap option_map fst].
      apply map_delete_head. simpl. rewrite map_app. simpl.
      apply map_get_None in Hfresh. simpl in Hfresh.
      apply NoDup_cons in Hdup as [Hold Hrest].
      apply NoDup_cons. split.
      - rewrite list_elem_of_In, in_app_iff. simpl.
        rewrite list_elem_of_In in Hold. intros [?|[?|[]]]; [tauto|].
        apply Hfresh. now left.
      - apply NoDup_app. split; [exact Hrest|]. split; [|apply NoDup_singleton].
        intros x Hx [<-|[]]%list_elem_of_In. apply Hfresh. right.
        now apply list_elem_of_In. }
    assert (Hkey : task_id t <> oldest).
    { apply map_get_None in Hfresh. simpl in Hfresh. intros Heq.
      apply Hfresh. now left. }
    assert (Hold : map_get oldest rest = None).
    { apply map_get_None. simpl in Hdup. apply NoDup_cons in Hdup as [Hold _].
      now rewrite <- list_elem_of_In. }
    assert (Hnew : map_get (task_id t) rest = None).
    { apply map_get_None. apply map_get_None in Hfresh. simpl in Hfresh. tauto. }
    repeat split; try assumption.
    + unfold map_size in *. rewrite Hst', length_app. simpl in *. lia.
    + unfold stored. rewrite Hst', map_get_app, Hold.
      unfold map_get. rewrite assoc_cons. cbn [fst snd].
      destruct (String.eqb_spec (task_id t) oldest); [contradiction|reflexivity].
    + unfold stored. rewrite Hst', map_get_app, Hnew.
      unfold map_get. rewrite assoc_cons. cbn [fst snd].
      rewrite String.eqb_refl. cbn [mbind option_bind].
      rewrite Hheap. now apply list_lookup_middle.
    + intros k t0 Hk (l & Hl & Ht0)%stored_Some. apply stored_Some. exists l.
      rewrite Est in Hl.
      unfold map_get in Hl. rewrite assoc_cons in Hl. cbn [fst snd] in Hl.
      destruct (String.eqb_spec oldest k); [congruence|].
      split.
      * rewrite Hst', map_get_app. unfold map_get at 1. now rewrite Hl.
      * rewrite Hheap. rewrite lookup_app_l; [exact Ht0|].
        now apply lookup_lt_Some in Ht0.
Qed.

End HandlerFacts.

(** ** Skill routing *)

Lemma step_Seq (ci : bool) (r1 r2 : regex) (x y z : pos) :
  In y (step ci r1 x) -> In z (step ci r2 y) -> In z (step ci (Seq r1 r2) x).
Proof. intros Hy Hz. cbn [step]. apply in_flat_map. eauto. Qed.

Lemma matches_at_In (ci : bool) (r : regex) (x y : pos) :
  In y (step ci r x) -> matches_at ci r x = true.
Proof. unfold matches_at. now destruct (step ci r x). Qed.

Lemma test_from_skip (ci : bool) (r : regex) (pre s : string) (prev : option ascii) :
  matches_at ci r (last_char prev pre, s) = true ->
  test_from ci r prev (pre +:+ s) = true.
Proof.
  revert prev. induction pre as [|a pre IH]; intros prev H.
  - simpl in *. destruct s; simpl; now rewrite H.
  - simpl. rewrite (IH (Some a) H). apply orb_true_r.
Qed.

Lemma is_digit_word (a : ascii) : is_digit a = true -> is_word a = true.
Proof.
  unfold is_word, is_digit. intros ->. now rewrite orb_true_r.
Qed.

Lemma digit_group_first (a rest : string) :
  digit_group a -> is_word_at (next_char (a +:+ rest)) = true.
Proof.
  intros [[Hlen _] Hd]. destruct a as [|c a]; simpl in *; [lia|].
  apply andb_true_iff in Hd as [Hc _]. now apply is_digit_word.
Qed.

Lemma digit_group_last (a : string) (p : option ascii) :
  digit_group a -> is_word_at (last_char p a) = true.
Proof.
  intros [[Hlen _] Hd]. destruct a as [|c a]; simpl in *; [lia|].
  apply andb_true_iff in Hd as [Hc Hd]. apply is_digit_word in Hc.
  clear Hlen. revert c Hc. induction a as [|c' a IH]; intros c Hc; simpl in *.
  - exact Hc.
  - apply andb_true_iff in Hd as [Hc' Hd]. apply IH; [exact Hd|].
    now apply is_digit_word.
Qed.

Lemma iter_exact_add (f : pos -> list pos) (a b : nat) (xs : list pos) :
  iter_exact f (a + b) xs = iter_exact f b (iter_exact f a xs).
Proof.
  revert xs. induction a as [|a IH]; intros xs; [reflexivity|].
  simpl. apply IH.
Qed.

Lemma iter_upto_exact (f : pos -> list pos) (k m : nat) (xs : list pos) (y : pos) :
  (k <= m)%nat -> In y (iter_exact f k xs) -> In y (iter_upto f m xs).
Proof.
  revert k xs. induction m as [|m IH]; intros k xs Hk Hy.
  - assert (k = 0%nat) as -> by lia. exact Hy.
  - simpl. apply in_or_app. destruct k as [|k]; [now left|].
    right. apply (IH k); [lia | exact Hy].
Qed.

Lemma step_Rep (ci : bool) (r : regex) (lo hi n : nat) (x y : pos) :
  (lo <= n <= hi)%nat ->
  In y (iter_exact (step ci r) n [x]) -> In y (step ci (Rep r lo hi) x).
Proof.
  intros Hn Hy. cbn [step].
  apply (iter_upto_exact _ (n - lo)); [lia|].
  rewrite <- iter_exact_add. now replace (lo + (n - lo))%nat with n by lia.
Qed.

Lemma step_Cls (ci : bool) (p : ascii -> bool) (c : ascii) (s : string)
    (prev : option ascii) :
  cls_has ci p c = true -> step ci (Cls p) (prev, String c s) = [(Some c, s)].
Proof. intros H. cbn [step snd]. now rewrite H. Qed.

Lemma all_digits_iter (a rest : string) (p : option ascii) :
  all_digits a = true ->
  In (last_char p a, rest)
     (iter_exact (step false (Cls is_digit)) (String.length a) [(p, a +:+ rest)]).
Proof.
  revert p. induction a as [|c a IH]; intros p Hd; [now left|].
  simpl in Hd. apply andb_true_iff in Hd as [Hc Hd].
  cbn [String.length iter_exact flat_map last_char].
  change (String c a +:+ rest) with (String c (a +:+ rest)).
  rewrite step_Cls by exact Hc. now apply IH.
Qed.

Lemma digit_group_step (a rest : string) (p : option ascii) :
  digit_group a ->
  In (last_char p a, rest) (step false (Rep (Cls is_digit) 1 3) (p, a +:+ rest)).
Proof.
  intros [Hlen Hd]. apply (step_Rep _ _ _ _ (String.length a)); [exact Hlen|].
  now apply all_digits_iter.
Qed.

Lemma step_dot (rest : string) (p : option ascii) :
  In (Some "."%char, rest) (step false (Chr ".") (p, "." +:+ rest)).
Proof. now left. Qed.

Lemma step_boundary (ci : bool) (x : pos) :
  xorb (is_word_at (fst x)) (is_word_at (next_char (snd x))) = true ->
  In x (step ci WordBoundary x).
Proof. intros H. cbn [step]. rewrite H. now left. Qed.

(** The IPv4 pattern finds every IPv4-shaped token. *)
Lemma re_ipv4_complete (text : string) :
  contains_ipv4_token text -> test false re_ipv4 text = true.
Proof.
  intros (pre & a & b & c & d & post & -> & Ha & Hb & Hc & Hd & Hpre & Hpost).
  apply test_from_skip.
  set (p0 := last_char None pre) in *.
  set (p1 := last_char p0 a).
  set (p2 := last_char (Some "."%char) b).
  set (p3 := last_char (Some "."%char) c).
  set (p4 := last_char (Some "."%char) d).
  apply (matches_at_In _ _ _ (p4, post)).
  unfold re_ipv4. cbn [seqs].
  eapply step_Seq.
  { apply step_boundary. cbn [fst snd]. rewrite Hpre.
    now rewrite (digit_group_first a _ Ha). }
  eapply step_Seq; [now apply digit_group_step|].
  eapply step_Seq; [apply step_dot|].
  eapply step_Seq; [now apply digit_group_step|].
  eapply step_Seq; [apply step_dot|].
  eapply step_Seq; [now apply digit_group_step|].
  eapply step_Seq; [apply step_dot|].
  eapply step_Seq; [now apply digit_group_step|].
  apply step_boundary. cbn [fst snd]. fold p4. unfold p4.
  now rewrite (digit_group_last d _ Hd), Hpost.
Qed.

Lemma routeToAgent_ipv4 (text : string) (metadata : option Metadata) :
  explicit_skill metadata = None -> contains_ipv4_token text ->
  routeToAgent text metadata
  = {| route_skillId := "ioc-lookup"; route_agent := Agent "IOC" "IOC Scanner" |}.
Proof.
  intros Hno Hip. apply re_ipv4_complete in Hip.
  unfold routeToAgent. now rewrite Hno, Hip.
Qed.

(** The lookup [SKILL_MAP[sid]] finds the members the object inherits. *)
Lemma SKILL_MAP_member (sid : string) :
  In sid Object_prototype_members -> SKILL_MAP sid = Some (Inherited sid).
Proof.
  unfold Object_prototype_members. cbn [In].
  intros H. repeat (destruct H as [<-|H]; [reflexivity|]). destruct H.
Qed.

Lemma routeToAgent_member (text sid : string) (metadata : option Metadata) :
  metadata ≫= skillId = Some sid -> In sid Object_prototype_members ->
  routeToAgent text metadata
  = {| route_skillId := sid; route_agent := Inherited sid |}.
Proof.
  intros Hsid Hin. unfold routeToAgent, explicit_skill. rewrite Hsid.
  assert (truthy_string (Some sid) = Some sid) as ->.
  { apply truthy_string_Some. split; [reflexivity|]. intros ->.
    revert Hin. unfold Object_prototype_members. cbn [In].
    intuition discriminate. }
  now rewrite (SKILL_MAP_member sid Hin).
Qed.

Section RoutingFacts.

Variable generateAgentResponse : option string -> string -> string -> string.

(** What [message/send] does with a message that passes the structural
  checks and has the non-empty text [userText]: it stores a task that
  records the route [routeToAgent] picks, unless the routed agent has no
  [agentId], in which case [agent.agentId.toLowerCase()] throws. *)
Lemma handleMessageSend_routed (st : Store) (o : Oracle) (id : RpcId)
  (p : Params) (message : Message) (message_parts : list (option Part))
  (userText : string) :
params_message p = Some message ->
msg_parts message = Some message_parts -> message_parts <> [] ->
(forall r, msg_role message = Some r -> r = "" \/ r = "user") ->
message_text message_parts = Some userText -> userText <> "" ->
let route := routeToAgent userText (params_metadata p) in
match agentId_of (route_agent route) with
| None =>
    handleMessageSend generateAgentResponse st o id (Some p)
    = (st, Thrown "TypeError")
| Some agentId =>
    exists st' t,
      handleMessageSend generateAgentResponse st o id (Some p)
      = (st', jsonRpcSuccess id t) /\
      gatraSkill (task_metadata t) = route_skillId route /\
      gatraAgent (task_metadata t) = agentId
end.
Proof.
intros Hm Hp Hne Hrole Htext Hnonempty route. subst route.
unfold handleMessageSend. cbn [mbind option_bind]. rewrite Hm, Hp.
destruct message_parts as [|part rest]; [congruence|].
assert (match truthy_string (msg_role message) with
        | Some r => negb (String.eqb r "user") | None => false end = false)
  as ->.
{ destruct (truthy_string (msg_role message)) as [r|] eqn:Er; [|reflexivity].
  apply truthy_string_Some in Er as [Er Hr].
  destruct (Hrole r Er) as [->| ->]; [congruence | reflexivity]. }
rewrite Htext.
destruct (String.eqb_spec userText "") as [E|_]; [congruence|].
destruct (agentId_of _) as [agentId|]; [|reflexivity].
unfold alloc. eexists _, _. split; [reflexivity|]. now split.
Qed.

(** C8.  The request that carries an IPv4 address and names the skill
  constructor, which is none of the agent's skills.  With a skill id
  that names nothing (no-such-skill) the same text is routed to
  ioc-lookup and the task records it.  With constructor the lookup in
  [SKILL_MAP] finds the member the object inherits from
  [Object.prototype]: the router returns it as the agent, and
  [message/send] throws a TypeError instead of routing by the text. *)
Theorem routeToAgent_inherited_skill_id :
let text := "check 10.0.0.1" in
contains_ipv4_token text /\
~ recognized_skill "no-such-skill" /\ ~ recognized_skill "constructor" /\
routeToAgent text (params_metadata (Sample.send_skill text "no-such-skill"))
= {| route_skillId := "ioc-lookup"; route_agent := Agent "IOC" "IOC Scanner" |} /\
(forall st o id, exists st' t,
   handleMessageSend generateAgentResponse st o id
     (Some (Sample.send_skill text "no-such-skill"))
   = (st', jsonRpcSuccess id t) /\
   gatraSkill (task_metadata t) = "ioc-lookup") /\
routeToAgent text (params_metadata (Sample.send_skill text "constructor"))
= {| route_skillId := "constructor"; route_agent := Inherited "constructor" |} /\
(forall st o id,
   handleMessageSend generateAgentResponse st o id
     (Some (Sample.send_skill text "constructor"))
   = (st, Thrown "TypeError")).
Proof.
intros text.
assert (Hip : contains_ipv4_token text).
{ exists "check ", "10", "0", "0", "1", "".
  unfold digit_group. simpl. repeat split; reflexivity || lia. }
assert (Hunknown : routeToAgent text
                     (params_metadata (Sample.send_skill text "no-such-skill"))
                   = {| route_skillId := "ioc-lookup";
                        route_agent := Agent "IOC" "IOC Scanner" |})
  by (apply routeToAgent_ipv4; [reflexivity | exact Hip]).
assert (Hrole : forall r, Some "user" = Some r -> r = "" \/ r = "user")
  by (intros r [= <-]; now right).
split; [exact Hip|].
split; [unfold recognized_skill; cbn; intuition discriminate|].
split; [unfold recognized_skill; cbn; intuition discriminate|].
split; [exact Hunknown|]. split; [|split].
- intros st o id.
  pose proof (handleMessageSend_routed st o id
                (Sample.send_skill text "no-such-skill") _ _ text
                eq_refl eq_refl ltac:(discriminate) Hrole eq_refl
                ltac:(discriminate)) as H.
  cbv zeta in H. rewrite Hunknown in H. cbn [route_agent agentId_of] in H.
  destruct H as (st' & t & Hrun & Hskill & _). now exists st', t.
- apply routeToAgent_member; [reflexivity | now left].
- intros st o id.
  pose proof (handleMessageSend_routed st o id
                (Sample.send_skill text "constructor") _ _ text
                eq_refl eq_refl ltac:(discriminate) Hrole eq_refl
                ltac:(discriminate)) as H.
  cbv zeta in H.
  rewrite (routeToAgent_member text "constructor") in H;
    [exact H | reflexivity | now left].
Qed.

End RoutingFacts.

(* ===================================================================== *)
(** * The theorems at sample inputs *)
(* ===================================================================== *)

Lemma ciiScoreToTier_thresholds_witness :
  ciiScoreToTier (JNum 22.1) = STANDARD /\
  ciiScoreToTier (JNum 44.7) = ELEVATED /\
  ciiScoreToTier (JNum 72.8) = CRITICAL.
Proof.
  split; [|split].
  - apply (proj1 (ciiScoreToTier_thresholds (JNum 22.1))).
    unfold num_le, Qle; simpl; lia.
  - apply (proj1 (proj2 (ciiScoreToTier_thresholds (JNum 44.7)))).
    + unfold num_lt, Qlt; simpl; lia.
    + unfold num_le, Qle; simpl; lia.
  - apply (proj1 (proj2 (proj2 (ciiScoreToTier_thresholds (JNum 72.8))))).
    unfold num_lt, Qlt; simpl; lia.
Defined.

Lemma evaluateCiiTrustPolicy_allowed_witness :
  let d := evaluateCiiTrustPolicy Sample.Number_toString Sample.URL_hostname
             COUNTRY_CII_OVERRIDES "now" Sample.request_mm ∅ "agent:unknown" in
  tier (policy d) = CRITICAL /\ allowed d = false.
Proof.
  intros d. split; [reflexivity|].
  destruct (evaluateCiiTrustPolicy_allowed Sample.Number_toString
              Sample.URL_hostname COUNTRY_CII_OVERRIDES "now"
              Sample.request_mm ∅ "agent:unknown")
    as (_ & _ & _ & _ & _ & Hcritical).
  destruct (Hcritical eq_refl) as [Hrefused _].
  apply Hrefused.
  intros [H|H]; exact (not_elem_of_empty _ H).
Defined.

Lemma buildTrustPolicy_static_record_witness :
  exists m,
    errorMessage (buildTrustPolicy Sample.Number_toString "MM" (JNum 72.8)) = Some m /\
    includes m "MM" = true /\ includes m "72.8" = true.
Proof.
  destruct (buildTrustPolicy_static_record Sample.Number_toString "MM" (JNum 72.8))
    as (_ & _ & _ & H).
  change (ciiScoreToTier (JNum 72.8)) with CRITICAL in H.
  destruct H as (_ & _ & _ & _ & _ & _ & m & Hm & _ & Hc & Hs & _).
  exists m. split; [exact Hm|]. split; [exact Hc | exact Hs].
Defined.

(** One decimal place does not hold for every score.  At an infinite
    score the tier is CRITICAL and the message reads (CII Infinity); it
    holds no digit at all, so no numeral with one decimal place occurs in
    it. *)
Lemma buildTrustPolicy_infinite_score :
  let p := buildTrustPolicy Sample.Number_toString "MM" (JInf false) in
  tier p = CRITICAL /\
  exists m,
    errorMessage p = Some m /\ includes m "(CII Infinity)" = true /\
    forall t, one_decimal_place t -> includes m t = false.
Proof.
  intros p. split; [reflexivity|].
  eexists. split; [reflexivity|]. split; [reflexivity|].
  intros t Ht. apply one_decimal_place_has_digit in Ht.
  match goal with |- includes ?m t = false =>
    destruct (includes m t) eqn:E; [|reflexivity];
    assert (Hm : has_digit m = false) by reflexivity
  end.
  apply (fun H => includes_has_digit _ t H Ht) in E. congruence.
Defined.

Lemma resolveAgentCountry_priority_witness :
  resolveAgentCountry Sample.URL_hostname Sample.request_mm
  = {| countryCode := "MM"; source := vercel_geo |}.
Proof.
  apply (proj2 (proj1 (proj2 (resolveAgentCountry_priority Sample.URL_hostname
                                Sample.request_mm)) "MM" eq_refl eq_refl "SG")).
Defined.

Lemma getCiiScore_absent_witness :
  getCiiScore COUNTRY_CII_OVERRIDES "xx" = JNum 0.0.
Proof.
  apply (proj1 (getCiiScore_absent Sample.Number_toString Sample.URL_hostname
                  COUNTRY_CII_OVERRIDES "xx" eq_refl)).
Defined.

Lemma handleTasksCancel_lifecycle_witness :
  exists st',
    handleTasksCancel Sample.store2 Sample.oracle (IdNumber (JNum 1))
      (Some (Sample.params_for "a" None))
    = (st', jsonRpcSuccess (IdNumber (JNum 1))
              (write_canceled (now Sample.oracle) (Sample.task "a" "working"))) /\
    exists msg,
      handleTasksCancel st' Sample.oracle (IdNumber (JNum 2))
        (Some (Sample.params_for "a" None))
      = (st', jsonRpcError (IdNumber (JNum 2)) ERR_TASK_NOT_CANCELABLE msg).
Proof.
  destruct (handleTasksCancel_lifecycle Sample.store2 Sample.oracle
              (IdNumber (JNum 1)) (Sample.params_for "a" None) "a" eq_refl)
    as (_ & Hlive & _).
  { discriminate. }
  destruct (Hlive (Sample.task "a" "working") eq_refl)
    as (st' & t' & Hrun & -> & _ & _ & _ & _ & Hagain).
  { unfold is_terminal. simpl. intuition discriminate. }
  exists st'. split; [exact Hrun|]. apply Hagain.
Defined.

Lemma task_store_capacity_witness :
  let r := handleMessageSend Sample.generateAgentResponse Sample.store50
             Sample.oracle IdNull (Some (Sample.send_params "check 10.0.0.1")) in
  map fst (tasks (fst r)) = map Sample.key (seq 1 49) ++ ["task-new"] /\
  stored (fst r) "t0" = None /\
  stored (fst r) "t1" = Some (Sample.task "t1" "completed").
Proof.
  intros r.
  assert (Hrun : exists t, r = (fst r, jsonRpcSuccess IdNull t) /\
                           task_id t = "task-new")
    by (eexists; split; cbv; reflexivity).
  destruct Hrun as (t & Hrun & Hid).
  destruct (proj1 (proj2 (proj2 (task_store_capacity Sample.generateAgentResponse)))
              Sample.store50 (fst r) Sample.oracle IdNull IdNull
              (Some (Sample.send_params "check 10.0.0.1")) t)
    as (oldest & l0 & rest & Hst & Hst' & _ & _ & Hgone & _ & Hkept).
  - apply (bool_decide_unpack _). vm_compute. exact I.
  - reflexivity.
  - exact Hrun.
  - rewrite Hid. reflexivity.
  - injection Hst as <- <- <-. split; [|split].
    + rewrite Hst', Hid, map_app. reflexivity.
    + exact Hgone.
    + apply Hkept; [discriminate | reflexivity].
Defined.

Lemma handleTasksGet_does_not_mutate_witness :
  let p0 := Sample.params_for "b" (Some (JNum 0)) in
  let st' := fst (handleTasksGet Sample.store2 IdNull (Some p0)) in
  snd (handleTasksGet Sample.store2 IdNull (Some p0))
  = jsonRpcSuccess IdNull (delete_history (Sample.task "b" "completed")) /\
  stored st' "b" = Some (Sample.task "b" "completed") /\
  snd (handleTasksGet st' IdNull (Some (Sample.params_for "b" None)))
  = jsonRpcSuccess IdNull (Sample.task "b" "completed").
Proof.
  intros p0 st'.
  destruct (handleTasksGet_does_not_mutate Sample.store2 IdNull (Some p0))
    as (_ & _ & Hstored & Hread).
  destruct (Hread p0 "b" (Sample.task "b" "completed") eq_refl eq_refl)
    as (Hzero & _ & Hlater); [discriminate | reflexivity |].
  split; [|split].
  - apply Hzero. exists 0%Q. split; reflexivity.
  - apply Hstored. reflexivity.
  - apply Hlater; [reflexivity|]. intros (q & Hq & _). discriminate.
Defined.

(* ===================================================================== *)
(** * Further properties of the trust policy engine *)
(* ===================================================================== *)

Lemma num_lt_le_trans (a b c : number) : num_lt a b -> num_le b c -> num_lt a c.
Proof.
  destruct a as [|[]|p], b as [|[]|q], c as [|[]|r]; simpl;
    intros H1 H2; try tauto; try (destruct H2; discriminate).
  eapply Qlt_le_trans; eassumption.
Qed.

Lemma ciiScoreToTier_rank_monotone (s1 s2 : number) :
  num_le s1 s2 ->
  (tier_rank (ciiScoreToTier s1) <= tier_rank (ciiScoreToTier s2))%nat.
Proof.
  intros Hle.
  pose proof (ciiScoreToTier_inv s1) as H1.
  destruct (ciiScoreToTier s1) eqn:E1; simpl; [lia| |].
  - destruct H1 as [H34 _].
    pose proof (num_lt_le_trans _ _ _ H34 Hle) as H.
    apply js_gt_true_iff in H. unfold ciiScoreToTier. rewrite H.
    destruct (js_gt s2 (JNum 60)); simpl; lia.
  - pose proof (num_lt_le_trans _ _ _ H1 Hle) as H.
    apply js_gt_true_iff in H. unfold ciiScoreToTier. rewrite H. simpl. lia.
Qed.

Section MorePolicyFacts.

Variable Number_toString : Q -> string.
Variable URL_hostname : string -> option string.

Abbreviation buildTrustPolicy' := (buildTrustPolicy Number_toString).
Abbreviation resolveAgentCountry' := (resolveAgentCountry URL_hostname).
Abbreviation extractTldCountry' := (extractTldCountry URL_hostname).
Abbreviation evaluateCiiTrustPolicy' :=
(evaluateCiiTrustPolicy Number_toString URL_hostname).

(** X1.  A higher score never gives a laxer policy: the tier does not go
  down, the hourly budget and the per-minute and burst limits do not go
  up, and a requirement that is on stays on.  A NaN score is not above
  anything and gets the STANDARD policy. *)
Theorem policy_monotone_in_score (c1 c2 : string) (s1 s2 : number) :
num_le s1 s2 ->
let p1 := buildTrustPolicy' c1 s1 in
let p2 := buildTrustPolicy' c2 s2 in
(tier_rank (tier p1) <= tier_rank (tier p2))%nat /\
maxRequestsPerHour p2 <= maxRequestsPerHour p1 /\
(requireJWS p1 = true -> requireJWS p2 = true) /\
(requireAdminAllowlist p1 = true -> requireAdminAllowlist p2 = true) /\
(deepInjectionScan p1 = true -> deepInjectionScan p2 = true) /\
maxPerMinute (getTierRateLimits (tier p2))
  <= maxPerMinute (getTierRateLimits (tier p1)) /\
maxBurst (getTierRateLimits (tier p2))
  <= maxBurst (getTierRateLimits (tier p1)) /\
tier (buildTrustPolicy' c1 JNaN) = STANDARD.
Proof.
intros Hle p1 p2. subst p1 p2.
pose proof (ciiScoreToTier_rank_monotone s1 s2 Hle) as Hrank.
unfold buildTrustPolicy.
destruct (ciiScoreToTier s1), (ciiScoreToTier s2); simpl in *;
  repeat split; try lia; try discriminate; auto.
Qed.

(** X2.  [updateCiiScore] followed by [getCiiScore]: the new score is read
  back under every spelling of the code that has the same upper-case
  form, all other codes read as before, and the next evaluation of a
  request resolved to the code is made on the new score. *)
Theorem updateCiiScore_getCiiScore (scores : gmap string number)
  (c c' : string) (v : number) :
getCiiScore (updateCiiScore scores c v) c'
= (if decide (toUpperCase c = toUpperCase c') then v else getCiiScore scores c') /\
(forall now req allowlist agentId,
   toUpperCase (countryCode (resolveAgentCountry' req)) = toUpperCase c ->
   policy (evaluateCiiTrustPolicy' (updateCiiScore scores c v) now req
             allowlist agentId)
   = buildTrustPolicy' (countryCode (resolveAgentCountry' req)) v).
Proof.
assert (Hget : forall x,
          getCiiScore (updateCiiScore scores c v) x
          = if decide (toUpperCase c = toUpperCase x) then v
            else getCiiScore scores x).
{ intros x. unfold getCiiScore, updateCiiScore. case_decide as E.
  - rewrite <- E. now rewrite lookup_insert_eq.
  - now rewrite lookup_insert_ne. }
split; [apply Hget|].
intros now req allowlist agentId Hcc.
cbn [policy evaluateCiiTrustPolicy]. rewrite Hget.
case_decide; [reflexivity | congruence].
Qed.

(** X3.  The rejection response built from a decision of
  [evaluateCiiTrustPolicy] always carries code -32050 and the request's
  id, and reports the decision's score, tier, country and source; for a
  refused decision the message is the policy's CRITICAL message (never
  the fallback text), for a decision below CRITICAL it is the fallback
  text. *)
Theorem buildCiiRejectionResponse_of_decision
  (scores : gmap string number) (now : string) (req : PolicyRequest)
  (allowlist : gset string) (agentId : string) (requestId : RpcId) :
let d := evaluateCiiTrustPolicy' scores now req allowlist agentId in
let r := buildCiiRejectionResponse requestId d in
let e := rejection_error r in
rejection_jsonrpc r = "2.0" /\ rejection_id r = requestId /\
error_code e = -32050 /\
data_ciiScore (error_data e) = getCiiScore scores (countryCode (resolveAgentCountry' req)) /\
data_tier (error_data e) = ciiScoreToTier (data_ciiScore (error_data e)) /\
data_country (error_data e) = countryCode (resolveAgentCountry' req) /\
data_countrySource (error_data e) = source (resolveAgentCountry' req) /\
(allowed d = false ->
   data_tier (error_data e) = CRITICAL /\
   error_message e
   = criticalMessage Number_toString (data_country (error_data e))
       (data_ciiScore (error_data e))) /\
(data_tier (error_data e) <> CRITICAL ->
   error_message e = "Request rejected by CII trust policy").
Proof.
intros d r e. subst e r d.
cbn [rejection_jsonrpc rejection_id rejection_error error_code error_data
     error_message data_ciiScore data_tier data_country data_countrySource
     buildCiiRejectionResponse policy decisionCountryCode countrySource
     allowed evaluateCiiTrustPolicy].
set (cc := countryCode (resolveAgentCountry' req)).
set (s := getCiiScore scores cc).
unfold buildTrustPolicy.
destruct (ciiScoreToTier s) eqn:Et; cbn; rewrite ?Et;
  repeat split; try reflexivity; try congruence; try discriminate.
all: try (intros H; exfalso; revert H;
          rewrite ?bool_decide_eq_false_2 by discriminate; discriminate).
Qed.

(** X4.  The self-reported header is read only when nothing else
  resolves: if the resolution does not come from it and is not unknown,
  then setting it to any value, or removing it, leaves the resolution
  as it is.  Likewise the agent-card URL is not read when a geo header
  resolves. *)
Theorem resolveAgentCountry_ignores_lower_signals (req : PolicyRequest) :
(source (resolveAgentCountry' req) <> self_reported ->
 source (resolveAgentCountry' req) <> unknown ->
 forall v,
   resolveAgentCountry' (with_header "x-agent-country" v req)
   = resolveAgentCountry' req /\
   resolveAgentCountry' (without_header "x-agent-country" req)
   = resolveAgentCountry' req) /\
(source (resolveAgentCountry' req) = vercel_geo \/
 source (resolveAgentCountry' req) = cf_geo ->
 forall u,
   resolveAgentCountry' (with_agentCardUrl u req) = resolveAgentCountry' req).
Proof.
split.
- intros Hs Hu v. revert Hs Hu.
  unfold resolveAgentCountry, with_header, without_header.
  cbn [headers agentCardUrl].
  rewrite !lookup_insert_ne by discriminate.
  rewrite !lookup_delete_ne by discriminate.
  destruct (two_chars (headers req !! "x-vercel-ip-country")); [now split|].
  destruct (not_sentinel (two_chars (headers req !! "cf-ipcountry")));
    [now split|].
  destruct (truthy_string (truthy_string (agentCardUrl req) ≫= extractTldCountry'));
    [now split|].
  destruct (two_chars (headers req !! "x-agent-country")); simpl; congruence.
- intros H u. revert H.
  unfold resolveAgentCountry, with_agentCardUrl. cbn [headers agentCardUrl].
  destruct (two_chars (headers req !! "x-vercel-ip-country")); [reflexivity|].
  destruct (not_sentinel (two_chars (headers req !! "cf-ipcountry")));
    [reflexivity|].
  destruct (truthy_string (truthy_string (agentCardUrl req) ≫= extractTldCountry')).
  { simpl. intros [?|?]; discriminate. }
  destruct (two_chars (headers req !! "x-agent-country")); simpl;
    intros [?|?]; discriminate.
Qed.

(** *** The TLD table *)

Lemma endsWith_same_length (h t t' : string) :
endsWith h t = true -> endsWith h t' = true ->
String.length t = String.length t' -> t = t'.
Proof.
unfold endsWith. intros H H' Hlen.
apply andb_true_iff in H as [_ H]. apply andb_true_iff in H' as [_ H'].
apply String.eqb_eq in H, H'. rewrite <- Hlen in H'. congruence.
Qed.

Lemma TLD_TO_COUNTRY_shape :
Forall (fun e => String.length (fst e) = 3%nat /\ String.length (snd e) = 2%nat
                 /\ toUpperCase (snd e) = snd e) TLD_TO_COUNTRY.
Proof. unfold TLD_TO_COUNTRY. repeat constructor. Qed.

Lemma TLD_TO_COUNTRY_keys : NoDup (map fst TLD_TO_COUNTRY).
Proof. apply (bool_decide_unpack _). vm_compute. exact I. Qed.

Lemma NoDup_keys_functional {A : Type} (l : list (string * A)) (k : string) (a b : A) :
NoDup (map fst l) -> In (k, a) l -> In (k, b) l -> a = b.
Proof.
induction l as [|[k' x] l IH]; simpl; [tauto|].
intros Hd [Ha|Ha] [Hb|Hb]; apply NoDup_cons in Hd as [Hk Hd].
- congruence.
- exfalso. apply Hk. injection Ha as -> _. apply list_elem_of_In.
  apply in_map_iff. now exists (k, b).
- exfalso. apply Hk. injection Hb as -> _. apply list_elem_of_In.
  apply in_map_iff. now exists (k, a).
- now apply IH.
Qed.

Lemma find_Some_of_In {A : Type} (p : A -> bool) (l : list A) (x : A) :
In x l -> p x = true -> exists y, List.find p l = Some y.
Proof.
intros Hin Hp. destruct (List.find p l) as [y|] eqn:E; [eauto|].
pose proof (List.find_none p l E x Hin). congruence.
Qed.

(** X5.  [extractTldCountry] returns a country exactly when the lower-cased
  hostname ends in a suffix of the table, and then the country of that
  suffix: at most one suffix of the table fits a hostname, so the order
  of the table does not matter.  A URL the constructor rejects gives
  none. *)
Theorem extractTldCountry_unique_match (url : string) (code : string) :
(extractTldCountry' url = Some code <->
 exists host suffix,
   URL_hostname url = Some host /\
   In (suffix, code) TLD_TO_COUNTRY /\
   endsWith (toLowerCase host) suffix = true) /\
(URL_hostname url = None -> extractTldCountry' url = None) /\
(extractTldCountry' url = Some code ->
   String.length code = 2%nat /\ toUpperCase code = code).
Proof.
assert (Hiff : extractTldCountry' url = Some code <->
               exists host suffix,
                 URL_hostname url = Some host /\
                 In (suffix, code) TLD_TO_COUNTRY /\
                 endsWith (toLowerCase host) suffix = true).
{ unfold extractTldCountry. split.
  - destruct (URL_hostname url) as [host|]; [|discriminate].
    destruct (List.find _ TLD_TO_COUNTRY) as [[suffix c]|] eqn:E; [|discriminate].
    intros [= <-]. apply List.find_some in E as [Hin Hends].
    exists host, suffix. now repeat split.
  - intros (host & suffix & -> & Hin & Hends).
    destruct (find_Some_of_In
                (fun e => endsWith (toLowerCase host) (fst e))
                TLD_TO_COUNTRY (suffix, code) Hin Hends) as [[suffix' c'] E].
    rewrite E. cbn. f_equal.
    apply List.find_some in E as [Hin' Hends']. cbn in Hends'.
    pose proof TLD_TO_COUNTRY_shape as Hshape.
    rewrite Forall_forall in Hshape.
    assert (Hlen : String.length suffix' = String.length suffix).
    { destruct (Hshape _ (proj2 (list_elem_of_In _ _) Hin)) as [H1 _].
      destruct (Hshape _ (proj2 (list_elem_of_In _ _) Hin')) as [H2 _].
      cbn in H1, H2. congruence. }
    pose proof (endsWith_same_length _ _ _ Hends' Hends Hlen) as ->.
    exact (NoDup_keys_functional _ _ _ _ TLD_TO_COUNTRY_keys Hin' Hin). }
split; [exact Hiff|]. split.
- unfold extractTldCountry. now intros ->.
- intros (host & suffix & _ & Hin & _)%Hiff.
  pose proof TLD_TO_COUNTRY_shape as Hshape. rewrite Forall_forall in Hshape.
  now destruct (Hshape _ (proj2 (list_elem_of_In _ _) Hin)) as (_ & ? & ?).
Qed.

Lemma extractTldCountry_shape (url code : string) :
extractTldCountry' url = Some code ->
String.length code = 2%nat /\ toUpperCase code = code.
Proof.
unfold extractTldCountry.
destruct (URL_hostname url) as [host|]; [|discriminate].
destruct (List.find _ TLD_TO_COUNTRY) as [[suffix c]|] eqn:E; [|discriminate].
intros [= <-]. apply List.find_some in E as [Hin _].
pose proof TLD_TO_COUNTRY_shape as Hshape. rewrite Forall_forall in Hshape.
now destruct (Hshape _ (proj2 (list_elem_of_In _ _) Hin)) as (_ & ? & ?).
Qed.

Lemma toUpperCase_length (s : string) :
String.length (toUpperCase s) = String.length s.
Proof. induction s as [|a s IH]; simpl; congruence. Qed.

Lemma two_chars_length (v : option string) (s : string) :
two_chars v = Some s -> String.length s = 2%nat.
Proof. intros H. now apply two_chars_Some in H. Qed.

(** X6.  The resolved country code is always two characters long and
  already in upper case, whatever the headers hold, so [getCiiScore]
  reads the score table at exactly that key.  (Stated for header values
  of 7-bit characters: outside them the upper-case form of a string can
  be longer than the string.) *)
Theorem resolveAgentCountry_code_form (req : PolicyRequest) :
(forall name v, headers req !! name = Some v -> is_ascii_string v = true) ->
let cc := countryCode (resolveAgentCountry' req) in
String.length cc = 2%nat /\
toUpperCase cc = cc /\
(forall scores, getCiiScore scores cc = default (JNum 0.0) (scores !! cc)) /\
(source (resolveAgentCountry' req) = unknown -> cc = "XX").
Proof.
intros _ cc.
assert (Hform : String.length cc = 2%nat /\ toUpperCase cc = cc).
{ subst cc. unfold resolveAgentCountry.
  destruct (two_chars (headers req !! "x-vercel-ip-country")) as [v|] eqn:E1.
  { cbn. rewrite toUpperCase_length, toUpperCase_idem.
    split; [now apply two_chars_length in E1 | reflexivity]. }
  destruct (two_chars (headers req !! "cf-ipcountry")) as [v|] eqn:E2;
    cbn [not_sentinel].
  { destruct (String.eqb v "XX").
    - destruct (truthy_string (truthy_string (agentCardUrl req) ≫= extractTldCountry'))
        as [code|] eqn:E3.
      { apply truthy_string_Some in E3 as [E3 _].
        destruct (truthy_string (agentCardUrl req)) as [u|]; [|discriminate].
        cbn in E3 |- *. now apply extractTldCountry_shape in E3. }
      destruct (two_chars (headers req !! "x-agent-country")) as [w|] eqn:E4.
      + cbn. rewrite toUpperCase_length, toUpperCase_idem.
        split; [now apply two_chars_length in E4 | reflexivity].
      + now split.
    - cbn. rewrite toUpperCase_length, toUpperCase_idem.
      split; [now apply two_chars_length in E2 | reflexivity]. }
  destruct (truthy_string (truthy_string (agentCardUrl req) ≫= extractTldCountry'))
    as [code|] eqn:E3.
  { apply truthy_string_Some in E3 as [E3 _].
    destruct (truthy_string (agentCardUrl req)) as [u|]; [|discriminate].
    cbn in E3 |- *. now apply extractTldCountry_shape in E3. }
  destruct (two_chars (headers req !! "x-agent-country")) as [w|] eqn:E4.
  - cbn. rewrite toUpperCase_length, toUpperCase_idem.
    split; [now apply two_chars_length in E4 | reflexivity].
  - now split. }
destruct Hform as [Hlen Hup]. split; [exact Hlen|]. split; [exact Hup|]. split.
- intros scores. unfold getCiiScore. now rewrite Hup.
- subst cc. unfold resolveAgentCountry.
  destruct (two_chars (headers req !! "x-vercel-ip-country")); [discriminate|].
  destruct (not_sentinel (two_chars (headers req !! "cf-ipcountry")));
    [discriminate|].
  destruct (truthy_string (truthy_string (agentCardUrl req) ≫= extractTldCountry'));
    [discriminate|].
  now destruct (two_chars (headers req !! "x-agent-country")).
Qed.

(** *** The edge copy against the canonical source *)

Lemma EdgeCopy_header (hs : gmap string string) (name : string) :
EdgeCopy.header hs name = hs !! name.
Proof.
unfold EdgeCopy.header.
destruct (truthy_string (hs !! name)) as [v|] eqn:E; [|reflexivity].
now apply truthy_string_Some in E as [-> _].
Qed.

Lemma EdgeCopy_resolveAgentCountry_relabel (hs : gmap string string)
  (url : option string) :
EdgeCopy.resolveAgentCountry URL_hostname hs url
= let r := resolveAgentCountry' {| headers := hs; agentCardUrl := url |} in
  {| countryCode := countryCode r; source := relabel (source r) |}.
Proof.
unfold EdgeCopy.resolveAgentCountry, resolveAgentCountry.
rewrite !EdgeCopy_header. cbn [headers agentCardUrl].
destruct (two_chars (hs !! "x-vercel-ip-country")); [reflexivity|].
destruct (not_sentinel (two_chars (hs !! "cf-ipcountry"))); [reflexivity|].
destruct (truthy_string (truthy_string url ≫= extractTldCountry'));
  [reflexivity|].
now destruct (two_chars (hs !! "x-agent-country")).
Qed.

End MorePolicyFacts.

(** *** Strings: [split] and [trim] *)

Lemma split_comma_nonempty (s : string) : split_comma s <> [].
Proof.
  destruct s as [|c r]; simpl; [discriminate|].
  destruct (Ascii.eqb c ","); [discriminate|].
  now destruct (split_comma r).
Qed.

Lemma split_comma_no_comma (s : string) :
  Forall (fun seg => has_comma seg = false) (split_comma s).
Proof.
  induction s as [|c r IH]; simpl; [now repeat constructor|].
  destruct (Ascii.eqb c ",") eqn:E; [now constructor|].
  destruct (split_comma r) as [|seg rest]; [repeat constructor; simpl; now rewrite E|].
  apply Forall_cons in IH as [Hseg Hrest]. constructor; [|exact Hrest].
  simpl. now rewrite E.
Qed.

Lemma split_comma_plain (s : string) :
  has_comma s = false -> split_comma s = [s].
Proof.
  induction s as [|c r IH]; simpl; [reflexivity|].
  intros H. apply orb_false_iff in H as [Hc Hr]. rewrite Hc.
  now rewrite (IH Hr).
Qed.

Lemma split_comma_app (x s : string) :
  has_comma x = false ->
  split_comma (x +:+ "," +:+ s) = x :: split_comma s.
Proof.
  induction x as [|c r IH]; simpl; [reflexivity|].
  intros H. apply orb_false_iff in H as [Hc Hr]. rewrite Hc.
  now rewrite (IH Hr).
Qed.

Lemma has_comma_trim_start (s : string) :
  has_comma s = false -> has_comma (trim_start s) = false.
Proof.
  induction s as [|c r IH]; simpl; [reflexivity|].
  intros H. destruct (is_space c); [|exact H].
  apply orb_false_iff in H as [_ Hr]. now apply IH.
Qed.

Lemma has_comma_trim_end (s : string) :
  has_comma s = false -> has_comma (trim_end s) = false.
Proof.
  induction s as [|c r IH]; simpl; [reflexivity|].
  intros H. apply orb_false_iff in H as [Hc Hr]. specialize (IH Hr).
  destruct (trim_end r) as [|c' r'].
  - destruct (is_space c); simpl; [reflexivity | now rewrite Hc].
  - simpl in *. now rewrite Hc.
Qed.

Lemma trim_end_idem (s : string) : trim_end (trim_end s) = trim_end s.
Proof.
  induction s as [|c r IH]; simpl; [reflexivity|].
  destruct (trim_end r) as [|c' r'] eqn:E.
  - destruct (is_space c) eqn:Ec; simpl; [reflexivity | now rewrite Ec].
  - simpl. simpl in IH. destruct (trim_end r') as [|c'' r''] eqn:E'.
    + destruct (is_space c') eqn:Ec'; [discriminate|]. now rewrite IH.
    + now rewrite IH.
Qed.

Lemma trim_start_no_space (s : string) : starts_with_space (trim_start s) = false.
Proof.
  induction s as [|c r IH]; simpl; [reflexivity|].
  destruct (is_space c) eqn:E; [exact IH | simpl; exact E].
Qed.

Lemma trim_start_fix (s : string) : starts_with_space s = false -> trim_start s = s.
Proof. destruct s as [|c r]; simpl; [reflexivity|]. now intros ->. Qed.

Lemma trim_end_no_space (s : string) :
  starts_with_space s = false -> starts_with_space (trim_end s) = false.
Proof.
  destruct s as [|c r]; simpl; [reflexivity|]. intros Hc.
  destruct (trim_end r); [now rewrite Hc | exact Hc].
Qed.

Lemma trim_idem (s : string) : trim (trim s) = trim s.
Proof.
  unfold trim.
  rewrite (trim_start_fix (trim_end (trim_start s))).
  - apply trim_end_idem.
  - apply trim_end_no_space, trim_start_no_space.
Qed.

Lemma trim_empty_iff (s : string) :
  trim s = "" <-> forall a, In a (String.list_ascii_of_string s) -> is_space a = true.
Proof.
  unfold trim. split.
  - induction s as [|c r IH]; simpl; [tauto|].
    destruct (is_space c) eqn:E.
    + intros H a [<-|Ha]; [exact E | now apply IH].
    + simpl. destruct (trim_end r); [now rewrite E | discriminate].
  - induction s as [|c r IH]; simpl; [reflexivity|].
    intros H. rewrite (H c (or_introl eq_refl)). apply IH.
    intros a Ha. apply H. now right.
Qed.

(** *** The edge copy: environment and evaluation *)

Lemma split_join_comma (ids : list string) :
  ids <> [] -> Forall (fun s => has_comma s = false) ids ->
  split_comma (join "," (map Some ids)) = ids.
Proof.
  induction ids as [|x [|y rest] IH]; [congruence| |]; intros _ Hall.
  - apply Forall_cons in Hall as [Hx _]. simpl. now apply split_comma_plain.
  - apply Forall_cons in Hall as [Hx Hrest].
    change (join "," (map Some (x :: y :: rest)))
      with (x +:+ "," +:+ join "," (map Some (y :: rest))).
    rewrite (split_comma_app _ _ Hx). f_equal. now apply IH.
Qed.

Lemma join_nonempty (x : string) (rest : list string) :
  x <> "" -> join "," (map Some (x :: rest)) <> "".
Proof.
  intros Hx. destruct rest as [|y rest]; [exact Hx|].
  change (join "," (map Some (x :: y :: rest)))
    with (x +:+ "," +:+ join "," (map Some (y :: rest))).
  destruct x; [congruence | discriminate].
Qed.

Lemma fold_applyOverride_lookup (entries : list (string * JsonValue))
    (scores : gmap string number) (K : string) :
  fold_left EdgePolicy.applyOverride entries scores !! K
  = match last_override entries K with
    | Some v => Some v
    | None => scores !! K
    end.
Proof.
  revert scores. induction entries as [|e entries IH]; intros scores;
    [reflexivity|].
  cbn [fold_left last_override]. rewrite IH.
  destruct (last_override entries K); [reflexivity|].
  unfold EdgePolicy.applyOverride. destruct (snd e) as [v|]; [|reflexivity].
  destruct (String.eqb_spec (toUpperCase (fst e)) K) as [->|Hne].
  - apply lookup_insert_eq.
  - now apply lookup_insert_ne.
Qed.

Section EdgePolicyFacts.

Variable Number_toString : Q -> string.
Variable URL_hostname : string -> option string.
Variable JSON_entries : string -> option (list (string * JsonValue)).

Abbreviation loadScoreOverrides' := (EdgePolicy.loadScoreOverrides JSON_entries).
Abbreviation edge_evaluate :=
(EdgePolicy.evaluateCiiTrustPolicy Number_toString URL_hostname).

(** X7.  On every request the edge copy resolves the same country code as
  the canonical resolver and the same source label except that it never
  answers [cf_geo], for which it answers [vercel_geo]: the source of a
  CloudFlare answer cannot be told from the primary header's.  Its
  evaluation is the canonical one run on the allowlist read from the
  environment, with that relabelled source. *)
Theorem edge_copy_agrees_up_to_label (scores : gmap string number) (now : string)
  (CII_ALLOWLIST : option string) (hs : gmap string string) (agentId : string)
  (url : option string) :
let req := {| headers := hs; agentCardUrl := url |} in
let e := EdgeCopy.resolveAgentCountry URL_hostname hs url in
let c := resolveAgentCountry URL_hostname req in
let de := edge_evaluate scores now CII_ALLOWLIST hs agentId url in
let dc := evaluateCiiTrustPolicy Number_toString URL_hostname scores now req
            (EdgePolicy.loadAllowlist CII_ALLOWLIST) agentId in
countryCode e = countryCode c /\
source e = relabel (source c) /\
source e <> cf_geo /\
(source c <> cf_geo -> e = c) /\
allowed de = allowed dc /\ policy de = policy dc /\
decisionCountryCode de = decisionCountryCode dc /\
isInAllowlist de = isInAllowlist dc /\
countrySource de = relabel (countrySource dc).
Proof.
intros req e c de dc. subst de dc.
unfold EdgePolicy.evaluateCiiTrustPolicy, evaluateCiiTrustPolicy.
cbn [allowed policy decisionCountryCode isInAllowlist countrySource].
fold req. fold e. fold c.
assert (He : e = {| countryCode := countryCode c; source := relabel (source c) |})
  by apply EdgeCopy_resolveAgentCountry_relabel.
rewrite He. cbn [countryCode source].
repeat split.
- destruct (source c); discriminate.
- intros Hne. destruct c as [cc [] ]; cbn in *; congruence.
Qed.

(** X8.  Score overrides from the environment: after loading, a code reads
  the last numeric entry whose key has the code's upper-case form, and
  otherwise what it read before; entries that are not numbers change
  nothing, and an unset or empty variable, or one that does not parse,
  leaves the table as it is. *)
Theorem loadScoreOverrides_lookup (scores : gmap string number)
  (CII_REGION_SCORES : option string) (c : string) :
getCiiScore (loadScoreOverrides' scores CII_REGION_SCORES) c
= match truthy_string CII_REGION_SCORES ≫= JSON_entries with
  | Some entries =>
      match last_override entries (toUpperCase c) with
      | Some v => v
      | None => getCiiScore scores c
      end
  | None => getCiiScore scores c
  end.
Proof.
unfold EdgePolicy.loadScoreOverrides, getCiiScore.
destruct (truthy_string CII_REGION_SCORES) as [text|]; [|reflexivity].
cbn [mbind option_bind].
destruct (JSON_entries text) as [entries|]; [|reflexivity].
rewrite fold_applyOverride_lookup.
now destruct (last_override entries (toUpperCase c)).
Qed.

(** X9.  The allowlist read from [CII_ALLOWLIST] holds only ids that are
  not empty, contain no comma and have no white space at either end, so
  an agent whose id is not of that form is allowlisted through the
  wildcard only; a list of such ids joined by commas is read back as
  the set of these ids; an unset or empty variable gives the empty
  allowlist. *)
Theorem loadAllowlist_members :
(forall env agentId,
   agentId ∈ EdgePolicy.loadAllowlist env -> listable agentId) /\
(forall ids,
   Forall listable ids ->
   EdgePolicy.loadAllowlist (Some (join "," (map Some ids))) = list_to_set ids) /\
(forall env, truthy_string env = None -> EdgePolicy.loadAllowlist env = ∅) /\
(forall scores now env hs agentId url,
   ~ listable agentId ->
   isInAllowlist (edge_evaluate scores now env hs agentId url)
   = bool_decide ("*" ∈ EdgePolicy.loadAllowlist env)).
Proof.
assert (Hmem : forall env agentId,
          agentId ∈ EdgePolicy.loadAllowlist env -> listable agentId).
{ intros env agentId. unfold EdgePolicy.loadAllowlist.
  rewrite elem_of_list_to_set, list_elem_of_In, filter_In, in_map_iff.
  intros [(seg & <- & Hseg) Hne].
  pose proof (split_comma_no_comma (default "" (truthy_string env))) as Hall.
  rewrite Forall_forall in Hall.
  specialize (Hall seg (proj2 (list_elem_of_In _ _) Hseg)).
  split; [|split].
  - intros E. rewrite E in Hne. discriminate.
  - unfold trim. now apply has_comma_trim_end, has_comma_trim_start.
  - apply trim_idem. }
split; [exact Hmem|]. split; [|split].
- intros ids Hall. unfold EdgePolicy.loadAllowlist.
  destruct ids as [|x rest]; [reflexivity|].
  assert (Hx : x <> "") by (apply Forall_cons in Hall as [[? _] _]; assumption).
  pose proof (join_nonempty x rest Hx) as Hj.
  apply string_eqb_false_iff in Hj.
  remember (x :: rest) as l eqn:El.
  assert (Hraw : default "" (truthy_string (Some (join "," (map Some l))))
                 = join "," (map Some l))
    by (cbn [truthy_string]; rewrite Hj; reflexivity).
  rewrite Hraw, split_join_comma; [|subst l; discriminate|].
  2:{ eapply Forall_impl; [exact Hall|]. now intros s (_ & ? & _). }
  f_equal. clear El Hx Hj Hraw. induction l as [|y l IH]; [reflexivity|].
  apply Forall_cons in Hall as [(Hy & _ & Ht) Hl].
  cbn [map List.filter]. rewrite Ht.
  apply string_eqb_false_iff in Hy. rewrite Hy. cbn [negb]. f_equal. now apply IH.
- intros env Henv. unfold EdgePolicy.loadAllowlist. now rewrite Henv.
- intros scores now env hs agentId url Hno.
  cbn [isInAllowlist EdgePolicy.evaluateCiiTrustPolicy].
  rewrite (bool_decide_eq_false_2 (agentId ∈ _)); [reflexivity|].
  intros Hin. apply Hno. now apply (Hmem env).
Qed.

(** An id padded with a no-break space is stored without the padding. *)
Example loadAllowlist_no_break_space :
EdgePolicy.loadAllowlist
  (Some ("agent:soc" +:+ String (ascii_of_nat 160) "" +:+ ", agent:b"))
= list_to_set ["agent:soc"; "agent:b"].
Proof. reflexivity. Qed.

End EdgePolicyFacts.

(* ===================================================================== *)
(** * Further properties of the JSON-RPC handler *)
(* ===================================================================== *)

Lemma map_get_delete_ne (k k' : string) (m : TaskMap) :
  k <> k' -> map_get k' (map_delete k m) = map_get k' m.
Proof.
  intros Hne. unfold map_get, map_delete.
  induction m as [|e m IH]; [reflexivity|].
  simpl. destruct (String.eqb_spec (fst e) k) as [He|He]; simpl.
  - rewrite assoc_cons.
    destruct (String.eqb_spec (fst e) k'); [congruence | exact IH].
  - rewrite !assoc_cons. now rewrite IH.
Qed.

Lemma map_set_size_present (k : string) (v l : loc) (m : TaskMap) :
  map_get k m = Some l -> map_size (map_set k v m) = map_size m.
Proof.
  intros H. unfold map_size.
  rewrite <- (length_map fst), (map_set_present k v l m H). apply length_map.
Qed.

(** Under the capacity bound the task just set survives the pruning. *)
Lemma map_get_prune_set (k : string) (v : loc) (m : TaskMap) :
  (map_size m <= 50)%nat -> NoDup (map fst m) ->
  map_get k (prune (map_set k v m)) = Some v.
Proof.
  intros Hsize Hdup.
  assert (Hset : map_get k (map_set k v m) = Some v)
    by (rewrite map_get_set; now rewrite String.eqb_refl).
  destruct (map_get k m) as [l|] eqn:E.
  - unfold prune. rewrite (map_set_size_present k v l m E).
    destruct (Nat.ltb_spec 50 (map_size m)); [lia | exact Hset].
  - rewrite (map_set_fresh k v m E) in *. unfold prune.
    destruct (50 <? map_size (m ++ [(k, v)]))%nat eqn:Ebig; [|exact Hset].
    destruct m as [|[k0 l0] rest]; [discriminate|].
    cbn [app map_first_key head fmap option_fmap option_map fst].
    rewrite map_get_delete_ne; [exact Hset|].
    intros ->. apply map_get_None in E. apply E. now left.
Qed.

Section MoreHandlerFacts.

Variable generateAgentResponse : option string -> string -> string -> string.

Abbreviation handleMessageSend' := (handleMessageSend generateAgentResponse).
Abbreviation handler' := (handler generateAgentResponse).
Abbreviation reachable' := (reachable generateAgentResponse).

(** What a successful [message/send] returns. *)
Lemma handleMessageSend_task (st st' : Store) (o : Oracle) (id id' : RpcId)
  (params : option Params) (t : Task) :
handleMessageSend' st o id params = (st', jsonRpcSuccess id' t) ->
id' = id /\ state (status t) = "completed" /\ timestamp (status t) = now o /\
exists message,
  params ≫= params_message = Some message /\
  task_id t = default (uid_taskId o) (truthy_string (msg_taskId message)) /\
  contextId t = default (uid_contextId o) (truthy_string (msg_contextId message)).
Proof.
unfold handleMessageSend.
destruct (params ≫= params_message) as [message|]; [|discriminate].
destruct (msg_parts message) as [[|part rest]|]; try discriminate.
destruct (match truthy_string (msg_role message) with
          | Some r => negb (String.eqb r "user") | None => false end);
  [discriminate|].
destruct (message_text _) as [userText|]; [|discriminate].
destruct (String.eqb _ ""); [discriminate|].
destruct (agentId_of _) as [agentId|]; [|discriminate].
unfold alloc. intros [= _ <- <-]. cbn. repeat split. now exists message.
Qed.

Lemma handleTasksGet_failure (st : Store) (id : RpcId) (params : option Params) :
is_success (snd (handleTasksGet st id params)) = false ->
fst (handleTasksGet st id params) = st.
Proof.
unfold handleTasksGet.
destruct (truthy_string (params ≫= params_id)) as [taskId|]; [|reflexivity].
destruct (map_get taskId (tasks st)) as [l|]; [|reflexivity].
destruct (heap st !! l) as [task|]; [|reflexivity].
unfold alloc. rewrite get_heap_result. discriminate.
Qed.

Lemma handleTasksCancel_failure (st : Store) (o : Oracle) (id : RpcId)
  (params : option Params) :
is_success (snd (handleTasksCancel st o id params)) = false ->
fst (handleTasksCancel st o id params) = st.
Proof.
unfold handleTasksCancel.
destruct (truthy_string (params ≫= params_id)) as [taskId|]; [|reflexivity].
destruct (map_get taskId (tasks st)) as [l|]; [|reflexivity].
destruct (heap st !! l) as [task|] eqn:Ht; [|reflexivity].
destruct (existsb _ terminalStates); [reflexivity|].
rewrite list_lookup_alter_eq, Ht. discriminate.
Qed.

Lemma handleMessageSend_failure' (st : Store) (o : Oracle) (id : RpcId)
  (params : option Params) :
is_success (snd (handleMessageSend' st o id params)) = false ->
fst (handleMessageSend' st o id params) = st.
Proof.
intros H. apply handleMessageSend_failure. intros id' t E.
rewrite E in H. discriminate.
Qed.

(** X10.  Only a success changes the store: whenever the handler answers
  with anything but a JSON-RPC result (an error envelope, a bare HTTP
  status, or an exception), the task map and the heap are exactly as
  before the request. *)
Theorem handler_failure_leaves_store (st : Store) (o : Oracle)
  (http_method : string) (body : option Body) :
is_success (snd (handler' st o http_method body)) = false ->
fst (handler' st o http_method body) = st.
Proof.
unfold handler.
destruct (String.eqb http_method "OPTIONS"); [reflexivity|].
destruct (negb (String.eqb http_method "POST")); [reflexivity|].
destruct body as [b|]; [|reflexivity].
destruct (jsonrpc b) as [v|]; [|reflexivity].
destruct (truthy_string (method b)) as [m|]; [|reflexivity].
destruct (body_id b) as [id|]; [|reflexivity].
destruct (negb (String.eqb v "2.0")); [reflexivity|].
destruct (String.eqb m "message/send"); [apply handleMessageSend_failure'|].
destruct (String.eqb m "tasks/get"); [apply handleTasksGet_failure|].
destruct (String.eqb m "tasks/cancel"); [apply handleTasksCancel_failure|].
destruct (String.eqb m "message/stream"); [reflexivity|].
destruct (String.eqb m "tasks/resubscribe"); [reflexivity|].
now destruct (existsb _ _).
Qed.

(** The three ways a message that passes the structural checks goes
  on: the text cannot be built, the text is empty, or the message is
  routed ([handleMessageSend_routed]). *)
Lemma handleMessageSend_text_throws (st : Store) (o : Oracle) (id : RpcId)
  (p : Params) (message : Message) (message_parts : list (option Part)) :
well_formed_message p message message_parts ->
message_text message_parts = None ->
handleMessageSend' st o id (Some p) = (st, Thrown "TypeError").
Proof.
intros (Hm & Hp & Hne & Hrole) Htext. unfold handleMessageSend.
cbn [mbind option_bind]. rewrite Hm, Hp.
destruct message_parts as [|part rest]; [congruence|].
assert (match truthy_string (msg_role message) with
        | Some r => negb (String.eqb r "user") | None => false end = false)
  as ->.
{ destruct (truthy_string (msg_role message)) as [r|] eqn:Er; [|reflexivity].
  apply truthy_string_Some in Er as [Er Hr].
  destruct (Hrole r Er) as [->| ->]; [congruence | reflexivity]. }
now rewrite Htext.
Qed.

Lemma handleMessageSend_no_text (st : Store) (o : Oracle) (id : RpcId)
  (p : Params) (message : Message) (message_parts : list (option Part)) :
well_formed_message p message message_parts ->
message_text message_parts = Some "" ->
handleMessageSend' st o id (Some p)
= (st, jsonRpcError id ERR_INVALID_PARAMS
         "No text content found in message parts").
Proof.
intros (Hm & Hp & Hne & Hrole) Htext. unfold handleMessageSend.
cbn [mbind option_bind]. rewrite Hm, Hp.
destruct message_parts as [|part rest]; [congruence|].
assert (match truthy_string (msg_role message) with
        | Some r => negb (String.eqb r "user") | None => false end = false)
  as ->.
{ destruct (truthy_string (msg_role message)) as [r|] eqn:Er; [|reflexivity].
  apply truthy_string_Some in Er as [Er Hr].
  destruct (Hrole r Er) as [->| ->]; [congruence | reflexivity]. }
now rewrite Htext.
Qed.

Lemma filter_text_parts_objects (ps : list Part) :
filter_text_parts (map Some ps) = Some (List.filter is_text_part ps).
Proof.
induction ps as [|q ps IH]; [reflexivity|].
cbn [map filter_text_parts List.filter]. rewrite IH.
now destruct (is_text_part q).
Qed.

Lemma filter_text_parts_null (message_parts : list (option Part)) :
In None message_parts -> filter_text_parts message_parts = None.
Proof.
induction message_parts as [|[q|] rest IH]; intros Hin.
- destruct Hin.
- destruct Hin as [Hin|Hin]; [discriminate|].
  cbn [filter_text_parts]. now rewrite (IH Hin).
- reflexivity.
Qed.

Lemma print_texts_throws (vs : list (option TextValue)) :
In (Some (TextOther None)) vs -> print_texts vs = None.
Proof.
induction vs as [|v vs IH]; intros Hin; [destruct Hin|].
cbn [print_texts]. destruct Hin as [->|Hin]; [reflexivity|].
rewrite (IH Hin). now destruct (print_text v).
Qed.

Lemma handleTasksCancel_wf (st : Store) (o : Oracle) (id : RpcId)
  (params : option Params) :
store_wf st ->
exists code msg,
  handleTasksCancel st o id params = (st, jsonRpcError id code msg) /\
  code = match truthy_string (params ≫= params_id) with
         | None => ERR_INVALID_PARAMS
         | Some taskId =>
             match stored st taskId with
             | None => ERR_TASK_NOT_FOUND
             | Some _ => ERR_TASK_NOT_CANCELABLE
             end
         end.
Proof.
intros Hwf. unfold handleTasksCancel, stored.
destruct (truthy_string (params ≫= params_id)) as [taskId|]; [|eauto].
destruct (map_get taskId (tasks st)) as [l|] eqn:El; [|cbn; eauto].
destruct (Hwf taskId l El) as (t & Ht & _ & Hdone).
cbn [mbind option_bind]. rewrite Ht, Hdone. cbn [existsb terminalStates].
rewrite String.eqb_refl. cbn [orb]. eauto.
Qed.

Lemma handler_store_wf (st : Store) (o : Oracle) (http_method : string)
  (body : option Body) :
store_wf st -> store_wf (fst (handler' st o http_method body)).
Proof.
intros Hwf. unfold handler.
destruct (String.eqb http_method "OPTIONS"); [exact Hwf|].
destruct (negb (String.eqb http_method "POST")); [exact Hwf|].
destruct body as [b|]; [|exact Hwf].
destruct (jsonrpc b) as [v|]; [|exact Hwf].
destruct (truthy_string (method b)) as [m|]; [|exact Hwf].
destruct (body_id b) as [id|]; [|exact Hwf].
destruct (negb (String.eqb v "2.0")); [exact Hwf|].
destruct (String.eqb m "message/send").
{ destruct (handleMessageSend' st o id (params b)) as [st' r] eqn:E.
  destruct (is_success r) eqn:Er.
  - destruct r as [id' t| | |]; try discriminate.
    pose proof (handleMessageSend_task _ _ _ _ _ _ _ E) as (_ & Hdone & _).
    apply handleMessageSend_success in E as [Hheap Htasks].
    intros k l Hk. cbn [fst] in Hk |- *. rewrite Htasks in Hk.
    apply map_get_prune in Hk. rewrite map_get_set in Hk. rewrite Hheap.
    destruct (String.eqb_spec (task_id t) k) as [Heq|Hneq].
    + injection Hk as <-. exists t. split; [now apply list_lookup_middle|].
      now split.
    + destruct (Hwf k l Hk) as (t0 & Ht0 & Hrest). exists t0.
      split; [|exact Hrest]. rewrite lookup_app_l; [exact Ht0|].
      now apply lookup_lt_Some in Ht0.
  - replace st' with (fst (handleMessageSend' st o id (params b)))
      by now rewrite E.
    rewrite handleMessageSend_failure'; [exact Hwf | now rewrite E]. }
destruct (String.eqb m "tasks/get").
{ destruct (handleTasksGet_frame st id (params b)) as [Htasks Hheap].
  intros k l Hk. rewrite Htasks in Hk.
  destruct (Hwf k l Hk) as (t0 & Ht0 & Hrest). exists t0.
  split; [|exact Hrest]. rewrite Hheap; [exact Ht0|].
  now apply lookup_lt_Some in Ht0. }
destruct (String.eqb m "tasks/cancel").
{ destruct (handleTasksCancel_wf st o id (params b) Hwf) as (c & msg & -> & _).
  exact Hwf. }
destruct (String.eqb m "message/stream"); [exact Hwf|].
destruct (String.eqb m "tasks/resubscribe"); [exact Hwf|].
now destruct (existsb _ _).
Qed.

Lemma reachable_wf (st : Store) : reachable' st -> store_wf st.
Proof.
induction 1 as [|st o m b _ IH].
- intros k l Hk. discriminate.
- now apply handler_store_wf.
Qed.

Lemma handleMessageSend_outcome (st : Store) (o : Oracle) (id : RpcId)
  (params : option Params) :
let r := snd (handleMessageSend' st o id params) in
responds_to id r \/ r = Thrown "TypeError".
Proof.
unfold handleMessageSend.
destruct (params ≫= params_message) as [message|]; [|now left].
destruct (msg_parts message) as [[|part rest]|]; try now left.
destruct (match truthy_string (msg_role message) with
          | Some r => negb (String.eqb r "user") | None => false end);
  [now left|].
destruct (message_text _) as [userText|]; [|now right].
destruct (String.eqb _ ""); [now left|].
destruct (agentId_of _) as [agentId|]; [now left | now right].
Qed.

Lemma handleTasksGet_outcome' (st : Store) (id : RpcId) (params : option Params) :
let r := snd (handleTasksGet st id params) in
responds_to id r \/ r = Thrown "TypeError".
Proof.
unfold handleTasksGet.
destruct (truthy_string (params ≫= params_id)) as [taskId|]; [|now left].
destruct (map_get taskId (tasks st)) as [l|]; [|now left].
destruct (heap st !! l) as [task|]; [|now right].
unfold alloc. rewrite get_heap_result. now left.
Qed.

Lemma handleTasksCancel_outcome (st : Store) (o : Oracle) (id : RpcId)
  (params : option Params) :
let r := snd (handleTasksCancel st o id params) in
responds_to id r \/ r = Thrown "TypeError".
Proof.
unfold handleTasksCancel.
destruct (truthy_string (params ≫= params_id)) as [taskId|]; [|now left].
destruct (map_get taskId (tasks st)) as [l|]; [|now left].
destruct (heap st !! l) as [task|] eqn:Ht; [|now right].
destruct (existsb _ terminalStates); [now left|].
rewrite list_lookup_alter_eq, Ht. now left.
Qed.

Lemma In_keys_map_get (k : string) (m : TaskMap) :
In k (map fst m) -> exists l, map_get k m = Some l.
Proof.
intros Hin. destruct (map_get k m) as [l|] eqn:E; [eauto|].
now apply map_get_None in E.
Qed.

(** X11.  In a store the handler has built, every key of the task map
  leads to a task object that carries that key as its id and is in state
  completed: no task is ever stored in another state or under another
  id, and no key is left without its object. *)
Theorem reachable_tasks_completed (st : Store) :
reachable' st ->
forall k, In k (map fst (tasks st)) ->
  exists t, stored st k = Some t /\ task_id t = k /\
            state (status t) = "completed".
Proof.
intros Hr k Hin. apply In_keys_map_get in Hin as [l Hl].
destruct (reachable_wf st Hr k l Hl) as (t & Ht & Hid & Hdone).
exists t. unfold stored. rewrite Hl. cbn [mbind option_bind]. auto.
Qed.

(** X12.  In a store the handler has built, [tasks/cancel] never cancels:
  whatever the request, the answer is an error under the request id, the
  store stays as it is, and the code is -32602 for a missing or empty
  task id, -32001 for an unknown one and -32002 for every task there is.
  So no stored task is ever in state canceled. *)
Theorem tasks_cancel_never_succeeds (st : Store) :
reachable' st ->
(forall o id params, exists code msg,
   handleTasksCancel st o id params = (st, jsonRpcError id code msg) /\
   code = match truthy_string (params ≫= params_id) with
          | None => ERR_INVALID_PARAMS
          | Some taskId =>
              match stored st taskId with
              | None => ERR_TASK_NOT_FOUND
              | Some _ => ERR_TASK_NOT_CANCELABLE
              end
          end) /\
(forall k t, stored st k = Some t -> state (status t) <> "canceled").
Proof.
intros Hr. pose proof (reachable_wf st Hr) as Hwf. split.
- intros o id params. now apply handleTasksCancel_wf.
- intros k t Hst. apply stored_Some in Hst as (l & Hl & Ht).
  destruct (Hwf k l Hl) as (t' & Ht' & _ & Hdone).
  assert (t' = t) as -> by congruence. rewrite Hdone. discriminate.
Qed.

(** X13.  The handler answers OPTIONS with status 204 and every other
  method but POST with status 405, without reading the body.  A POST is
  answered by a JSON-RPC envelope that carries the id of the request, or
  null when the body is not JSON or has no id, unless a TypeError
  escapes. *)
Theorem handler_echoes_request_id (st : Store) (o : Oracle)
  (http_method : string) (body : option Body) :
let r := snd (handler' st o http_method body) in
(http_method = "OPTIONS" /\ r = HttpStatus 204) \/
(http_method <> "OPTIONS" /\ http_method <> "POST" /\ r = HttpStatus 405) \/
(http_method = "POST" /\
 (responds_to (default IdNull (body ≫= body_id)) r \/ r = Thrown "TypeError")).
Proof.
unfold handler.
destruct (String.eqb_spec http_method "OPTIONS") as [->|Hopt]; [now left|].
right.
destruct (String.eqb_spec http_method "POST") as [->|Hpost]; [|now left].
right. split; [reflexivity|]. cbn [negb].
destruct body as [b|]; [|now left]. cbn [mbind option_bind].
destruct (jsonrpc b) as [v|]; [|now left].
destruct (truthy_string (method b)) as [m|]; [|now left].
destruct (body_id b) as [id|]; [|now left]. cbn [default].
destruct (negb (String.eqb v "2.0")); [now left|].
destruct (String.eqb m "message/send"); [apply handleMessageSend_outcome|].
destruct (String.eqb m "tasks/get"); [apply handleTasksGet_outcome'|].
destruct (String.eqb m "tasks/cancel"); [apply handleTasksCancel_outcome|].
destruct (String.eqb m "message/stream"); [now left|].
destruct (String.eqb m "tasks/resubscribe"); [now left|].
destruct (existsb _ _); now left.
Qed.

(** X14.  A task that [message/send] has just returned can be read back:
  it is stored under its id (the message's task id when it has one, else
  the generated one), also when the store was full; [tasks/get] on that
  id returns it, whole for every [historyLength] other than 0 and
  without its history for 0; and [tasks/cancel] on it is refused with
  -32002 and changes nothing. *)
Theorem send_then_get (st st' : Store) (o : Oracle) (id id' : RpcId)
  (params : option Params) (t : Task) :
store_ok st -> uid_taskId o <> "" ->
handleMessageSend' st o id params = (st', jsonRpcSuccess id' t) ->
stored st' (task_id t) = Some t /\
(exists message,
   params ≫= params_message = Some message /\
   task_id t = default (uid_taskId o) (truthy_string (msg_taskId message))) /\
(forall id2 p, params_id p = Some (task_id t) ->
   snd (handleTasksGet st' id2 (Some p))
   = jsonRpcSuccess id2
       match params_historyLength p with
       | Some (JNum q) => if Qeq_bool q 0 then delete_history t else t
       | _ => t
       end) /\
(forall o2 id2 p, params_id p = Some (task_id t) ->
   exists msg,
     handleTasksCancel st' o2 id2 (Some p)
     = (st', jsonRpcError id2 ERR_TASK_NOT_CANCELABLE msg)).
Proof.
intros [Hsize Hdup] Huid Hrun.
pose proof (handleMessageSend_task _ _ _ _ _ _ _ Hrun)
  as (_ & Hdone & _ & message & Hm & Hid & _).
pose proof (handleMessageSend_success _ _ _ _ _ _ _ _ Hrun) as [Hheap Htasks].
assert (Hne : task_id t <> "").
{ rewrite Hid. destruct (truthy_string (msg_taskId message)) as [k|] eqn:Ek;
    [|exact Huid].
  apply truthy_string_Some in Ek. tauto. }
assert (Hst : stored st' (task_id t) = Some t).
{ unfold stored. rewrite Htasks, map_get_prune_set by assumption.
  cbn [mbind option_bind]. rewrite Hheap. now apply list_lookup_middle. }
split; [exact Hst|]. split; [eauto|]. split.
- intros id2 p Hp. now apply handleTasksGet_stored with (taskId := task_id t).
- intros o2 id2 p Hp. eexists.
  apply handleTasksCancel_terminal with (taskId := task_id t) (t := t);
    try assumption.
  rewrite Hdone. now left.
Qed.

(** X15.  For a message that has parts none of which is [null], whose
  role is absent or user, and whose texts convert to strings,
  [message/send] answers "No text content found in message parts"
  exactly when the texts of its text parts, joined by blanks, consist
  of the white space [trim] strips; in particular when no part is a text
  part.  The store is untouched in that case. *)
Theorem send_requires_text (st : Store) (o : Oracle) (id : RpcId) (p : Params)
  (message : Message) (ps : list Part) (textParts : list (option string)) :
well_formed_message p message (map Some ps) ->
print_texts (map part_text (List.filter is_text_part ps)) = Some textParts ->
(handleMessageSend' st o id (Some p)
 = (st, jsonRpcError id ERR_INVALID_PARAMS
          "No text content found in message parts")
 <-> forall a,
       In a (String.list_ascii_of_string (join " " textParts)) ->
       is_space a = true) /\
(List.filter is_text_part ps = [] ->
 handleMessageSend' st o id (Some p)
 = (st, jsonRpcError id ERR_INVALID_PARAMS
          "No text content found in message parts")).
Proof.
intros Hwf Hprint.
assert (Htext : message_text (map Some ps) = Some (trim (join " " textParts)))
  by (unfold message_text; now rewrite filter_text_parts_objects, Hprint).
assert (Hiff : handleMessageSend' st o id (Some p)
               = (st, jsonRpcError id ERR_INVALID_PARAMS
                        "No text content found in message parts")
               <-> trim (join " " textParts) = "").
{ split.
  - intros Hrun.
    destruct (String.eqb_spec (trim (join " " textParts)) "") as [E|E];
      [exact E|]. exfalso.
    destruct Hwf as (Hm & Hp & Hne & Hrole).
    pose proof (handleMessageSend_routed generateAgentResponse st o id p
                  message (map Some ps) _ Hm Hp Hne Hrole Htext E) as H.
    cbv zeta in H. destruct (agentId_of _).
    + destruct H as (st' & t & H & _). congruence.
    + congruence.
  - intros E. apply (handleMessageSend_no_text st o id p message (map Some ps) Hwf).
    now rewrite Htext, E. }
split.
- rewrite Hiff. apply trim_empty_iff.
- intros Hnone. apply Hiff. rewrite Hnone in Hprint.
  injection Hprint as <-. reflexivity.
Qed.

(** X16.  Three kinds of [message/send] that pass the structural checks
  and yet escape as a TypeError instead of an answer, each leaving the
  store as it was: a skill id that names a member [SKILL_MAP] inherits
  from [Object.prototype] (such as constructor or toString), which
  passes the router's lookup and fails at
  [agent.agentId.toLowerCase()]; a [null] among the parts, on which the
  filter's [p.kind] fails; and a text part whose text is a value that
  cannot be converted to a string, on which [join] fails. *)
Theorem inherited_skill_id_throws (st : Store) (o : Oracle) (id : RpcId)
  (p : Params) (message : Message) (message_parts : list (option Part)) :
well_formed_message p message message_parts ->
(forall userText sid,
   message_text message_parts = Some userText -> userText <> "" ->
   params_metadata p ≫= skillId = Some sid ->
   In sid Object_prototype_members ->
   handleMessageSend' st o id (Some p) = (st, Thrown "TypeError")) /\
(In None message_parts ->
 handleMessageSend' st o id (Some p) = (st, Thrown "TypeError")) /\
(forall q,
   In (Some q) message_parts -> ~ In None message_parts ->
   part_kind q = Some "text" -> part_text q = Some (TextOther None) ->
   handleMessageSend' st o id (Some p) = (st, Thrown "TypeError")).
Proof.
intros Hwf. split; [|split].
- intros userText sid Htext Hne Hsid Hin.
  destruct Hwf as (Hm & Hp & Hparts & Hrole).
  pose proof (handleMessageSend_routed generateAgentResponse st o id p
                message message_parts userText Hm Hp Hparts Hrole Htext Hne)
    as H.
  cbv zeta in H.
  now rewrite (routeToAgent_member userText sid _ Hsid Hin) in H.
- intros Hnull. apply (handleMessageSend_text_throws st o id p message
                         message_parts Hwf).
  unfold message_text. now rewrite filter_text_parts_null.
- intros q Hq Hnonull Hkind Htext.
  apply (handleMessageSend_text_throws st o id p message message_parts Hwf).
  unfold message_text.
  assert (Hobjects : exists ps, message_parts = map Some ps).
  { clear - Hnonull. induction message_parts as [|[x|] rest IH].
    - now exists [].
    - destruct IH as [ps ->]; [intros H; apply Hnonull; now right|].
      now exists (x :: ps).
    - exfalso. apply Hnonull. now left. }
  destruct Hobjects as [ps ->]. rewrite filter_text_parts_objects.
  rewrite print_texts_throws; [reflexivity|].
  apply in_map_iff. exists q. split; [exact Htext|].
  apply List.filter_In. split.
  + apply in_map_iff in Hq as (q' & [= ->] & Hq'). exact Hq'.
  + unfold is_text_part. rewrite Hkind. reflexivity.
Qed.

End MoreHandlerFacts.

(* ===================================================================== *)
(** * Generated identifiers *)
(* ===================================================================== *)

Lemma truncate_random (q : Q) :
  (0 <= q)%Q -> (q < 1)%Q -> 0 <= to_int32 (truncate (q * 16)) < 16.
Proof.
  destruct q as [n d]. unfold Qle, Qlt, truncate, to_int32. cbn.
  intros Hlo Hhi.
  assert (Hn : 0 <= n) by lia.
  assert (Hq : 0 <= Z.quot (n * 16) (Z.pos (d * 1)) < 16).
  { rewrite Z.quot_div_nonneg by lia. split.
    - apply Z.div_pos; lia.
    - apply Z.div_lt_upper_bound; lia. }
  rewrite Z.mod_small; lia.
Qed.

Lemma toString16_digit (v : Z) :
  0 <= v < 16 -> toString16 v = String (hex_digit v) "".
Proof.
  intros Hv. unfold toString16.
  destruct (Z.ltb_spec v 0); [lia|].
  cbn [hex_digits]. rewrite Z.div_small, Z.mod_small by lia. reflexivity.
Qed.

Lemma hex_digit_hex (v : Z) : 0 <= v < 16 -> is_hex_lower (hex_digit v) = true.
Proof.
  intros Hv.
  assert (H : In v [0; 1; 2; 3; 4; 5; 6; 7; 8; 9; 10; 11; 12; 13; 14; 15])
    by (cbn; lia).
  cbn [In] in H.
  repeat (destruct H as [<-|H]; [reflexivity|]). destruct H.
Qed.

Lemma variant_range (r : Z) : 0 <= r < 16 -> 8 <= Z.lor (Z.land r 3) 8 < 12.
Proof.
  intros Hr.
  assert (H : In r [0; 1; 2; 3; 4; 5; 6; 7; 8; 9; 10; 11; 12; 13; 14; 15])
    by (cbn; lia).
  cbn [In] in H.
  repeat (destruct H as [<-|H];
          [vm_compute; split; [discriminate | reflexivity]|]).
  destruct H.
Qed.

Lemma uid_replacement_x (q : Q) :
  (0 <= q)%Q -> (q < 1)%Q ->
  exists a, uid_replacement "x" q = String a "" /\ is_hex_lower a = true.
Proof.
  intros Hlo Hhi. pose proof (truncate_random q Hlo Hhi) as Hr.
  exists (hex_digit (to_int32 (truncate (q * 16)))).
  unfold uid_replacement. cbn [Ascii.eqb Bool.eqb].
  split; [now apply toString16_digit | now apply hex_digit_hex].
Qed.

Lemma uid_replacement_y (q : Q) :
  (0 <= q)%Q -> (q < 1)%Q ->
  exists a, uid_replacement "y" q = String a "" /\
            In a ["8"; "9"; "a"; "b"]%char /\ is_hex_lower a = true.
Proof.
  intros Hlo Hhi. pose proof (truncate_random q Hlo Hhi) as Hr.
  apply variant_range in Hr.
  exists (hex_digit (Z.lor (Z.land (to_int32 (truncate (q * 16))) 3) 8)).
  unfold uid_replacement. cbn [Ascii.eqb Bool.eqb].
  split; [apply toString16_digit; lia|].
  split; [|apply hex_digit_hex; lia].
  set (v := Z.lor _ 8) in *.
  assert (H : In v [8; 9; 10; 11]) by (cbn; lia).
  cbn [In] in H.
  repeat (destruct H as [<-|H]; [cbn; tauto|]). destruct H.
Qed.

(** X17.  With [Math.random] within its range, [uid] returns a string in
    the layout of a version-4 UUID: 36 characters, hyphens at positions 8,
    13, 18 and 23, the digit 4 at position 14, one of 8, 9, a, b at
    position 19, and lower-case hexadecimal digits everywhere else.  In
    particular a generated id is never the empty string. *)
Theorem uid_is_v4_uuid (random : nat -> Q) :
  (forall n, (0 <= random n)%Q /\ (random n < 1)%Q) ->
  let u := uid random in
  String.length u = 36%nat /\ u <> "" /\
  (forall i, In i [8; 13; 18; 23]%nat -> String.get i u = Some "-"%char) /\
  String.get 14 u = Some "4"%char /\
  (exists a, String.get 19 u = Some a /\ In a ["8"; "9"; "a"; "b"]%char) /\
  (forall i a, String.get i u = Some a -> ~ In i [8; 13; 18; 23]%nat ->
     is_hex_lower a = true).
Proof.
  intros Hrange u. subst u. unfold uid, uid_template.
  cbn [replace_xy Ascii.eqb Bool.eqb orb].
  repeat match goal with
  | |- context [uid_replacement "x" (random ?n)] =>
      let a := fresh "a" in let E := fresh "E" in let H := fresh "H" in
      destruct (uid_replacement_x (random n) (proj1 (Hrange n)) (proj2 (Hrange n)))
        as (a & E & H); rewrite E; clear E
  | |- context [uid_replacement "y" (random ?n)] =>
      let a := fresh "a" in let E := fresh "E" in let H := fresh "H" in
      let H' := fresh "H" in
      destruct (uid_replacement_y (random n) (proj1 (Hrange n)) (proj2 (Hrange n)))
        as (a & E & H & H'); rewrite E; clear E
  end.
  cbn [String.append].
  split; [reflexivity|]. split; [discriminate|]. split.
  { intros i Hi. cbn [In] in Hi.
    repeat (destruct Hi as [<-|Hi]; [reflexivity|]). destruct Hi. }
  split; [reflexivity|]. split; [eexists; split; [reflexivity | assumption]|].
  intros i c Hget Hpos.
  do 36 (destruct i as [|i];
         [first [ exfalso; apply Hpos; cbn; tauto
                | cbn in Hget; injection Hget as <-;
                  first [assumption | reflexivity] ] |]).
  discriminate.
Qed.

(* ===================================================================== *)
(** * Properties of the agent-card validator *)
(* ===================================================================== *)

Lemma filter_none {A : Type} (f : A -> bool) (l : list A) :
  (forall x, In x l -> f x = false) -> List.filter f l = [].
Proof.
  induction l as [|x l IH]; [reflexivity|]. intros H. simpl.
  rewrite (H x (or_introl eq_refl)). apply IH. intros y Hy. apply H. now right.
Qed.

Lemma count_severity_app (s : string) (xs ys : list ValidationCheck) :
  count_severity s (xs ++ ys) = (count_severity s xs + count_severity s ys)%nat.
Proof. unfold count_severity. now rewrite List.filter_app, length_app. Qed.

Lemma count_severity_pos (s : string) (checks : list ValidationCheck) :
  (0 < count_severity s checks)%nat <->
  exists c, In c checks /\ severity c = s.
Proof.
  unfold count_severity. induction checks as [|c checks IH]; simpl.
  - split; [lia | intros (c & [] & _)].
  - destruct (String.eqb_spec (severity c) s) as [E|E]; simpl.
    + split; [intros _; exists c; auto | lia].
    + rewrite IH. split.
      * intros (c' & Hin & Hs). exists c'. auto.
      * intros (c' & [<-|Hin] & Hs); [congruence | exists c'; auto].
Qed.

Lemma count_severity_zero (s : string) (checks : list ValidationCheck) :
  count_severity s checks = 0%nat <->
  forall c, In c checks -> severity c <> s.
Proof.
  split.
  - intros H0 c Hin Hs.
    assert (0 < count_severity s checks)%nat
      by (apply count_severity_pos; eauto). lia.
  - intros Hall. destruct (count_severity s checks) eqn:E; [reflexivity|].
    assert (Hpos : (0 < count_severity s checks)%nat) by lia.
    apply count_severity_pos in Hpos as (c & Hin & Hs).
    now destruct (Hall c Hin).
Qed.

Lemma count_severity_total (checks : list ValidationCheck) :
  (forall c, In c checks -> known_severity (severity c)) ->
  length checks
  = (count_severity "pass" checks + count_severity "fail" checks
     + count_severity "warn" checks + count_severity "info" checks)%nat.
Proof.
  unfold count_severity. induction checks as [|c checks IH]; [reflexivity|].
  intros Hall. simpl. rewrite IH by (intros c' Hc'; apply Hall; now right).
  destruct (Hall c (or_introl eq_refl)) as [-> | [-> | [-> | ->]]];
    simpl; lia.
Qed.

Lemma verdict_cases (now url : string) (card : option Json)
    (checks : list ValidationCheck) (fetchMs httpStatus : option Z) :
  verdict (validationResponse now url card checks fetchMs httpStatus)
  = if (0 <? count_severity "fail" checks)%nat then "invalid"
    else if (0 <? count_severity "warn" checks)%nat then "valid_with_warnings"
    else "valid".
Proof. reflexivity. Qed.

(** X18.  The report's verdict is invalid exactly when some check failed,
    valid exactly when no check failed or warned, and valid_with_warnings
    otherwise; checks of severity pass or info never change it.  The
    counts of the summary add up to the total whenever every check has one
    of the four severities, and a missing fetch time or HTTP status is
    reported as 0. *)
Theorem validationResponse_verdict (now url : string) (card : option Json)
    (checks : list ValidationCheck) (fetchMs httpStatus : option Z) :
  let r := validationResponse now url card checks fetchMs httpStatus in
  (verdict r = "invalid" <-> exists c, In c checks /\ severity c = "fail") /\
  (verdict r = "valid" <->
   forall c, In c checks -> severity c <> "fail" /\ severity c <> "warn") /\
  (verdict r = "valid_with_warnings" <->
   (forall c, In c checks -> severity c <> "fail") /\
   exists c, In c checks /\ severity c = "warn") /\
  (forall c, severity c = "pass" \/ severity c = "info" ->
     verdict (validationResponse now url card (c :: checks) fetchMs httpStatus)
     = verdict r) /\
  ((forall c, In c checks -> known_severity (severity c)) ->
   summary_total (summary r)
   = (summary_pass (summary r) + summary_fail (summary r)
      + summary_warn (summary r) + summary_info (summary r))%nat) /\
  result_checks r = checks /\
  (fetchMs = None -> result_fetchMs r = 0) /\
  (httpStatus = None -> result_httpStatus r = 0).
Proof.
  intros r. subst r. rewrite !verdict_cases.
  pose proof (count_severity_pos "fail" checks) as Hf.
  pose proof (count_severity_pos "warn" checks) as Hw.
  pose proof (count_severity_zero "fail" checks) as Hf0.
  pose proof (count_severity_zero "warn" checks) as Hw0.
  assert (Hcase : (count_severity "fail" checks = 0)%nat
                  \/ (0 < count_severity "fail" checks)%nat) by lia.
  assert (Hcase' : (count_severity "warn" checks = 0)%nat
                   \/ (0 < count_severity "warn" checks)%nat) by lia.
  split; [|split; [|split; [|split; [|split; [|split; [|split]]]]]].
  - destruct (Nat.ltb_spec 0 (count_severity "fail" checks)) as [Hlt|Hge].
    + split; [intros _; now apply Hf | reflexivity].
    + split; [destruct (0 <? _)%nat; discriminate|].
      intros H. apply Hf in H. lia.
  - split.
    + destruct (Nat.ltb_spec 0 (count_severity "fail" checks)); [discriminate|].
      destruct (Nat.ltb_spec 0 (count_severity "warn" checks)); [discriminate|].
      intros _ c Hc. split; [apply Hf0 | apply Hw0]; trivial; lia.
    + intros Hall.
      assert (count_severity "fail" checks = 0%nat) as ->
        by (apply Hf0; intros c Hc; now apply Hall).
      assert (count_severity "warn" checks = 0%nat) as ->
        by (apply Hw0; intros c Hc; now apply Hall).
      reflexivity.
  - split.
    + destruct (Nat.ltb_spec 0 (count_severity "fail" checks)); [discriminate|].
      destruct (Nat.ltb_spec 0 (count_severity "warn" checks)); [|discriminate].
      intros _. split; [apply Hf0; lia | now apply Hw].
    + intros [Hnf Hsome]. apply Hf0 in Hnf. apply Hw in Hsome. rewrite Hnf.
      destruct (Nat.ltb_spec 0 (count_severity "warn" checks)); [reflexivity|lia].
  - intros c Hc. rewrite verdict_cases. unfold count_severity.
    cbn [List.filter]. destruct Hc as [-> | ->]; reflexivity.
  - intros Hall. cbn [summary summary_total summary_pass summary_fail
                        summary_warn summary_info validationResponse].
    now apply count_severity_total.
  - reflexivity.
  - now intros ->.
  - now intros ->.
Qed.

Lemma required_check_severity (card : list (string * Json)) (field : string) :
  severity (required_check card field)
  = if lacks card field then "fail" else "pass".
Proof.
  unfold required_check, lacks.
  now destruct (assoc field card) as [[]|].
Qed.

Lemma In_optional_check (card : list (string * Json)) (field : string)
    (c : ValidationCheck) :
  In c (optional_check card field) -> severity c = "info".
Proof.
  unfold optional_check. destruct (assoc field card); [|intros []].
  now intros [<-|[]].
Qed.

Lemma In_unknown_check (key : string) (c : ValidationCheck) :
  In c (unknown_check key) ->
  severity c = "warn" /\ ~ In key knownFields.
Proof.
  unfold unknown_check.
  destruct (existsb (String.eqb key) knownFields) eqn:E; [intros []|].
  intros [<-|[]]. split; [reflexivity|]. intros Hin.
  assert (existsb (String.eqb key) knownFields = true); [|congruence].
  apply existsb_exists. exists key. split; [exact Hin | apply String.eqb_refl].
Qed.

Lemma count_required (s : string) (card : list (string * Json))
    (fields : list string) :
  count_severity s (map (required_check card) fields)
  = length (List.filter
              (fun f => String.eqb (if lacks card f then "fail" else "pass") s)
              fields).
Proof.
  unfold count_severity. induction fields as [|f fields IH]; [reflexivity|].
  cbn [map List.filter]. rewrite required_check_severity.
  destruct (String.eqb _ s); cbn [length]; now rewrite IH.
Qed.

Lemma count_flat_map_none {A : Type} (s : string) (f : A -> list ValidationCheck)
    (xs : list A) :
  (forall x c, In c (f x) -> severity c <> s) ->
  count_severity s (flat_map f xs) = 0%nat.
Proof.
  intros H. apply count_severity_zero. intros c Hin.
  apply in_flat_map in Hin as (x & _ & Hc). now apply (H x).
Qed.

Lemma count_unknown (keys : list string) :
  count_severity "warn" (flat_map unknown_check keys)
  = length (List.filter (fun k => negb (existsb (String.eqb k) knownFields)) keys).
Proof.
  induction keys as [|k keys IH]; [reflexivity|].
  cbn [flat_map List.filter]. rewrite count_severity_app, IH.
  unfold unknown_check at 1.
  destruct (negb (existsb (String.eqb k) knownFields)); reflexivity.
Qed.

(** X19.  The checks on the top-level fields of a card: each of the nine
    required fields that is absent or null gives one failed check, each
    key that is neither required nor optional gives one warning, and
    nothing else fails or warns.  So whatever other checks the report
    holds, a card lacking a required field is reported invalid; and on
    their own these checks give the verdict valid exactly when no required
    field is lacking and every key is a known one. *)
Theorem structure_checks_verdict (card : list (string * Json)) :
  count_severity "fail" (structure_checks card)
  = length (List.filter (lacks card) REQUIRED_TOP_LEVEL) /\
  count_severity "warn" (structure_checks card)
  = length (List.filter (fun k => negb (existsb (String.eqb k) knownFields))
              (map fst card)) /\
  (forall c, In c (structure_checks card) -> known_severity (severity c)) /\
  (forall field now url json before after fetchMs httpStatus,
     In field REQUIRED_TOP_LEVEL -> lacks card field = true ->
     verdict (validationResponse now url json
                (before ++ structure_checks card ++ after) fetchMs httpStatus)
     = "invalid") /\
  (forall now url json fetchMs httpStatus,
     verdict (validationResponse now url json (structure_checks card)
                fetchMs httpStatus) = "valid"
     <-> (forall field, In field REQUIRED_TOP_LEVEL -> lacks card field = false)
         /\ (forall key, In key (map fst card) -> In key knownFields)).
Proof.
  assert (Hfail : count_severity "fail" (structure_checks card)
                  = length (List.filter (lacks card) REQUIRED_TOP_LEVEL)).
  { unfold structure_checks. rewrite !count_severity_app, count_required.
    rewrite !count_flat_map_none.
    - rewrite !Nat.add_0_r. f_equal. apply List.filter_ext.
      intros f. now destruct (lacks card f).
    - intros k c Hc. apply In_unknown_check in Hc as [-> _]. discriminate.
    - intros f c Hc. apply In_optional_check in Hc as ->. discriminate. }
  assert (Hwarn : count_severity "warn" (structure_checks card)
                  = length (List.filter
                              (fun k => negb (existsb (String.eqb k) knownFields))
                              (map fst card))).
  { unfold structure_checks. rewrite !count_severity_app, count_required.
    rewrite count_unknown, count_flat_map_none.
    - replace (List.filter _ REQUIRED_TOP_LEVEL) with (@nil string); [reflexivity|].
      symmetry. apply filter_none.
      intros f _. now destruct (lacks card f).
    - intros f c Hc. apply In_optional_check in Hc as ->. discriminate. }
  split; [exact Hfail|]. split; [exact Hwarn|]. split; [|split].
  - intros c. unfold structure_checks. rewrite !in_app_iff, in_map_iff, !in_flat_map.
    intros [(f & <- & _) | [(f & _ & Hc) | (k & _ & Hc)]].
    + rewrite required_check_severity. unfold known_severity.
      destruct (lacks card f); auto.
    + apply In_optional_check in Hc as ->. unfold known_severity. auto.
    + apply In_unknown_check in Hc as [-> _]. unfold known_severity. auto.
  - intros field now url json before after fetchMs httpStatus Hin Hlacks.
    rewrite verdict_cases.
    assert (Hpos : (0 < count_severity "fail" (structure_checks card))%nat).
    { rewrite Hfail.
      assert (In field (List.filter (lacks card) REQUIRED_TOP_LEVEL))
        by (apply List.filter_In; auto).
      destruct (List.filter (lacks card) REQUIRED_TOP_LEVEL); [contradiction|].
      simpl. lia. }
    rewrite !count_severity_app.
    destruct (Nat.ltb_spec 0 (count_severity "fail" before
                              + (count_severity "fail" (structure_checks card)
                                 + count_severity "fail" after))%nat);
      [reflexivity | lia].
  - intros now url json fetchMs httpStatus. rewrite verdict_cases, Hfail, Hwarn.
    split.
    + destruct (Nat.ltb_spec 0 (length (List.filter (lacks card) REQUIRED_TOP_LEVEL)))
        as [|Hf]; [discriminate|].
      destruct (Nat.ltb_spec 0 (length (List.filter
                 (fun k => negb (existsb (String.eqb k) knownFields))
                 (map fst card)))) as [|Hw]; [discriminate|].
      intros _. split.
      * intros field Hin. destruct (lacks card field) eqn:E; [|reflexivity].
        assert (In field (List.filter (lacks card) REQUIRED_TOP_LEVEL))
          by (apply List.filter_In; auto).
        destruct (List.filter (lacks card) REQUIRED_TOP_LEVEL);
          [contradiction | simpl in Hf; lia].
      * intros key Hin.
        destruct (existsb (String.eqb key) knownFields) eqn:E.
        -- apply existsb_exists in E as (x & Hx & Heq).
           apply String.eqb_eq in Heq. now subst.
        -- assert (In key (List.filter
                     (fun k => negb (existsb (String.eqb k) knownFields))
                     (map fst card)))
             by (apply List.filter_In; split; [exact Hin | now rewrite E]).
           destruct (List.filter _ (map fst card));
             [contradiction | simpl in Hw; lia].
    + intros [Hreq Hkeys].
      assert (List.filter (lacks card) REQUIRED_TOP_LEVEL = []) as ->.
      { apply filter_none. intros f Hf. now apply Hreq. }
      assert (List.filter (fun k => negb (existsb (String.eqb k) knownFields))
                (map fst card) = []) as ->.
      { apply filter_none. intros k Hk.
        assert (existsb (String.eqb k) knownFields = true) as ->; [|reflexivity].
        apply existsb_exists. exists k.
        split; [now apply Hkeys | apply String.eqb_refl]. }
      reflexivity.
Qed.

(* ===================================================================== *)
(** * Letter case in routing *)
(* ===================================================================== *)

Lemma flat_map_map {A B C : Type} (g : B -> list C) (h : A -> B) (l : list A) :
  flat_map g (map h l) = flat_map (fun x => g (h x)) l.
Proof. induction l as [|x l IH]; simpl; [reflexivity | now rewrite IH]. Qed.

Lemma map_flat_map {A B C : Type} (h : B -> C) (g : A -> list B) (l : list A) :
  map h (flat_map g l) = flat_map (fun x => map h (g x)) l.
Proof.
  induction l as [|x l IH]; simpl; [reflexivity|].
  now rewrite map_app, IH.
Qed.

Lemma flat_map_commute {A : Type} (F : A -> list A) (h : A -> A) (xs : list A) :
  (forall y, F (h y) = map h (F y)) ->
  flat_map F (map h xs) = map h (flat_map F xs).
Proof.
  intros HF. rewrite flat_map_map, map_flat_map.
  apply flat_map_ext. intros y. apply HF.
Qed.

Lemma iter_exact_map (F : pos -> list pos) (h : pos -> pos) (n : nat)
    (xs : list pos) :
  (forall y, F (h y) = map h (F y)) ->
  iter_exact F n (map h xs) = map h (iter_exact F n xs).
Proof.
  intros HF. revert xs. induction n as [|n IH]; intros xs; [reflexivity|].
  simpl. now rewrite flat_map_commute, IH.
Qed.

Lemma iter_upto_map (F : pos -> list pos) (h : pos -> pos) (n : nat)
    (xs : list pos) :
  (forall y, F (h y) = map h (F y)) ->
  iter_upto F n (map h xs) = map h (iter_upto F n xs).
Proof.
  intros HF. revert xs. induction n as [|n IH]; intros xs; [reflexivity|].
  simpl. now rewrite flat_map_commute, IH, map_app.
Qed.

Lemma upper_or_lower (a : ascii) : a = lower_ascii a \/ a = upper_ascii a.
Proof. destruct a as [[] [] [] [] [] [] [] []]; cbv; tauto. Qed.

Lemma lower_upper_ascii (a : ascii) : lower_ascii (upper_ascii a) = lower_ascii a.
Proof. destruct a as [[] [] [] [] [] [] [] []]; reflexivity. Qed.

Lemma lower_ascii_idem (a : ascii) : lower_ascii (lower_ascii a) = lower_ascii a.
Proof. destruct a as [[] [] [] [] [] [] [] []]; reflexivity. Qed.

Lemma is_word_upper (a : ascii) : is_word (upper_ascii a) = is_word a.
Proof. destruct a as [[] [] [] [] [] [] [] []]; reflexivity. Qed.

Lemma is_word_lower (a : ascii) : is_word (lower_ascii a) = is_word a.
Proof. destruct a as [[] [] [] [] [] [] [] []]; reflexivity. Qed.

Lemma toLowerCase_toUpperCase (s : string) :
  toLowerCase (toUpperCase s) = toLowerCase s.
Proof.
  induction s as [|a s IH]; simpl; [reflexivity|].
  now rewrite lower_upper_ascii, IH.
Qed.

Lemma toLowerCase_idem (s : string) : toLowerCase (toLowerCase s) = toLowerCase s.
Proof.
  induction s as [|a s IH]; simpl; [reflexivity|].
  now rewrite lower_ascii_idem, IH.
Qed.

Lemma toUpperCase_map (s : string) : toUpperCase s = map_string upper_ascii s.
Proof. induction s as [|a s IH]; simpl; [reflexivity | now rewrite IH]. Qed.

Lemma toLowerCase_map (s : string) : toLowerCase s = map_string lower_ascii s.
Proof. induction s as [|a s IH]; simpl; [reflexivity | now rewrite IH]. Qed.

Section CaseMapping.

(** A case mapping: [f] is [upper_ascii] or [lower_ascii]. *)
Variable f : ascii -> ascii.
Hypothesis f_lower : forall a, lower_ascii (f a) = lower_ascii a.
Hypothesis f_upper : forall a, upper_ascii (f a) = upper_ascii a.
Hypothesis f_word : forall a, is_word (f a) = is_word a.
Hypothesis f_case : forall a, f a = lower_ascii a \/ f a = upper_ascii a.

Lemma cls_has_case (p : ascii -> bool) (a : ascii) :
cls_has true p (f a) = cls_has true p a.
Proof.
unfold cls_has. rewrite f_lower, f_upper.
destruct (p (lower_ascii a)) eqn:El, (p (upper_ascii a)) eqn:Eu;
  rewrite ?orb_true_r; try reflexivity.
destruct (f_case a) as [-> | ->], (upper_or_lower a) as [Ha|Ha];
  rewrite ?El, ?Eu; try reflexivity;
  rewrite Ha, ?El, ?Eu; reflexivity.
Qed.

Lemma next_char_map (s : string) :
is_word_at (next_char (map_string f s)) = is_word_at (next_char s).
Proof. destruct s; simpl; [reflexivity | apply f_word]. Qed.

Lemma is_word_at_map (o : option ascii) : is_word_at (f <$> o) = is_word_at o.
Proof. destruct o; simpl; [apply f_word | reflexivity]. Qed.

Lemma star_cls_map (ci : bool) (p : ascii -> bool) (prev : option ascii)
  (s : string) :
(forall a, cls_has ci p (f a) = cls_has ci p a) ->
star_cls ci p (f <$> prev) (map_string f s)
= map (map_pos f) (star_cls ci p prev s).
Proof.
intros Hp. revert prev. induction s as [|a s IH]; intros prev; [reflexivity|].
cbn [star_cls map_string]. rewrite Hp.
destruct (cls_has ci p a); [|reflexivity].
cbn [map]. f_equal. apply (IH (Some a)).
Qed.

Lemma step_map (ci : bool) (r : regex) :
(ci = true \/ case_blind f r) ->
forall x, step ci r (map_pos f x) = map (map_pos f) (step ci r x).
Proof.
induction r as [|c|p| |r1 IH1 r2 IH2|r1 IH1 r2 IH2|r IH lo hi|p];
  intros Hb [prev s].
- reflexivity.
- cbn [step map_pos fst snd]. destruct s as [|a s]; [reflexivity|].
  cbn [map_string].
  assert (chr_eq ci (f a) c = chr_eq ci a c) as ->.
  { unfold chr_eq. destruct Hb as [-> | Hb]; [now rewrite f_lower|].
    destruct ci; [now rewrite f_lower | apply Hb]. }
  now destruct (chr_eq ci a c).
- cbn [step map_pos fst snd]. destruct s as [|a s]; [reflexivity|].
  cbn [map_string].
  assert (cls_has ci p (f a) = cls_has ci p a) as ->.
  { destruct Hb as [-> | Hb]; [apply cls_has_case|].
    destruct ci; [apply cls_has_case | apply Hb]. }
  now destruct (cls_has ci p a).
- cbn [step map_pos fst snd]. rewrite is_word_at_map, next_char_map.
  now destruct (xorb _ _).
- cbn [step]. rewrite IH1 by (destruct Hb as [Hb|[Hb _]]; auto).
  apply flat_map_commute. apply IH2. destruct Hb as [Hb|[_ Hb]]; auto.
- cbn [step]. rewrite IH1, IH2, map_app; [reflexivity | |];
    destruct Hb as [Hb|[Hb1 Hb2]]; auto.
- cbn [step].
  change [map_pos f (prev, s)] with (map (map_pos f) [(prev, s)]).
  rewrite iter_exact_map, iter_upto_map; auto.
- cbn [step map_pos fst snd]. apply star_cls_map.
  intros a. destruct Hb as [-> | Hb]; [apply cls_has_case|].
  destruct ci; [apply cls_has_case | apply Hb].
Qed.

Lemma test_from_map (ci : bool) (r : regex) (prev : option ascii) (s : string) :
(ci = true \/ case_blind f r) ->
test_from ci r (f <$> prev) (map_string f s) = test_from ci r prev s.
Proof.
intros Hb. revert prev. induction s as [|a s IH]; intros prev.
- cbn [test_from map_string]. unfold matches_at.
  change (f <$> prev, "") with (map_pos f (prev, "")).
  rewrite step_map by assumption. now destruct (step ci r (prev, "")).
- cbn [test_from map_string]. unfold matches_at.
  change (f <$> prev, String (f a) (map_string f s))
    with (map_pos f (prev, String a s)).
  rewrite step_map by assumption.
  change (Some (f a)) with (f <$> Some a). rewrite (IH (Some a)).
  now destruct (step ci r (prev, String a s)).
Qed.

Lemma test_map (ci : bool) (r : regex) (s : string) :
(ci = true \/ case_blind f r) -> test ci r (map_string f s) = test ci r s.
Proof. intros Hb. apply (test_from_map ci r None s Hb). Qed.

End CaseMapping.

Lemma case_blind_ipv4_upper : case_blind upper_ascii re_ipv4.
Proof.
  cbn. repeat split; intros a;
    destruct a as [[] [] [] [] [] [] [] []]; reflexivity.
Qed.

Lemma case_blind_ipv4_lower : case_blind lower_ascii re_ipv4.
Proof.
  cbn. repeat split; intros a;
    destruct a as [[] [] [] [] [] [] [] []]; reflexivity.
Qed.

Lemma test_toUpperCase (ci : bool) (r : regex) (s : string) :
  (ci = true \/ case_blind upper_ascii r) ->
  test ci r (toUpperCase s) = test ci r s.
Proof.
  intros Hb. rewrite toUpperCase_map. apply test_map; try assumption.
  - apply lower_upper_ascii.
  - apply upper_ascii_idem.
  - apply is_word_upper.
  - now right.
Qed.

Lemma test_toLowerCase (ci : bool) (r : regex) (s : string) :
  (ci = true \/ case_blind lower_ascii r) ->
  test ci r (toLowerCase s) = test ci r s.
Proof.
  intros Hb. rewrite toLowerCase_map. apply test_map; try assumption.
  - apply lower_ascii_idem.
  - apply upper_lower_ascii.
  - apply is_word_lower.
  - now left.
Qed.

(** X20.  Routing does not look at letter case: a text, its upper-case
    form and its lower-case form are routed to the same skill and agent,
    whatever the metadata. *)
Theorem routeToAgent_ignores_case (text : string) (metadata : option Metadata) :
  routeToAgent (toUpperCase text) metadata = routeToAgent text metadata /\
  routeToAgent (toLowerCase text) metadata = routeToAgent text metadata.
Proof.
  unfold routeToAgent. split.
  - rewrite toLowerCase_toUpperCase.
    rewrite (test_toUpperCase false re_ipv4)
      by (right; apply case_blind_ipv4_upper).
    now rewrite (test_toUpperCase true re_hash) by now left.
  - rewrite toLowerCase_idem.
    rewrite (test_toLowerCase false re_ipv4)
      by (right; apply case_blind_ipv4_lower).
    now rewrite (test_toLowerCase true re_hash) by now left.
Qed.

(* ===================================================================== *)
(** * What the IPv4 pattern matches *)
(* ===================================================================== *)












(* ===================================================================== *)
(** * Properties of the prediction market signals *)
(* ===================================================================== *)


Lemma num_le_trans (a b c : number) : num_le a b -> num_le b c -> num_le a c.
Proof.
  destruct a as [|[]|p], b as [|[]|q], c as [|[]|r]; simpl;
    intros H1 H2; try tauto;
    try (destruct H1; discriminate); try (destruct H2; discriminate).
  eapply Qle_trans; eassumption.
Qed.

Section PredictionSignalsFacts.

Import PredictionSignals.

Lemma js_lt_true_iff (a b : number) : js_lt a b = true <-> num_lt a b.
Proof. unfold js_lt. apply js_gt_true_iff. Qed.

Lemma js_ge_true_iff (a b : number) : js_ge a b = true <-> num_le b a.
Proof.
destruct a as [|[]|p], b as [|[]|q]; simpl;
  try (split; [discriminate | tauto]);
  try (split; [tauto | reflexivity]);
  try (split; [intros _; auto | reflexivity]);
  try (split; [discriminate | intros [H|H]; discriminate]).
unfold Qlt_bool. rewrite negb_involutive. apply Qle_bool_iff.
Qed.

Lemma js_ge_mono (v1 v2 c : number) :
num_le v1 v2 -> js_ge v1 c = true -> js_ge v2 c = true.
Proof.
rewrite !js_ge_true_iff. intros H12 Hc. eapply num_le_trans; eassumption.
Qed.

Lemma js_lt_mono (v1 v2 c : number) :
num_le v1 v2 -> js_lt v2 c = true -> js_lt v1 c = true.
Proof.
rewrite !js_lt_true_iff. intros H12 Hc. eapply num_le_lt_trans; eassumption.
Qed.




(** X23.  [getSignalLevel]: a market below the minimum volume is always
  normal; from the minimum volume on the level is critical from 5 points
  per hour, elevated from 1, declining below -1 and normal in between,
  so it never falls when the velocity rises.  A velocity that is not a
  number gives normal.  A volume that is not a number passes the volume
  test, so such a market is rated by its velocity alone. *)
Theorem getSignalLevel_levels :
(forall velocity volume,
   num_lt volume MIN_VOLUME_USD -> getSignalLevel velocity volume = normal) /\
(forall (v vol : Q), (100000 <= vol)%Q ->
   ((5 <= v)%Q -> getSignalLevel (JNum v) (JNum vol) = critical) /\
   ((1 <= v)%Q -> (v < 5)%Q -> getSignalLevel (JNum v) (JNum vol) = elevated) /\
   ((- (1) <= v)%Q -> (v < 1)%Q -> getSignalLevel (JNum v) (JNum vol) = normal) /\
   ((v < - (1))%Q -> getSignalLevel (JNum v) (JNum vol) = declining)) /\
(forall v1 v2 volume, num_le v1 v2 ->
   (level_rank (getSignalLevel v1 volume)
    <= level_rank (getSignalLevel v2 volume))%nat) /\
(forall volume, getSignalLevel JNaN volume = normal) /\
(forall velocity,
   getSignalLevel velocity JNaN = getSignalLevel velocity (JInf false)) /\
(forall velocity volume,
   elevated_or_critical (getSignalLevel velocity volume)
   = js_ge velocity (JNum 1.0) && negb (js_lt volume MIN_VOLUME_USD)).
Proof.
split; [|split; [|split; [|split; [|split]]]].
- intros velocity volume H. apply js_lt_true_iff in H.
  unfold getSignalLevel. now rewrite H.
- intros v vol Hvol. unfold getSignalLevel, MIN_VOLUME_USD, js_lt, js_ge.
  cbn [js_gt]. unfold Qlt_bool. rewrite !negb_involutive.
  destruct (Qle_bool 100000 vol) eqn:Ev;
    [|apply not_true_iff_false in Ev; rewrite Qle_bool_iff in Ev; lra].
  cbn [negb].
  destruct (Qle_bool 5.0 v) eqn:E5, (Qle_bool 1.0 v) eqn:E1,
           (Qle_bool (- 1.0) v) eqn:Em; cbn [negb];
    repeat match goal with
    | H : Qle_bool _ _ = true |- _ => apply Qle_bool_iff in H
    | H : Qle_bool _ _ = false |- _ =>
        apply not_true_iff_false in H; rewrite Qle_bool_iff in H
    end;
    repeat split; intros; try reflexivity; lra.
- intros v1 v2 volume H12. unfold getSignalLevel.
  destruct (js_lt volume MIN_VOLUME_USD); [reflexivity|].
  pose proof (js_ge_mono v1 v2 (JNum 5.0) H12) as H5.
  pose proof (js_ge_mono v1 v2 (JNum 1.0) H12) as H1.
  pose proof (js_lt_mono v1 v2 (JNum (- 1.0)) H12) as Hm.
  destruct (js_ge v1 (JNum 5.0)), (js_ge v1 (JNum 1.0)),
           (js_lt v1 (JNum (- 1.0))), (js_ge v2 (JNum 5.0)),
           (js_ge v2 (JNum 1.0)), (js_lt v2 (JNum (- 1.0)));
    cbn [level_rank]; try lia;
    try (specialize (H5 eq_refl); discriminate);
    try (specialize (H1 eq_refl); discriminate);
    try (specialize (Hm eq_refl); discriminate).
- intros volume. unfold getSignalLevel.
  now destruct (js_lt volume MIN_VOLUME_USD).
- intros velocity. reflexivity.
- intros velocity volume. unfold getSignalLevel.
  destruct (js_lt volume MIN_VOLUME_USD); [now rewrite andb_false_r|].
  rewrite andb_true_r.
  destruct (js_ge velocity (JNum 5.0)) eqn:E5.
  + symmetry. apply js_ge_true_iff. apply js_ge_true_iff in E5.
    eapply num_le_trans; [|exact E5]. unfold num_le, Qle; simpl; lia.
  + destruct (js_ge velocity (JNum 1.0)); [reflexivity|].
    now destruct (js_lt velocity (JNum (- 1.0))).
Qed.

Lemma recordProbability_lookup (h : History) (now1 now2 : Z) (title : string)
  (p : number) :
recordProbability h now1 now2 title p !! title
= Some (List.filter (fun pt => now2 - 24 * 60 * 60 * 1000 <? timestamp pt)
          (default [] (h !! title)
           ++ [{| timestamp := now1; probability := p |}])).
Proof. unfold recordProbability. apply lookup_insert_eq. Qed.

(** X25.  After [recordProbability] the history of the title holds the
  earlier points and the new one, in their order, as far as they are
  younger than 24 hours at the second reading of the clock, and nothing
  else; the new point is the last one whenever less than 24 hours pass
  between the two readings; the histories of other titles are
  untouched. *)
Theorem recordProbability_window (h : History) (now1 now2 : Z) (title : string)
  (p : number) :
let h' := recordProbability h now1 now2 title p in
let new := {| timestamp := now1; probability := p |} in
exists l,
  h' !! title = Some l /\
  (forall pt, In pt l <->
     (In pt (default [] (h !! title)) \/ pt = new) /\
     now2 - 86400000 < timestamp pt) /\
  (length l <= S (length (default [] (h !! title))))%nat /\
  (now2 - 86400000 < now1 -> last l = Some new) /\
  (forall other, other <> title -> h' !! other = h !! other).
Proof.
intros h' new. eexists. split; [apply recordProbability_lookup|].
change (24 * 60 * 60 * 1000) with 86400000.
split; [|split; [|split]].
- intros pt. rewrite List.filter_In, in_app_iff, Z.ltb_lt. cbn [In].
  fold new. intuition congruence.
- etransitivity; [apply List.filter_length_le|].
  rewrite length_app. cbn. lia.
- intros Hfresh. rewrite List.filter_app. cbn [List.filter timestamp].
  apply Z.ltb_lt in Hfresh. rewrite Hfresh. apply last_snoc.
- intros other Hne. unfold h', recordProbability.
  now apply lookup_insert_ne.
Qed.

Section FloatFacts.

Variable fadd fsub fmul fdiv : number -> number -> number.

Abbreviation accumulate' := (accumulate fadd fmul fdiv).
Abbreviation computeEarlyWarningMultiplier' :=
(computeEarlyWarningMultiplier fadd fmul fdiv).
Abbreviation computeVelocity' := (computeVelocity fsub fdiv).

Lemma accumulate_filter (x : number) (markets : list TrackedMarket) :
accumulate' x (List.filter isElevated markets) = accumulate' x markets.
Proof.
revert x. induction markets as [|m markets IH]; intros x; [reflexivity|].
cbn [List.filter accumulate]. destruct (isElevated m) eqn:E; cbn [negb].
- cbn [accumulate]. rewrite E. cbn [negb]. apply IH.
- apply IH.
Qed.

Lemma accumulate_none (x : number) (markets : list TrackedMarket) :
(forall m, In m markets -> isElevated m = false) -> accumulate' x markets = x.
Proof.
induction markets as [|m markets IH]; intros H; [reflexivity|].
cbn [accumulate]. rewrite (H m (or_introl eq_refl)). cbn [negb].
apply IH. intros m' Hm'. apply H. now right.
Qed.

Lemma Math_min_cap (x : number) (q : Q) :
Math_min x (JNum q) = JNaN \/ num_le (Math_min x (JNum q)) (JNum q).
Proof.
destruct x as [|[]|p]; cbn; [now left | right | right | right].
- exact I.
- apply Qle_refl.
- unfold Qlt_bool. destruct (Qle_bool p q) eqn:E; cbn.
  + now apply Qle_bool_iff.
  + apply Qle_refl.
Qed.

(** X24.  The early warning multiplier is never above 3 (it is at most 3,
  or not a number); markets that are not elevated do not enter it; and
  with no elevated market it is exactly 1. *)
Theorem computeEarlyWarningMultiplier_capped (markets : list TrackedMarket) :
(computeEarlyWarningMultiplier' markets = JNaN \/
 num_le (computeEarlyWarningMultiplier' markets) (JNum 3.0)) /\
computeEarlyWarningMultiplier' (List.filter isElevated markets)
= computeEarlyWarningMultiplier' markets /\
((forall m, In m markets -> isElevated m = false) ->
 computeEarlyWarningMultiplier' markets = JNum 1.0).
Proof.
unfold computeEarlyWarningMultiplier. split; [apply Math_min_cap|]. split.
- now rewrite accumulate_filter.
- intros H. now rewrite accumulate_none.
Qed.

(** X26.  A market observed for the first time raises no signal: after
  its first [recordProbability] the velocity is 0 and there is no
  previous probability, and a velocity of 0 gives the level normal at
  any volume.  More generally the velocity is 0 whenever the history of
  the title holds fewer than two points. *)
Theorem first_observation_raises_no_signal (h : History) (title : string) :
(forall now windowHours,
   (length (default [] (h !! title)) < 2)%nat ->
   computeVelocity' h now title windowHours = JNum 0 /\
   getPreviousProbability h title = None) /\
(h !! title = None ->
 forall now1 now2 now3 windowHours p volume,
   let h' := recordProbability h now1 now2 title p in
   computeVelocity' h' now3 title windowHours = JNum 0 /\
   getPreviousProbability h' title = None /\
   getSignalLevel (computeVelocity' h' now3 title windowHours) volume = normal) /\
(forall volume,
   getSignalLevel (JNum 0) volume = normal /\
   elevated_or_critical (getSignalLevel (JNum 0) volume) = false).
Proof.
assert (Hshort : forall (g : History) now windowHours,
          (length (default [] (g !! title)) < 2)%nat ->
          computeVelocity' g now title windowHours = JNum 0 /\
          getPreviousProbability g title = None).
{ intros g now windowHours Hlen.
  unfold computeVelocity, getPreviousProbability.
  destruct (g !! title) as [[|a [|b l]]|]; cbn in Hlen |- *;
    try (split; reflexivity). lia. }
assert (Hzero : forall volume, getSignalLevel (JNum 0) volume = normal).
{ intros volume. unfold getSignalLevel.
  now destruct (js_lt volume MIN_VOLUME_USD). }
split; [apply Hshort|]. split.
- intros Hfresh now1 now2 now3 windowHours p volume h'.
  assert (Hlen : (length (default [] (h' !! title)) < 2)%nat).
  { unfold h'. rewrite recordProbability_lookup, Hfresh. cbn.
    destruct (_ <? _); cbn; lia. }
  destruct (Hshort h' now3 windowHours Hlen) as [Hv Hp].
  rewrite Hv. auto.
- intros volume. rewrite Hzero. now split.
Qed.

End FloatFacts.

End PredictionSignalsFacts.

(* ===================================================================== *)
(** * The further theorems at sample inputs *)
(* ===================================================================== *)

Lemma policy_monotone_in_score_witness :
  maxRequestsPerHour (buildTrustPolicy Sample.Number_toString "MM" (JNum 72.8))
  <= maxRequestsPerHour (buildTrustPolicy Sample.Number_toString "SG" (JNum 8.1)).
Proof.
  destruct (policy_monotone_in_score Sample.Number_toString "SG" "MM"
              (JNum 8.1) (JNum 72.8)) as (_ & H & _).
  - unfold num_le, Qle; simpl; lia.
  - exact H.
Defined.

Lemma updateCiiScore_getCiiScore_witness :
  policy (evaluateCiiTrustPolicy Sample.Number_toString Sample.URL_hostname
            (updateCiiScore COUNTRY_CII_OVERRIDES "mm" (JNum 5)) "now"
            Sample.request_mm ∅ "agent:unknown")
  = buildTrustPolicy Sample.Number_toString "MM" (JNum 5).
Proof.
  apply (proj2 (updateCiiScore_getCiiScore Sample.Number_toString
                  Sample.URL_hostname COUNTRY_CII_OVERRIDES "mm" "MM" (JNum 5))
           "now" Sample.request_mm ∅ "agent:unknown").
  reflexivity.
Defined.

Lemma buildCiiRejectionResponse_of_decision_witness :
  let d := evaluateCiiTrustPolicy Sample.Number_toString Sample.URL_hostname
             COUNTRY_CII_OVERRIDES "now" Sample.request_mm ∅ "agent:unknown" in
  error_message (rejection_error (buildCiiRejectionResponse (IdString "req-001") d))
  = criticalMessage Sample.Number_toString "MM" (JNum 72.8).
Proof.
  intros d.
  destruct (buildCiiRejectionResponse_of_decision Sample.Number_toString
              Sample.URL_hostname COUNTRY_CII_OVERRIDES "now" Sample.request_mm
              ∅ "agent:unknown" (IdString "req-001"))
    as (_ & _ & _ & _ & _ & _ & _ & Hrefused & _).
  destruct (Hrefused eq_refl) as [_ Hmsg]. exact Hmsg.
Defined.

Lemma resolveAgentCountry_ignores_lower_signals_witness :
  resolveAgentCountry Sample.URL_hostname
    (with_header "x-agent-country" "PK" Sample.request_mm)
  = resolveAgentCountry Sample.URL_hostname Sample.request_mm.
Proof.
  destruct (proj1 (resolveAgentCountry_ignores_lower_signals
                     Sample.URL_hostname Sample.request_mm)) with (v := "PK")
    as [H _].
  - vm_compute. discriminate.
  - vm_compute. discriminate.
  - exact H.
Defined.

Lemma extractTldCountry_unique_match_witness :
  extractTldCountry Sample.URL_hostname "https://crowdstrike.com.mm/agent"
  = Some "MM".
Proof.
  apply (proj1 (extractTldCountry_unique_match Sample.URL_hostname
                  "https://crowdstrike.com.mm/agent" "MM")).
  exists "crowdstrike.com.mm", ".mm". split; [reflexivity|].
  split; [|reflexivity].
  unfold TLD_TO_COUNTRY. cbn [In].
  repeat first [left; reflexivity | right].
Defined.

Lemma resolveAgentCountry_code_form_witness :
  String.length (countryCode (resolveAgentCountry Sample.URL_hostname
                                Sample.request_mm)) = 2%nat.
Proof.
  apply (resolveAgentCountry_code_form Sample.URL_hostname Sample.request_mm).
  intros name v. unfold Sample.request_mm. cbn [headers].
  intros H. apply lookup_insert_Some in H as [[_ <-]|[_ H]]; [reflexivity|].
  apply lookup_singleton_Some in H as [_ <-]. reflexivity.
Defined.

Lemma edge_copy_agrees_up_to_label_witness :
  EdgeCopy.resolveAgentCountry Sample.URL_hostname (headers Sample.request_mm)
    (agentCardUrl Sample.request_mm)
  = resolveAgentCountry Sample.URL_hostname Sample.request_mm.
Proof.
  destruct (edge_copy_agrees_up_to_label Sample.Number_toString
              Sample.URL_hostname COUNTRY_CII_OVERRIDES "now" None
              (headers Sample.request_mm) "agent:unknown"
              (agentCardUrl Sample.request_mm))
    as (_ & _ & _ & Hsame & _).
  apply Hsame. discriminate.
Defined.

Lemma loadAllowlist_members_witness :
  EdgePolicy.loadAllowlist (Some "agent:ioh-myanmar-liaison,agent:soc")
  = list_to_set ["agent:ioh-myanmar-liaison"; "agent:soc"].
Proof.
  apply (proj1 (proj2 (loadAllowlist_members Sample.Number_toString
                         Sample.URL_hostname))
           ["agent:ioh-myanmar-liaison"; "agent:soc"]).
  repeat constructor; try discriminate; reflexivity.
Defined.

Lemma handler_failure_leaves_store_witness :
  fst (handler Sample.generateAgentResponse Sample.store2 Sample.oracle "GET" None)
  = Sample.store2.
Proof.
  apply (handler_failure_leaves_store Sample.generateAgentResponse
           Sample.store2 Sample.oracle "GET" None).
  reflexivity.
Defined.

Lemma reachable_store1 : reachable Sample.generateAgentResponse SampleRequests.store1.
Proof. apply reachable_request, reachable_start. Qed.

Lemma reachable_tasks_completed_witness :
  exists t, stored SampleRequests.store1 "task-new" = Some t /\
            task_id t = "task-new" /\ state (status t) = "completed".
Proof.
  apply (reachable_tasks_completed Sample.generateAgentResponse
           SampleRequests.store1 reachable_store1 "task-new").
  now left.
Defined.

Lemma tasks_cancel_never_succeeds_witness :
  exists msg,
    handleTasksCancel SampleRequests.store1 Sample.oracle IdNull
      (Some (Sample.params_for "task-new" None))
    = (SampleRequests.store1, jsonRpcError IdNull ERR_TASK_NOT_CANCELABLE msg).
Proof.
  destruct (proj1 (tasks_cancel_never_succeeds Sample.generateAgentResponse
                     SampleRequests.store1 reachable_store1)
              Sample.oracle IdNull (Some (Sample.params_for "task-new" None)))
    as (code & msg & Hrun & ->).
  exists msg. exact Hrun.
Defined.

Lemma send_then_get_witness :
  let r := handleMessageSend Sample.generateAgentResponse empty_store
             Sample.oracle IdNull (Some (Sample.send_params "check 10.0.0.1")) in
  exists t,
    snd r = jsonRpcSuccess IdNull t /\
    snd (handleTasksGet (fst r) (IdNumber (JNum 2))
           (Some (Sample.params_for "task-new" (Some (JNum 1)))))
    = jsonRpcSuccess (IdNumber (JNum 2)) t.
Proof.
  intros r.
  assert (Hrun : exists t, r = (fst r, jsonRpcSuccess IdNull t) /\
                           task_id t = "task-new")
    by (eexists; split; cbv; reflexivity).
  destruct Hrun as (t & Hrun & Hid).
  destruct (send_then_get Sample.generateAgentResponse empty_store (fst r)
              Sample.oracle IdNull IdNull
              (Some (Sample.send_params "check 10.0.0.1")) t)
    as (_ & _ & Hget & _).
  - split; [simpl; lia | constructor].
  - discriminate.
  - exact Hrun.
  - exists t. split; [now rewrite Hrun|].
    apply (Hget (IdNumber (JNum 2))
             (Sample.params_for "task-new" (Some (JNum 1)))).
    now rewrite Hid.
Defined.

Lemma send_requires_text_witness :
  handleMessageSend Sample.generateAgentResponse Sample.store2 Sample.oracle
    IdNull (Some (SampleRequests.send_parts SampleRequests.blank_parts None))
  = (Sample.store2,
     jsonRpcError IdNull ERR_INVALID_PARAMS "No text content found in message parts").
Proof.
  destruct (send_requires_text Sample.generateAgentResponse Sample.store2
              Sample.oracle IdNull
              (SampleRequests.send_parts SampleRequests.blank_parts None)
              (SampleRequests.message_of SampleRequests.blank_parts)
              SampleRequests.blank_objects
              [Some "  "; Some (String (ascii_of_nat 160) EmptyString); None])
    as [[_ Hblank] _].
  - split; [reflexivity|]. split; [reflexivity|]. split; [discriminate|].
    intros r [= <-]. now right.
  - reflexivity.
  - apply Hblank. intros a Hin. vm_compute in Hin.
    repeat (destruct Hin as [<-|Hin]; [reflexivity|]). destruct Hin.
Defined.

Lemma inherited_skill_id_throws_witness :
  handleMessageSend Sample.generateAgentResponse Sample.store2 Sample.oracle
    IdNull
    (Some (SampleRequests.send_parts SampleRequests.text_parts (Some "toString")))
  = (Sample.store2, Thrown "TypeError") /\
  handleMessageSend Sample.generateAgentResponse Sample.store2 Sample.oracle
    IdNull (Some (SampleRequests.send_parts SampleRequests.null_parts None))
  = (Sample.store2, Thrown "TypeError").
Proof.
  assert (Hrole : forall r, Some "user" = Some r -> r = "" \/ r = "user")
    by (intros r [= <-]; now right).
  split.
  - destruct (inherited_skill_id_throws Sample.generateAgentResponse
                Sample.store2 Sample.oracle IdNull
                (SampleRequests.send_parts SampleRequests.text_parts (Some "toString"))
                (SampleRequests.message_of SampleRequests.text_parts)
                SampleRequests.text_parts) as [Hskill _].
    + split; [reflexivity|]. split; [reflexivity|]. split; [discriminate|].
      exact Hrole.
    + apply (Hskill "status report" "toString"); try reflexivity.
      * discriminate.
      * cbn. tauto.
  - destruct (inherited_skill_id_throws Sample.generateAgentResponse
                Sample.store2 Sample.oracle IdNull
                (SampleRequests.send_parts SampleRequests.null_parts None)
                (SampleRequests.message_of SampleRequests.null_parts)
                SampleRequests.null_parts) as (_ & Hnull & _).
    + split; [reflexivity|]. split; [reflexivity|]. split; [discriminate|].
      exact Hrole.
    + apply Hnull. right. now left.
Defined.

Lemma uid_is_v4_uuid_witness :
  let random := fun n => (Z.of_nat (n mod 16) # 16)%Q in
  uid random = "01234567-89ab-4cde-b012-3456789abcde" /\
  String.length (uid random) = 36%nat.
Proof.
  intros random. split; [reflexivity|].
  apply (uid_is_v4_uuid random).
  intros n. subst random. cbv beta.
  pose proof (Nat.mod_upper_bound n 16).
  split; [unfold Qle | unfold Qlt]; simpl; lia.
Defined.

Lemma validationResponse_verdict_witness :
  verdict (validationResponse "now" "https://a.example/agent.json" None
             [check "fetch-status" "fetch" "pass" "HTTP 200 OK" None;
              check "cors" "fetch" "warn" "No Access-Control-Allow-Origin header" None]
             (Some 120) (Some 200))
  = "valid_with_warnings".
Proof.
  apply (proj1 (proj2 (proj2 (validationResponse_verdict "now"
           "https://a.example/agent.json" None
           [check "fetch-status" "fetch" "pass" "HTTP 200 OK" None;
            check "cors" "fetch" "warn" "No Access-Control-Allow-Origin header" None]
           (Some 120) (Some 200))))).
  split.
  - intros c [<-|[<-|[]]]; discriminate.
  - eexists. split; [right; left; reflexivity | reflexivity].
Defined.

Lemma structure_checks_verdict_witness :
  verdict (validationResponse "now" "https://a.example/agent.json" None
             (structure_checks SampleCards.broken) None None)
  = "invalid".
Proof.
  destruct (structure_checks_verdict SampleCards.broken)
    as (_ & _ & _ & Hinvalid & _).
  rewrite <- (app_nil_r (structure_checks SampleCards.broken)).
  apply (Hinvalid "version" "now" "https://a.example/agent.json" None [] []
           None None).
  - cbn. tauto.
  - reflexivity.
Defined.



Lemma getSignalLevel_levels_witness :
  PredictionSignals.getSignalLevel (JNum 6) (JNum 250000)
  = PredictionSignals.critical.
Proof.
  destruct getSignalLevel_levels as (_ & Hfinite & _).
  destruct (Hfinite 6%Q 250000%Q) as (Hcritical & _).
  - unfold Qle; simpl; lia.
  - apply Hcritical. unfold Qle; simpl; lia.
Defined.

Lemma computeEarlyWarningMultiplier_capped_witness :
  PredictionSignals.computeEarlyWarningMultiplier
    (PredictionSignals.lift Qplus) (PredictionSignals.lift Qmult)
    (PredictionSignals.lift Qdiv) [PredictionSignals.quiet_market]
  = JNum 1.0.
Proof.
  apply (computeEarlyWarningMultiplier_capped (PredictionSignals.lift Qplus)
           (PredictionSignals.lift Qmult) (PredictionSignals.lift Qdiv)
           [PredictionSignals.quiet_market]).
  intros m [<-|[]]. reflexivity.
Defined.

Lemma recordProbability_window_witness :
  let new := {| PredictionSignals.timestamp := 1772150400000;
                PredictionSignals.probability := JNum 41 |} in
  exists l,
    PredictionSignals.recordProbability ∅ 1772150400000 1772150400001
      "Will there be a ceasefire by June?" (JNum 41)
    !! "Will there be a ceasefire by June?" = Some l /\
    last l = Some new.
Proof.
  intros new.
  destruct (recordProbability_window ∅ 1772150400000 1772150400001
              "Will there be a ceasefire by June?" (JNum 41))
    as (l & Hl & _ & _ & Hlast & _).
  exists l. split; [exact Hl|]. apply Hlast. lia.
Defined.

Lemma first_observation_raises_no_signal_witness :
  PredictionSignals.computeVelocity (PredictionSignals.lift Qminus)
    (PredictionSignals.lift Qdiv)
    (PredictionSignals.recordProbability ∅ 1772150400000 1772150400001
       "Will there be a ceasefire by June?" (JNum 41))
    1772150400002 "Will there be a ceasefire by June?" 6
  = JNum 0.
Proof.
  destruct (first_observation_raises_no_signal (PredictionSignals.lift Qminus)
              (PredictionSignals.lift Qdiv) ∅
              "Will there be a ceasefire by June?") as (_ & Hfresh & _).
  destruct (Hfresh (lookup_empty _) 1772150400000 1772150400001 1772150400002
              6 (JNum 41) (JNum 250000)) as (Hzero & _).
  exact Hzero.
Defined.
